(** * Site-audit tools: the bounded breadth-first crawler and the scoring helpers

    A shallow embedding of the parts of [web_audit_new.py] and
    [socials_audit.py] that the specification talks about:

    - the URL helpers [_normalize_url], [_is_valid_url], [_should_crawl_url]
      together with the part of CPython's [urllib.parse] they call;
    - the crawl loop of [_crawl_with_playwright] and its wrapper [crawl_site];
    - the score functions [_analyze_https_security],
      [_analyze_accessibility_results], [_analyze_internal_linking],
      [_calculate_profile_score] and [_calculate_bio_score], and the overall
      score of [audit_speed];
    - [check_robots_txt] with [_fetch_robots_txt] and [_analyze_robots_txt];
    - the same-domain test used by [_get_internal_links].

    Python [str] values are modelled as [string]; a character stands for a
    code point below 256.  Python exceptions are modelled by [option]
    ([None] is a raised [ValueError]) or by an explicit outcome type. *)

From Stdlib Require Import ZArith QArith Qround Qpower Lia Lqa Ascii String.
From stdpp Require Import base option list gmap sets strings pretty.


(** ** Python string primitives *)

Module PyStr.

Definition code (c : ascii) : N := N_of_ascii c.

Definition in_range (lo hi : N) (c : ascii) : bool :=
  (lo <=? code c)%N && (code c <=? hi)%N.

Definition is_ascii (c : ascii) : bool := (code c <? 128)%N.
Definition is_upper (c : ascii) : bool := in_range 65 90 c.
Definition is_lower (c : ascii) : bool := in_range 97 122 c.
Definition is_digit (c : ascii) : bool := in_range 48 57 c.
Definition is_ascii_alpha (c : ascii) : bool := is_upper c || is_lower c.

(** [str.lower] on one character: A-Z and the Latin-1 capitals. *)
Definition lower_char (c : ascii) : ascii :=
  if is_upper c || (in_range 192 222 c && negb (code c =? 215)%N)
  then ascii_of_N (code c + 32) else c.

(** The characters removed by [str.strip()] without argument. *)
Definition is_space (c : ascii) : bool :=
  in_range 9 13 c || in_range 28 32 c || (code c =? 133)%N || (code c =? 160)%N.

Fixpoint map (f : ascii -> ascii) (s : string) : string :=
  match s with
  | EmptyString => EmptyString
  | String a s' => String (f a) (map f s')
  end.

Definition lower : string -> string := map lower_char.

(** [str.capitalize] on ASCII text. *)
Definition capitalize (s : string) : string :=
  match s with
  | EmptyString => EmptyString
  | String a s' =>
      String (if is_lower a then ascii_of_N (code a - 32) else a) (lower s')
  end.

Fixpoint forallb (p : ascii -> bool) (s : string) : bool :=
  match s with
  | EmptyString => true
  | String a s' => p a && forallb p s'
  end.

Fixpoint existsb (p : ascii -> bool) (s : string) : bool :=
  match s with
  | EmptyString => false
  | String a s' => p a || existsb p s'
  end.

(** [c in s] for a single character [c]. *)
Definition contains (c : ascii) (s : string) : bool := existsb (Ascii.eqb c) s.

Definition isascii (s : string) : bool := forallb is_ascii s.

(** [not s] *)
Definition is_empty (s : string) : bool :=
  match s with EmptyString => true | _ => false end.

Fixpoint take (n : nat) (s : string) : string :=
  match n, s with
  | S n', String a s' => String a (take n' s')
  | _, _ => EmptyString
  end.

Fixpoint drop (n : nat) (s : string) : string :=
  match n, s with
  | S n', String _ s' => drop n' s'
  | _, _ => s
  end.

(** [s[a:b]] for non-negative [a] and [b]. *)
Definition slice (s : string) (a b : nat) : string := take (b - a) (drop a s).

(** [s.find(c)]; [None] stands for -1. *)
Fixpoint find (c : ascii) (s : string) : option nat :=
  match s with
  | EmptyString => None
  | String a s' => if Ascii.eqb a c then Some 0 else S <$> find c s'
  end.

(** [s.find(c, start)] *)
Definition find_from (c : ascii) (s : string) (start : nat) : option nat :=
  (fun i => start + i) <$> find c (drop start s).

(** [s.rfind(c)] *)
Fixpoint rfind (c : ascii) (s : string) : option nat :=
  match s with
  | EmptyString => None
  | String a s' =>
      match rfind c s' with
      | Some i => Some (S i)
      | None => if Ascii.eqb a c then Some 0 else None
      end
  end.

(** [s.lstrip(chars)], [s.rstrip(chars)] and [s.strip(chars)], the set of
    characters given as a predicate. *)
Fixpoint lstrip (p : ascii -> bool) (s : string) : string :=
  match s with
  | EmptyString => EmptyString
  | String a s' => if p a then lstrip p s' else s
  end.

Fixpoint rstrip (p : ascii -> bool) (s : string) : string :=
  match s with
  | EmptyString => EmptyString
  | String a s' =>
      match rstrip p s' with
      | EmptyString => if p a then EmptyString else String a EmptyString
      | r => String a r
      end
  end.

Definition strip (p : ascii -> bool) (s : string) : string := rstrip p (lstrip p s).

(** [s.replace(c, "")] for every [c] with [p c]. *)
Fixpoint remove (p : ascii -> bool) (s : string) : string :=
  match s with
  | EmptyString => EmptyString
  | String a s' => if p a then remove p s' else String a (remove p s')
  end.

(** [s.split(c, 1)] when [c in s]: the text before and after the first [c]. *)
Definition split_once (c : ascii) (s : string) : string * string :=
  match find c s with
  | Some i => (take i s, drop (S i) s)
  | None => (s, EmptyString)
  end.

(** [s.split(c)] *)
Fixpoint split (c : ascii) (s : string) : list string :=
  match s with
  | EmptyString => [EmptyString]
  | String a s' =>
      if Ascii.eqb a c then EmptyString :: split c s'
      else match split c s' with
           | w :: ws => String a w :: ws
           | [] => [String a EmptyString]
           end
  end.

(** [sep.join(l)] *)
Fixpoint join (sep : string) (l : list string) : string :=
  match l with
  | [] => EmptyString
  | [w] => w
  | w :: ws => w +:+ sep +:+ join sep ws
  end.

(** [s.startswith(p)] and [s.endswith(p)] *)
Fixpoint startswith (s p : string) {struct p} : bool :=
  match p, s with
  | EmptyString, _ => true
  | String b p', String a s' => Ascii.eqb a b && startswith s' p'
  | String _ _, EmptyString => false
  end.

Definition endswith (s p : string) : bool :=
  (String.length p <=? String.length s)%nat
  && String.eqb (drop (String.length s - String.length p) s) p.

(** [needle in hay] for strings. *)
Fixpoint substr_in (needle hay : string) : bool :=
  startswith hay needle
  || match hay with
     | EmptyString => false
     | String _ hay' => substr_in needle hay'
     end.

End PyStr.

(** ** The part of [urllib.parse] used by the tools (CPython 3.11/3.12) *)

(** Two checks of [urlsplit] depend on other library modules and on the
    CPython release; they are kept abstract.  [true] means that no
    [ValueError] is raised. *)
Class UrlChecks := {
  (** [_check_bracketed_netloc], called on a netloc that contains both
      brackets (absent before CPython 3.11.4). *)
  check_bracketed_netloc : string -> bool;
  (** The NFKC test of [_checknetloc], reached by a netloc that is not ASCII. *)
  nfkc_netloc_ok : string -> bool
}.

Module UrlLib.
Import PyStr.

Record SplitResult := mkSplit {
  s_scheme : string; s_netloc : string; s_url : string;
  s_query : string; s_fragment : string
}.

Record ParseResult := mkParse {
  scheme : string; netloc : string; path : string;
  params : string; query : string; fragment : string
}.

Definition uses_relative : list string :=
  [""; "ftp"; "http"; "gopher"; "nntp"; "imap"; "wais"; "file"; "https";
   "shttp"; "mms"; "prospero"; "rtsp"; "rtspu"; "sftp"; "svn"; "svn+ssh";
   "ws"; "wss"].

Definition uses_netloc : list string :=
  [""; "ftp"; "http"; "gopher"; "nntp"; "telnet"; "imap"; "wais"; "file";
   "mms"; "https"; "shttp"; "snews"; "prospero"; "rtsp"; "rtspu"; "rsync";
   "svn"; "svn+ssh"; "sftp"; "nfs"; "git"; "git+ssh"; "ws"; "wss"].

Definition uses_params : list string :=
  [""; "ftp"; "hdl"; "prospero"; "http"; "imap"; "https"; "shttp"; "rtsp";
   "rtspu"; "sip"; "sips"; "mms"; "sftp"; "tel"].

(** [x in l] for a list of strings. *)
Definition mem (x : string) (l : list string) : bool := bool_decide (x ∈ l).

Definition is_scheme_char (c : ascii) : bool :=
  is_lower c || is_upper c || is_digit c
  || Ascii.eqb c "+" || Ascii.eqb c "-" || Ascii.eqb c ".".

(** [_WHATWG_C0_CONTROL_OR_SPACE] *)
Definition is_c0_or_space (c : ascii) : bool := (code c <=? 32)%N.

(** [_UNSAFE_URL_BYTES_TO_REMOVE] *)
Definition is_unsafe_byte (c : ascii) : bool :=
  Ascii.eqb c "009" || Ascii.eqb c "013" || Ascii.eqb c "010".

Definition _splitnetloc (url : string) (start : nat) : string * string :=
  let delim :=
    foldl (fun delim c =>
             match find_from c url start with
             | Some wdelim => Nat.min delim wdelim
             | None => delim
             end)
          (String.length url) ["/"; "?"; "#"]%char in
  (slice url start delim, drop delim url).

Definition _splitparams (url : string) : string * string :=
  let cut (i : nat) := (take i url, drop (S i) url) in
  if contains "/" url then
    match find_from ";" url (default 0 (rfind "/" url)) with
    | Some i => cut i
    | None => (url, "")
    end
  else
    match find ";" url with
    | Some i => cut i
    (* unreachable from [urlparse], which tests [';' in url]; Python's
       [url[:-1], url[0:]] *)
    | None => (take (String.length url - 1) url, url)
    end.

(** The scheme part of [urlsplit]: the text before the first colon when it
    starts with an ASCII letter and consists of scheme characters. *)
Definition split_scheme (url scheme : string) : string * string :=
  match find ":" url, url with
  | Some (S i' as i), String c0 _ =>
      if is_ascii c0 && is_ascii_alpha c0 && forallb is_scheme_char (take i url)
      then (lower (take i url), drop (S i) url)
      else (scheme, url)
  | _, _ => (scheme, url)
  end.

Section WithChecks.
Context `{!UrlChecks}.

Definition _checknetloc (netloc : string) : bool :=
  if is_empty netloc || isascii netloc then true else nfkc_netloc_ok netloc.

(** The netloc part of [urlsplit]: [url[:2] == '//'] and the bracket checks. *)
Definition split_authority (url : string) : option (string * string) :=
  if String.eqb (take 2 url) "//" then
    let '(netloc, url) := _splitnetloc url 2 in
    if (contains "[" netloc && negb (contains "]" netloc))
       || (contains "]" netloc && negb (contains "[" netloc))
    then None
    else if contains "[" netloc && contains "]" netloc
            && negb (check_bracketed_netloc netloc)
    then None
    else Some (netloc, url)
  else Some ("", url).

Definition urlsplit (url scheme : string) : option SplitResult :=
  let url := lstrip is_c0_or_space url in
  let scheme := strip is_c0_or_space scheme in
  let url := remove is_unsafe_byte url in
  let scheme := remove is_unsafe_byte scheme in
  let '(scheme, url) := split_scheme url scheme in
  '(netloc, url) ← split_authority url;
  let '(url, fragment) :=
    if contains "#" url then split_once "#" url else (url, "") in
  let '(url, query) :=
    if contains "?" url then split_once "?" url else (url, "") in
  if _checknetloc netloc
  then Some (mkSplit scheme netloc url query fragment)
  else None.

Definition urlparse (url scheme : string) : option ParseResult :=
  r ← urlsplit url scheme;
  let '(url, params) :=
    if mem (s_scheme r) uses_params && contains ";" (s_url r)
    then _splitparams (s_url r) else (s_url r, "") in
  Some (mkParse (s_scheme r) (s_netloc r) url params (s_query r) (s_fragment r)).

(** What [urlsplit] guarantees about the netloc it returns: none of the
    delimiters, none of the removed bytes, and the checks passed. *)
Definition split_netloc_ok (n : string) : Prop :=
  contains "/" n = false /\ contains "?" n = false /\ contains "#" n = false
  /\ forallb (fun c => negb (is_unsafe_byte c)) n = true
  /\ (contains "[" n && negb (contains "]" n)
      || contains "]" n && negb (contains "[" n)) = false
  /\ (contains "[" n && contains "]" n && negb (check_bracketed_netloc n)) = false
  /\ _checknetloc n = true.
End WithChecks.

Definition urlunsplit (scheme netloc url query fragment : string) : string :=
  let url :=
    if negb (is_empty netloc)
       || (negb (is_empty scheme) && mem scheme uses_netloc
           && negb (String.eqb (take 2 url) "//"))
    then
      let url :=
        if negb (is_empty url) && negb (String.eqb (take 1 url) "/")
        then "/" +:+ url else url in
      "//" +:+ netloc +:+ url
    else url in
  let url := if negb (is_empty scheme) then scheme +:+ ":" +:+ url else url in
  let url := if negb (is_empty query) then url +:+ "?" +:+ query else url in
  let url := if negb (is_empty fragment) then url +:+ "#" +:+ fragment else url in
  url.

Definition urlunparse (p : ParseResult) : string :=
  let url :=
    if negb (is_empty (params p)) then path p +:+ ";" +:+ params p else path p in
  urlunsplit (scheme p) (netloc p) url (query p) (fragment p).

(** [segments[1:-1] = filter(None, segments[1:-1])] *)
Definition filter_middle (segments : list string) : list string :=
  match segments with
  | [] => []
  | s0 :: rest =>
      match rest with
      | [] => [s0]
      | _ => s0 :: List.filter (fun s => negb (is_empty s)) (removelast rest)
                ++ [List.last rest ""]
      end
  end.

(** The loop of [urljoin] that resolves the dot segments. *)
Definition resolve_segments (segments : list string) : list string :=
  foldl (fun resolved seg =>
           if String.eqb seg ".." then removelast resolved
           else if String.eqb seg "." then resolved
           else resolved ++ [seg])
        [] segments.

Section WithChecks.
Context `{!UrlChecks}.

Definition urljoin (base url : string) : option string :=
  if is_empty base then Some url
  else if is_empty url then Some base
  else
    b ← urlparse base "";
    u ← urlparse url (scheme b);
    if negb (String.eqb (scheme u) (scheme b)) || negb (mem (scheme u) uses_relative)
    then Some url
    else if mem (scheme u) uses_netloc && negb (is_empty (netloc u))
    then Some (urlunparse u)
    else
      let netloc' := if mem (scheme u) uses_netloc then netloc b else netloc u in
      if is_empty (path u) && is_empty (params u) then
        let query' := if is_empty (query u) then query b else query u in
        Some (urlunparse
                (mkParse (scheme u) netloc' (path b) (params b) query' (fragment u)))
      else
        let base_parts := split "/" (path b) in
        let base_parts :=
          if negb (String.eqb (List.last base_parts "") "")
          then removelast base_parts else base_parts in
        let segments :=
          if String.eqb (take 1 (path u)) "/" then split "/" (path u)
          else filter_middle (base_parts ++ split "/" (path u)) in
        let resolved_path := resolve_segments segments in
        let resolved_path :=
          if String.eqb (List.last segments "") "."
             || String.eqb (List.last segments "") ".."
          then resolved_path ++ [""] else resolved_path in
        let joined := join "/" resolved_path in
        Some (urlunparse
                (mkParse (scheme u) netloc'
                         (if is_empty joined then "/" else joined)
                         (params u) (query u) (fragment u))).
End WithChecks.

End UrlLib.


(** ** Python runtime behaviour that the source leaves open *)

(** [list(set(links))]: the order in which a set is enumerated is fixed by the
    interpreter, not by the program; only its content is known. *)
Class PySet := {
  set_to_list : gset string -> list string;
  set_to_list_perm : forall s, set_to_list s ≡ₚ elements s
}.

(** A [while cond: body] loop; [None] when the fuel runs out first. *)
Fixpoint while_loop {St : Type} (cond : St -> bool) (body : St -> St)
    (fuel : nat) (st : St) : option St :=
  if cond st then
    match fuel with
    | O => None
    | S fuel' => while_loop cond body fuel' (body st)
    end
  else Some st.

(** ** URL helpers of [web_audit_new.py] *)

Module WebAudit.
Import PyStr UrlLib.

Section WithChecks.
Context `{!UrlChecks}.

(** [url.startswith(('http://', 'https://'))] *)
Definition absolute (url : string) : bool :=
  startswith url "http://" || startswith url "https://".

Definition _normalize_url (url base_url : string) : option string :=
  if is_empty url then Some ""
  else if absolute url then Some url
  else if startswith url "//" then
    parsed_base ← urlparse base_url "";
    Some (scheme parsed_base +:+ ":" +:+ url)
  else urljoin base_url url.

(** The bare [except] turns a [ValueError] of [urlparse] into [False]. *)
Definition _is_valid_url (url : string) : bool :=
  match urlparse url "" with
  | Some parsed =>
      (negb (is_empty (scheme parsed)) && negb (is_empty (netloc parsed)))
      && mem (scheme parsed) ["http"; "https"]
  | None => false
  end.

Definition _should_crawl_url (url base_domain : string) (visited : gset string)
    (max_pages : Z) : bool :=
  if is_empty url || bool_decide (url ∈ visited) then false
  else if (max_pages <=? Z.of_nat (size visited))%Z then false
  else
    match urlparse url "", urlparse base_domain "" with
    | Some parsed_url, Some parsed_base =>
        String.eqb (netloc parsed_url) (netloc parsed_base)
    | _, _ => false
    end.

(** The loop of [_extract_links_playwright] over the [href] attributes that
    the page yields.  A [ValueError] of [_normalize_url] leaves the loop
    through the enclosing [except], keeping the links found so far. *)
Fixpoint collect_links (hrefs : list string) (base_url : string)
    (links : list string) : list string :=
  match hrefs with
  | [] => links
  | href :: rest =>
      if is_empty href then collect_links rest base_url links
      else
        match _normalize_url href base_url with
        | None => links
        | Some normalized =>
            collect_links rest base_url
              (if _is_valid_url normalized then links ++ [normalized] else links)
        end
  end.

Definition _extract_links_playwright `{!PySet} (hrefs : list string)
    (base_url : string) : list string :=
  set_to_list (list_to_set (collect_links hrefs base_url [])).

End WithChecks.

(** ** The crawler *)

Record CrawlResult := mkCrawlResult {
  url : string;
  title : string;
  status_code : Z;
  links : list string;
  resources : list (string * list string);
  meta_data : list (string * option string);
  text_content : string;
  error : option string
}.

Record SiteCrawlSummary := mkSummary {
  total_pages : nat;
  total_links : nat;
  total_resources : nat;
  unique_domains : list string;
  crawl_time : Q;
  errors : list string
}.

(** What the browser delivers for one page when nothing raises. *)
Record PageData := mkPageData {
  pd_title : string;                            (* page.title() *)
  pd_response_status : option Z;                (* response.status, if a response *)
  pd_hrefs : list string;                       (* href of each a[href] read *)
  pd_resources : list (string * list string);   (* _extract_resources_playwright *)
  pd_meta : list (string * option string);      (* the meta_data dict *)
  pd_body_text : option string                  (* inner_text('body'), None if it raised *)
}.

(** The outcome of the navigation and extraction calls of one iteration:
    the data, or the text [str(e)] of the exception that interrupted them. *)
Inductive Rendered :=
| RenderOk (d : PageData)
| RenderError (msg : string).

(** The world outside the crawler.  [browser n u] is the outcome of loading
    [u] when [n] results have been recorded so far. *)
Record Env := mkEnv {
  PLAYWRIGHT_AVAILABLE : bool;
  launch_error : option string;    (* async_playwright, launch or new_page raised *)
  close_error : option string;     (* browser.close or leaving the context raised *)
  browser : nat -> string -> Rendered;
  value_error_text : string -> string;  (* str(e) of urlparse's ValueError *)
  elapsed : Q                      (* round(time.time() - start_time, 2) *)
}.

Record CrawlState := mkState {
  visited : gset string;
  to_visit : list string;
  crawled_pages : list CrawlResult;
  crawl_errors : list string;
  all_domains : gset string
}.

Definition initial_state (start_url : string) : CrawlState :=
  mkState ∅ [start_url] [] [] ∅.

Definition error_result (current_url msg : string) : CrawlResult :=
  mkCrawlResult current_url "Error" 0 [] [] [] "" (Some msg).

(** The shape of a result recorded for a page that failed. *)
Definition is_error_result (r : CrawlResult) : Prop :=
  is_Some (error r) /\ links r = [] /\ resources r = [] /\ meta_data r = []
  /\ text_content r = "".

(** The [except Exception as e] branch of one iteration. *)
Definition record_failure (st : CrawlState) (current_url msg : string) : CrawlState :=
  mkState (visited st) (to_visit st)
    (crawled_pages st ++ [error_result current_url msg])
    (crawl_errors st ++ ["Error crawling " +:+ current_url +:+ ": " +:+ msg])
    (all_domains st).

Section Crawl.
Context `{!UrlChecks} `{!PySet}.
Variable env : Env.
Variable start_url : string.
Variable max_pages : Z.

(** [while to_visit and len(visited) < max_pages] *)
Definition loop_cond (st : CrawlState) : bool :=
  negb (bool_decide (to_visit st = []))
  && (Z.of_nat (size (visited st)) <? max_pages)%Z.

(** The [for link in page_links] loop that extends the queue. *)
Definition enqueue_links (page_links : list string) (base_domain : string)
    (visited : gset string) (to_visit : list string) : list string :=
  foldl (fun to_visit link =>
           if _should_crawl_url link base_domain visited max_pages then
             if bool_decide (link ∈ to_visit) then to_visit
             else to_visit ++ [link]
           else to_visit)
        to_visit page_links.

(** The body of the [try] for [current_url], already popped and marked. *)
Definition visit_page (st : CrawlState) (current_url : string) : CrawlState :=
  match browser env (length (crawled_pages st)) current_url with
  | RenderError msg => record_failure st current_url msg
  | RenderOk d =>
      let title := if is_empty (pd_title d) then "No Title" else pd_title d in
      let status_code := default 0%Z (pd_response_status d) in
      let page_links := _extract_links_playwright (pd_hrefs d) current_url in
      let text_content := take 1000 (default "" (pd_body_text d)) in
      match urlparse current_url "" with
      | None => record_failure st current_url (value_error_text env current_url)
      | Some parsed =>
          let crawl_result :=
            mkCrawlResult current_url title status_code page_links
              (pd_resources d) (pd_meta d) text_content None in
          let st1 :=
            mkState (visited st) (to_visit st)
              (crawled_pages st ++ [crawl_result]) (crawl_errors st)
              (all_domains st ∪ {[netloc parsed]}) in
          match urlparse start_url "" with
          | None => record_failure st1 current_url (value_error_text env start_url)
          | Some parsed_start =>
              let base_domain :=
                scheme parsed_start +:+ "://" +:+ netloc parsed_start in  (* f-string *)
              mkState (visited st1)
                (enqueue_links page_links base_domain (visited st1) (to_visit st1))
                (crawled_pages st1) (crawl_errors st1) (all_domains st1)
          end
      end
  end.

Definition loop_body (st : CrawlState) : CrawlState :=
  match to_visit st with
  | [] => st
  | current_url :: rest =>
      let st' :=
        mkState (visited st) rest (crawled_pages st) (crawl_errors st)
          (all_domains st) in
      if bool_decide (current_url ∈ visited st) then st'
      else
        visit_page
          (mkState (visited st ∪ {[current_url]}) rest (crawled_pages st)
             (crawl_errors st) (all_domains st))
          current_url
  end.

Definition crawl_loop (fuel : nat) : CrawlState -> option CrawlState :=
  while_loop loop_cond loop_body fuel.

(** The states in which the loop condition is evaluated during a crawl. *)
Inductive reachable : CrawlState -> Prop :=
| reach_start : reachable (initial_state start_url)
| reach_iter (st : CrawlState) :
    reachable st -> loop_cond st = true -> reachable (loop_body st).

(** [base_domain], the f-string built from the start URL. *)
Definition base_domain_of (parsed_start : ParseResult) : string :=
  scheme parsed_start +:+ "://" +:+ netloc parsed_start.

(** Two URLs with the same [netloc] component. *)
Definition same_netloc (u v : string) : Prop :=
  exists pu pv,
    urlparse u "" = Some pu /\ urlparse v "" = Some pv /\ netloc pu = netloc pv.

(** What holds each time the loop condition is evaluated. *)
Record crawl_inv (st : CrawlState) : Prop := mkInv {
  inv_nodup : NoDup (to_visit st);
  inv_fresh : forall u, u ∈ to_visit st -> u ∉ visited st;
  inv_pages : forall u, u ∈ visited st <-> u ∈ url <$> crawled_pages st;
  inv_pages_nodup : NoDup (url <$> crawled_pages st);
  inv_count : length (crawled_pages st) = size (visited st);
  inv_budget : (Z.of_nat (size (visited st)) <= Z.max 0 max_pages)%Z;
  inv_origin_queue : forall u, u ∈ to_visit st ->
    u = start_url
    \/ exists k c, crawled_pages st !! k = Some c /\ u ∈ links c;
  inv_origin_pages : forall j b, crawled_pages st !! j = Some b ->
    url b = start_url
    \/ exists k c, k < j /\ crawled_pages st !! k = Some c /\ url b ∈ links c;
  inv_domain : forall u, u ∈ to_visit st \/ u ∈ visited st ->
    u = start_url \/ same_netloc u start_url;
  inv_results : forall c, c ∈ crawled_pages st ->
    error c = None \/ is_error_result c
}.

Definition sum_list (l : list nat) : nat := foldr Nat.add 0 l.

Definition summarise (st : CrawlState) : SiteCrawlSummary :=
  mkSummary
    (length (crawled_pages st))
    (sum_list ((fun page => length (links page)) <$> crawled_pages st))
    (sum_list ((fun page =>
                  sum_list ((fun kv => length (snd kv)) <$> resources page))
               <$> crawled_pages st))
    (set_to_list (all_domains st))
    (elapsed env)
    (crawl_errors st).

End Crawl.

(** [if max_pages > 100: max_pages = 100] *)
Definition clamp_max_pages (max_pages : Z) : Z :=
  if (100 <? max_pages)%Z then 100%Z else max_pages.

(** The three shapes of the dictionary that [crawl_site] returns. *)
Inductive CrawlOutput :=
| ErrorOnly (msg : string)
| CrawlFailed (msg : string) (summary : SiteCrawlSummary)
| CrawlDone (summary : SiteCrawlSummary) (pages : list CrawlResult).

Definition top_error (out : CrawlOutput) : option string :=
  match out with
  | ErrorOnly msg | CrawlFailed msg _ => Some msg
  | CrawlDone _ _ => None
  end.

Definition output_pages (out : CrawlOutput) : list CrawlResult :=
  match out with
  | CrawlDone _ pages => pages
  | _ => []
  end.

Section CrawlSite.
Context `{!UrlChecks} `{!PySet}.
Variable env : Env.

(** [None] only when [fuel] iterations do not finish the loop. *)
Definition _crawl_with_playwright (fuel : nat) (start_url : string)
    (max_pages : Z) : option CrawlOutput :=
  let failed msg :=
    CrawlFailed ("Crawl failed: " +:+ msg) (mkSummary 0 0 0 [] (elapsed env) [msg]) in
  match launch_error env with
  | Some msg => Some (failed msg)
  | None =>
      st ← crawl_loop env start_url max_pages fuel (initial_state start_url);
      Some (match close_error env with
            | Some msg => failed msg
            | None => CrawlDone (summarise env st) (crawled_pages st)
            end)
  end.

Definition crawl_site (fuel : nat) (start_url : string) (max_pages : Z)
    : option CrawlOutput :=
  if negb (_is_valid_url start_url) then
    Some (ErrorOnly "Invalid URL provided. URL must include http:// or https://")
  else
    let max_pages := clamp_max_pages max_pages in
    if negb (PLAYWRIGHT_AVAILABLE env) then
      Some (ErrorOnly
              "Playwright is not installed. Install with: pip install playwright && playwright install")
    else _crawl_with_playwright fuel start_url max_pages.

End CrawlSite.

End WebAudit.


(** ** Floating-point arithmetic *)

(** [fl x] is the binary64 number that a correctly rounded operation returns
    when its exact result is [x].  Only what every IEEE-754 rounding mode
    guarantees is assumed: rounding is monotone and leaves the small integers
    used below unchanged. *)
Class Float64 := {
  fl : Q -> Q;
  fl_mono : forall x y : Q, (x <= y)%Q -> (fl x <= fl y)%Q;
  fl_0 : (fl 0 == 0)%Q;
  fl_1 : (fl 1 == 1)%Q;
  fl_100 : (fl 100 == 100)%Q
}.

(** Rounding to binary64, to nearest with ties to even, on the rationals.
    Overflow to infinity is not modelled: above 2^1024 the grid of the
    largest exponent is kept. *)
Module Binary64.

(** The nearest integer, ties to even. *)
Definition rne (x : Q) : Z :=
  let f := Qfloor x in
  match (x - inject_Z f ?= 1 # 2)%Q with
  | Lt => f
  | Eq => if Z.even f then f else (f + 1)%Z
  | Gt => (f + 1)%Z
  end.

(** The exponent is searched upwards: [e] grows while 2^(e+1) <= x. *)
Fixpoint exponent_from (fuel : nat) (e : Z) (x : Q) : Z :=
  match fuel with
  | O => e
  | S fuel' =>
      if Qle_bool (2 ^ (e + 1))%Q x then exponent_from fuel' (e + 1)%Z x else e
  end.

(** The exponent of [x > 0], between -1022 (shared by the subnormal
    numbers) and 1023. *)
Definition exponent (x : Q) : Z := exponent_from 2045 (-1022) x.

(** [x > 0] rounded to a multiple of the unit in the last place. *)
Definition round_pos (x : Q) : Q :=
  let ulp := (2 ^ (exponent x - 52))%Q in
  (inject_Z (rne (x / ulp)) * ulp)%Q.

Definition round (x : Q) : Q :=
  match (x ?= 0)%Q with
  | Eq => 0%Q
  | Gt => round_pos x
  | Lt => (- round_pos (- x))%Q
  end.

End Binary64.

(** [int(x)] on a float: truncation toward zero. *)
Definition py_int (x : Q) : Z :=
  if Qle_bool 0 x then Qfloor x else Qceiling x.

(** Truth value of an optional string ([None] and [""] are false). *)
Definition truthy (s : option string) : bool :=
  match s with
  | Some s => negb (PyStr.is_empty s)
  | None => false
  end.

(** ** Score functions *)

Module Scores.

(** *** [_analyze_https_security] *)

Record HttpsStatus := mkHttpsStatus {
  https_available : bool;
  http_redirects_to_https : bool
}.

Record SslInfo := mkSslInfo {
  ssl_valid : bool;
  days_until_expiry : Z;             (* certificate_info.days_until_expiry, 0 if absent *)
  validation_errors : list string;
  tls_protocol : string;             (* security_details.protocol, "" if absent *)
  ssl_warnings : list string
}.

Record Compliance := mkCompliance {
  has_https : bool;
  forces_https : bool;
  valid_certificate : bool;
  modern_tls : bool
}.

Record SecurityAnalysis := mkSecurity {
  security_score : Z;
  security_issues : list string;
  security_recommendations : list string;
  compliance : Compliance
}.

Definition _analyze_https_security (https_status : HttpsStatus)
    (ssl_info : SslInfo) : SecurityAnalysis :=
  let score := 0%Z in
  let max_score := 100%Z in
  let issues : list string := [] in
  let recs : list string := [] in
  (* HTTPS availability (25 points) *)
  let '(score, issues, recs) :=
    if https_available https_status
    then ((score + 25)%Z, issues, recs ++ ["Good: HTTPS is available"])
    else (score, issues ++ ["HTTPS is not available"],
          recs ++ ["Critical: Enable HTTPS for secure connections"]) in
  (* HTTP to HTTPS redirect (25 points) *)
  let '(score, issues, recs) :=
    if http_redirects_to_https https_status
    then ((score + 25)%Z, issues, recs ++ ["Good: HTTP traffic is redirected to HTTPS"])
    else (score, issues ++ ["HTTP does not redirect to HTTPS"],
          recs ++ ["Important: Configure HTTP to HTTPS redirect"]) in
  (* certificate validity (30 points) *)
  let '(score, issues, recs) :=
    if ssl_valid ssl_info
    then ((score + 30)%Z,
          (if (days_until_expiry ssl_info <? 30)%Z
           then issues ++ ["SSL certificate expires in "
                           +:+ pretty (days_until_expiry ssl_info) +:+ " days"]
           else issues),
          recs ++ ["Good: SSL certificate is valid"])
    else (score,
          (issues ++ ["SSL certificate is invalid"])
          ++ ((fun e => "Certificate error: " +:+ e) <$> validation_errors ssl_info),
          recs ++ ["Critical: Fix SSL certificate issues"]) in
  (* TLS protocol version (20 points) *)
  let protocol := tls_protocol ssl_info in
  let modern := UrlLib.mem protocol ["TLSv1.2"; "TLSv1.3"] in
  let '(score, issues, recs) :=
    if modern
    then ((score + 20)%Z, issues,
          recs ++ ["Good: Using modern TLS protocol (" +:+ protocol +:+ ")"])
    else if UrlLib.mem protocol ["TLSv1.1"; "TLSv1"]
    then ((score + 10)%Z,
          issues ++ ["Using deprecated TLS protocol: " +:+ protocol],
          recs ++ ["Update to TLS 1.2 or 1.3 for better security"])
    else (score, issues ++ ["Unknown or insecure protocol: " +:+ protocol],
          recs ++ ["Ensure modern TLS protocol is being used"]) in
  let issues := issues ++ ((fun w => "SSL Warning: " +:+ w) <$> ssl_warnings ssl_info) in
  let final := Z.min score max_score in
  let recs :=
    recs ++
    [if (90 <=? final)%Z then "Excellent HTTPS security configuration!"
     else if (75 <=? final)%Z then "Good HTTPS security with minor improvements needed"
     else if (50 <=? final)%Z
     then "HTTPS security needs improvement - address critical issues"
     else "Poor HTTPS security - immediate attention required"] in
  mkSecurity final issues recs
    (mkCompliance (https_available https_status)
       (http_redirects_to_https https_status) (ssl_valid ssl_info) modern).

(** *** [_analyze_accessibility_results] *)

Record Violation := mkViolation {
  impact : option string             (* violation.get('impact'), None if absent *)
}.

(** One of the three result dictionaries ([alt_results], [contrast_results],
    [aria_results]).  [issue_count] is the counter that the recommendation
    reads: [images_without_alt], [contrast_violations] or
    [elements_without_labels], 0 if absent. *)
Record CheckResults := mkCheck {
  violations : list Violation;
  passes : list string;
  issue_count : Z
}.

Record SeverityCount := mkSeverity {
  critical : nat; serious : nat; moderate : nat; minor : nat
}.

Record AccessibilitySummary := mkAccessibility {
  accessibility_score : Z;
  total_violations : nat;
  total_passes : nat;
  violations_by_severity : SeverityCount;
  accessibility_recommendations : list string
}.

Definition count_violation (c : SeverityCount) (v : Violation) : SeverityCount :=
  let i := default "minor" (impact v) in
  if String.eqb i "critical"
  then mkSeverity (S (critical c)) (serious c) (moderate c) (minor c)
  else if String.eqb i "serious"
  then mkSeverity (critical c) (S (serious c)) (moderate c) (minor c)
  else if String.eqb i "moderate"
  then mkSeverity (critical c) (serious c) (S (moderate c)) (minor c)
  else mkSeverity (critical c) (serious c) (moderate c) (S (minor c)).

Definition _analyze_accessibility_results `{!Float64}
    (alt_results contrast_results aria_results : CheckResults)
    : AccessibilitySummary :=
  let total_violations :=
    length (violations alt_results) + length (violations contrast_results)
    + length (violations aria_results) in
  let total_passes :=
    length (passes alt_results) + length (passes contrast_results)
    + length (passes aria_results) in
  let score :=
    if (total_violations + total_passes =? 0)%nat then 0%Z
    else py_int (fl (fl (inject_Z (Z.of_nat total_passes)
                         / inject_Z (Z.of_nat (total_violations + total_passes)))
                     * 100)) in
  let all_violations :=
    violations alt_results ++ violations contrast_results
    ++ violations aria_results in
  let sev := foldl count_violation (mkSeverity 0 0 0 0) all_violations in
  let recs : list string := [] in
  let recs :=
    if (0 <? issue_count alt_results)%Z
    then recs ++ ["Add alt attributes to " +:+ pretty (issue_count alt_results)
                  +:+ " images without alt text"]
    else recs in
  let recs :=
    if (0 <? issue_count contrast_results)%Z
    then recs ++ ["Fix " +:+ pretty (issue_count contrast_results)
                  +:+ " color contrast issues"]
    else recs in
  let recs :=
    if (0 <? issue_count aria_results)%Z
    then recs ++ ["Add accessible labels to " +:+ pretty (issue_count aria_results)
                  +:+ " interactive elements"]
    else recs in
  let recs :=
    if (0 <? critical sev)%nat
    then recs ++ ["Address critical accessibility violations first - they prevent users from accessing content"]
    else recs in
  let recs :=
    recs ++
    [if (90 <=? score)%Z
     then "Excellent accessibility! Consider manual testing with screen readers for final validation"
     else if (70 <=? score)%Z
     then "Good accessibility foundation. Focus on fixing remaining violations"
     else if (50 <=? score)%Z
     then "Accessibility needs improvement. Prioritize critical and serious violations"
     else "Significant accessibility barriers present. Comprehensive remediation needed"] in
  mkAccessibility score total_violations total_passes sev recs.

(** *** [_calculate_profile_score] of [socials_audit.py] *)

Record ProfileInfo := mkProfile {
  profile_picture_url : option string;
  bio : option string;                (* profile_info.get('bio', '') *)
  is_verified : bool;
  posts_count : Z;                    (* 0 if absent *)
  follower_following_ratio : Q;       (* 0 if absent *)
  profile_name : option string
}.

Definition _calculate_profile_score (profile_info : ProfileInfo) : Z :=
  let score := 0%Z in
  let max_score := 100%Z in
  let score :=
    if truthy (profile_picture_url profile_info) then (score + 10)%Z else score in
  let score :=
    if truthy (bio profile_info) then
      let score := (score + 10)%Z in
      if (50 <? String.length (default "" (bio profile_info)))%nat
      then (score + 10)%Z else score
    else score in
  let score := if is_verified profile_info then (score + 15)%Z else score in
  let posts := posts_count profile_info in
  let score :=
    if (100 <=? posts)%Z then (score + 20)%Z
    else if (50 <=? posts)%Z then (score + 15)%Z
    else if (20 <=? posts)%Z then (score + 10)%Z
    else if (5 <=? posts)%Z then (score + 5)%Z
    else score in
  let ratio := follower_following_ratio profile_info in
  let score :=
    if Qle_bool 10 ratio then (score + 20)%Z
    else if Qle_bool 5 ratio then (score + 15)%Z
    else if Qle_bool 2 ratio then (score + 10)%Z
    else if Qle_bool 1 ratio then (score + 5)%Z
    else score in
  let score :=
    if truthy (profile_name profile_info) then (score + 15)%Z else score in
  Z.min score max_score.

End Scores.


(** ** robots.txt audit *)

(** [float(value)] and the text of a dictionary of floats are left to the
    interpreter: a type of float values with the three operations used. *)
Class PyFloat := {
  float : Type;
  float_of_string : string -> option float;   (* None: ValueError *)
  float_gt_10 : float -> bool;                (* delay > 10 *)
  repr_delays : list (string * float) -> string
}.

Module Robots.
Import PyStr UrlLib WebAudit.

(** The outcome of [session.get(robots_url, ...)], session setup included. *)
Inductive HttpOutcome :=
| HttpResponse (status : Z) (text : string) (seconds : Q) (content_type : option string)
| HttpTimeout
| HttpConnectionError
| HttpRequestException (msg : string)
| HttpOtherException (msg : string).

Record HttpEnv := mkHttpEnv {
  REQUESTS_AVAILABLE : bool;
  http_get : string -> HttpOutcome;
  http_value_error_text : string -> string;   (* str(e) of urlparse's ValueError *)
  audit_seconds : Q;                          (* round(time.time() - start_time, 2) *)
  timestamp : Q                               (* time.time() *)
}.

(** The dictionary returned by [_fetch_robots_txt]; [None] is an absent key,
    except for [content] and [fetch_url] where it is the value [None]. *)
Record FetchResult := mkFetch {
  success : bool;
  fetch_error : option string;
  content : option string;
  fetch_url : option string;
  fetch_status_code : option Z;
  response_time : option Q;
  fetch_content_type : option string;
  fetch_content_length : option nat
}.

Definition fetch_failure (msg : string) (robots_url : option string) : FetchResult :=
  mkFetch false (Some msg) None robots_url (Some 0%Z) None None None.

Definition _fetch_robots_txt `{!UrlChecks} (env : HttpEnv) (base_url : string)
    : FetchResult :=
  if negb (REQUESTS_AVAILABLE env) then
    mkFetch false (Some "requests library not available") None None None None None None
  else
    match urlparse base_url "" with
    | None =>
        fetch_failure ("Unexpected error: " +:+ http_value_error_text env base_url) None
    | Some parsed_url =>
        let robots_url :=
          scheme parsed_url +:+ "://" +:+ netloc parsed_url +:+ "/robots.txt" in
        match http_get env robots_url with
        | HttpResponse status text seconds ctype =>
            let ok := (status =? 200)%Z in
            mkFetch true None (if ok then Some text else None) (Some robots_url)
              (Some status) (Some seconds) (Some (default "" ctype))
              (Some (if ok then String.length text else 0))
        | HttpTimeout => fetch_failure "Request timed out" (Some robots_url)
        | HttpConnectionError =>
            fetch_failure "Could not connect to the server" (Some robots_url)
        | HttpRequestException msg =>
            fetch_failure ("Request failed: " +:+ msg) (Some robots_url)
        | HttpOtherException msg =>
            fetch_failure ("Unexpected error: " +:+ msg) (Some robots_url)
        end
    end.

Section Parsing.
Context `{!PyFloat}.

Record AgentRules := mkRules {
  allow : list string;
  disallow : list string;
  agent_crawl_delay : option float
}.

(** An entry of the [warnings] or [errors] list. *)
Record Note := mkNote {
  note_line : nat;
  note_content : string;
  note_text : string
}.

(** Dictionaries keep insertion order: association lists with unique keys. *)
Record ParsedRobots := mkParsed {
  user_agents : list (string * AgentRules);
  sitemaps : list string;
  crawl_delay : list (string * float);
  host : option string;
  total_rules : nat;
  warnings : list Note;
  errors : list Note
}.

Definition empty_parsed : ParsedRobots := mkParsed [] [] [] None 0 [] [].

Fixpoint assoc {A : Type} (k : string) (d : list (string * A)) : option A :=
  match d with
  | [] => None
  | (k', v) :: d' => if String.eqb k' k then Some v else assoc k d'
  end.

(** [d[k] = v] *)
Fixpoint assoc_set {A : Type} (k : string) (v : A) (d : list (string * A))
    : list (string * A) :=
  match d with
  | [] => [(k, v)]
  | (k', v') :: d' =>
      if String.eqb k' k then (k, v) :: d' else (k', v') :: assoc_set k v d'
  end.

(** [d[k] = f(d[k])] for a key that is present. *)
Definition assoc_update {A : Type} (k : string) (f : A -> A)
    (d : list (string * A)) : list (string * A) :=
  (fun kv => if String.eqb (fst kv) k then (fst kv, f (snd kv)) else kv) <$> d.

Definition add_error (p : ParsedRobots) (n : Note) : ParsedRobots :=
  mkParsed (user_agents p) (sitemaps p) (crawl_delay p) (host p) (total_rules p)
    (warnings p) (errors p ++ [n]).

Definition add_warning (p : ParsedRobots) (n : Note) : ParsedRobots :=
  mkParsed (user_agents p) (sitemaps p) (crawl_delay p) (host p) (total_rules p)
    (warnings p ++ [n]) (errors p).

Definition with_agents (p : ParsedRobots) (ua : list (string * AgentRules))
    : ParsedRobots :=
  mkParsed ua (sitemaps p) (crawl_delay p) (host p) (S (total_rules p))
    (warnings p) (errors p).

(** One iteration of the loop of [_parse_robots_txt]; the state is the
    dictionary under construction and [current_user_agent]. *)
Definition parse_line (st : ParsedRobots * option string)
    (numbered : nat * string) : ParsedRobots * option string :=
  let '(p, current) := st in
  let '(line_num, raw) := numbered in
  let line := strip is_space (hd "" (split "#" raw)) in
  if is_empty line then st
  else if negb (contains ":" line) then
    (add_error p (mkNote line_num line "Invalid syntax: missing colon"), current)
  else
    let '(directive, value) := split_once ":" line in
    let directive := lower (strip is_space directive) in
    let value := strip is_space value in
    if is_empty value && negb (String.eqb directive "user-agent") then
      (add_warning p (mkNote line_num line "Empty value for directive"), current)
    else if String.eqb directive "user-agent" then
      let ua := if is_empty value then "*" else value in
      let agents :=
        match assoc ua (user_agents p) with
        | Some _ => user_agents p
        | None => user_agents p ++ [(ua, mkRules [] [] None)]
        end in
      (with_agents p agents, Some ua)
    else if String.eqb directive "allow" || String.eqb directive "disallow" then
      match current with
      | None =>
          (add_error p (mkNote line_num line
                          (capitalize directive +:+ " directive without User-agent")),
           current)
      | Some ua =>
          let extend r :=
            if String.eqb directive "allow"
            then mkRules (allow r ++ [value]) (disallow r) (agent_crawl_delay r)
            else mkRules (allow r) (disallow r ++ [value]) (agent_crawl_delay r) in
          (with_agents p (assoc_update ua extend (user_agents p)), current)
      end
    else if String.eqb directive "crawl-delay" then
      match current with
      | None =>
          (add_error p (mkNote line_num line
                          "Crawl-delay directive without User-agent"), current)
      | Some ua =>
          match float_of_string value with
          | Some delay =>
              let agents :=
                assoc_update ua
                  (fun r => mkRules (allow r) (disallow r) (Some delay))
                  (user_agents p) in
              (mkParsed agents (sitemaps p) (assoc_set ua delay (crawl_delay p))
                 (host p) (S (total_rules p)) (warnings p) (errors p), current)
          | None =>
              (add_error p (mkNote line_num line
                              "Invalid crawl-delay value: must be a number"),
               current)
          end
      end
    else if String.eqb directive "sitemap" then
      let p :=
        if negb (startswith value "http://" || startswith value "https://")
        then add_warning p (mkNote line_num line
                              "Sitemap URL should be absolute (include http/https)")
        else p in
      (mkParsed (user_agents p) (sitemaps p ++ [value]) (crawl_delay p) (host p)
         (S (total_rules p)) (warnings p) (errors p), current)
    else if String.eqb directive "host" then
      (mkParsed (user_agents p) (sitemaps p) (crawl_delay p) (Some value)
         (S (total_rules p)) (warnings p) (errors p), current)
    else
      (add_warning p (mkNote line_num line ("Unknown directive: " +:+ directive)),
       current).

(** [enumerate(lines, 1)] *)
Definition enumerate1 (lines : list string) : list (nat * string) :=
  zip (seq 1 (length lines)) lines.

Definition _parse_robots_txt (content : string) : ParsedRobots :=
  if is_empty content then empty_parsed
  else
    let lines := split "010" (strip is_space content) in
    fst (foldl parse_line (empty_parsed, None) (enumerate1 lines)).

Record RobotsSummary := mkRobotsSummary {
  total_user_agents : nat;
  total_sitemaps : nat;
  has_crawl_delays : bool;
  has_errors : bool;
  has_warnings : bool;
  summary_total_rules : nat
}.

Record Crawlability := mkCrawlability {
  completely_blocked : bool;
  partially_blocked : bool;
  major_sections_blocked : list string;
  allows_crawling : bool
}.

Record RobotsAnalysis := mkAnalysis {
  summary : RobotsSummary;
  recommendations : list string;
  seo_impact : list string;
  crawlability : Crawlability
}.

Definition search_engines : list string :=
  ["googlebot"; "bingbot"; "slurp"; "duckduckbot"; "facebookexternalhit"].

Definition _analyze_robots_txt (parsed_data : ParsedRobots) (base_url : string)
    : RobotsAnalysis :=
  let agents := user_agents parsed_data in
  let recs : list string := [] in
  let seo : list string := [] in
  (* site completely blocked? *)
  let blocked :=
    match assoc "*" agents with
    | Some wildcard_rules =>
        mem "/" (disallow wildcard_rules)
        && bool_decide (allow wildcard_rules = [])
    | None => false
    end in
  let '(recs, seo) :=
    if blocked
    then (recs ++ ["Consider allowing at least major search engines to crawl your site"],
          seo ++ ["Site completely blocks all crawlers - will hurt SEO"])
    else (recs, seo) in
  (* important sections blocked *)
  let blocked_important :=
    mjoin ((fun kv =>
              List.filter
                (fun d => List.existsb (fun path => substr_in path (lower d))
                            ["/admin"; "/wp-admin"; "/private"])
                (disallow (snd kv))) <$> agents) in
  let recs :=
    if negb (bool_decide (blocked_important = []))
    then recs ++ ["Good: Important admin/private sections are blocked from crawlers"]
    else recs in
  (* sitemap *)
  let '(recs, seo) :=
    if bool_decide (sitemaps parsed_data = []) then
      (recs ++ ["Consider adding sitemap URL(s) to help search engines discover content"],
       seo ++ ["No sitemap specified - may slow content discovery"])
    else
      let valid_sitemaps :=
        length (List.filter
                  (fun s => startswith s "http://" || startswith s "https://")
                  (sitemaps parsed_data)) in
      (recs ++ [if (valid_sitemaps =? length (sitemaps parsed_data))%nat
                then "Good: All sitemap URLs are properly formatted"
                else "Some sitemap URLs may be invalid - ensure they are absolute URLs"],
       seo) in
  (* crawl delays *)
  let high_delays :=
    List.filter (fun kv => float_gt_10 (snd kv)) (crawl_delay parsed_data) in
  let '(recs, seo) :=
    if negb (bool_decide (crawl_delay parsed_data = []))
       && negb (bool_decide (high_delays = []))
    then (recs ++ ["Very high crawl delays may significantly slow indexing"],
          seo ++ ["High crawl delays detected: " +:+ repr_delays high_delays])
    else (recs, seo) in
  (* errors and warnings *)
  let '(recs, seo) :=
    if negb (bool_decide (errors parsed_data = []))
    then (recs ++ ["Fix " +:+ pretty (length (errors parsed_data))
                   +:+ " syntax errors in robots.txt"],
          seo ++ ["Syntax errors may cause rules to be ignored"])
    else (recs, seo) in
  let recs :=
    if negb (bool_decide (warnings parsed_data = []))
    then recs ++ ["Review " +:+ pretty (length (warnings parsed_data))
                  +:+ " warnings in robots.txt"]
    else recs in
  (* rules for specific search engines *)
  let has_specific_rules :=
    List.existsb (fun kv => mem (lower (fst kv)) (lower <$> search_engines)) agents in
  let recs :=
    if has_specific_rules
    then recs ++ ["Good: Specific rules for major search engines detected"]
    else recs in
  mkAnalysis
    (mkRobotsSummary (length agents) (length (sitemaps parsed_data))
       (negb (bool_decide (crawl_delay parsed_data = [])))
       (negb (bool_decide (errors parsed_data = [])))
       (negb (bool_decide (warnings parsed_data = [])))
       (total_rules parsed_data))
    recs seo
    (mkCrawlability blocked
       (negb blocked && negb (bool_decide (blocked_important = [])))
       []
       (negb blocked)).

Record RobotsStatus := mkRobotsStatus {
  found : bool;
  accessible : bool;
  rs_status_code : Z;
  rs_response_time : Q;
  rs_content_length : nat;
  rs_content_type : string;
  rs_url : option string;
  rs_error : option string
}.

Record RobotsReport := mkReport {
  robots_txt_status : RobotsStatus;
  parsed_content : ParsedRobots;
  analysis : RobotsAnalysis;
  raw_content : option string;
  audit_url : string;
  audit_time : Q;
  audit_timestamp : Q
}.

(** [{"error": ...}] or the full report. *)
Inductive RobotsOutput :=
| RobotsError (msg : string)
| RobotsChecked (report : RobotsReport).

Definition add_finding (a : RobotsAnalysis) (impact recommendation : string)
    : RobotsAnalysis :=
  mkAnalysis (summary a) (recommendations a ++ [recommendation])
    (seo_impact a ++ [impact]) (crawlability a).

Definition check_robots_txt `{!UrlChecks} (env : HttpEnv) (url : string)
    : RobotsOutput :=
  if negb (_is_valid_url url) then
    RobotsError "Invalid URL provided. URL must include http:// or https://"
  else if negb (REQUESTS_AVAILABLE env) then
    RobotsError "requests library is not installed. Install with: pip install requests"
  else
    let fetch_result := _fetch_robots_txt env url in
    let status :=
      mkRobotsStatus
        (success fetch_result
         && bool_decide (fetch_status_code fetch_result = Some 200%Z))
        (success fetch_result)
        (default 0%Z (fetch_status_code fetch_result))
        (default 0%Q (response_time fetch_result))
        (default 0 (fetch_content_length fetch_result))
        (default "" (fetch_content_type fetch_result))
        (fetch_url fetch_result)
        (if negb (success fetch_result) then fetch_error fetch_result else None) in
    let '(parsed, analysed, raw) :=
      if found status && truthy (content fetch_result) then
        let raw_content := default "" (content fetch_result) in
        let parsed := _parse_robots_txt raw_content in
        (parsed, _analyze_robots_txt parsed url, Some raw_content)
      else if accessible status then
        let parsed := _parse_robots_txt "" in
        let analysed := _analyze_robots_txt parsed url in
        (parsed,
         (if bool_decide (fetch_status_code fetch_result = Some 404%Z)
          then add_finding analysed
                 "No robots.txt found - search engines will crawl all accessible content"
                 "Consider creating a robots.txt file to control crawler behavior"
          else analysed),
         None)
      else
        let parsed := _parse_robots_txt "" in
        (parsed,
         add_finding (_analyze_robots_txt parsed url)
           ("robots.txt inaccessible: "
            +:+ default "Unknown error" (fetch_error fetch_result))
           "Ensure robots.txt is accessible at the domain root",
         None) in
    RobotsChecked
      (mkReport status parsed analysed raw url (audit_seconds env) (timestamp env)).

End Parsing.

End Robots.


(** ** The same-domain test of [_get_internal_links] *)

Module InternalLinks.
Import PyStr UrlLib.

(** The condition under which a link is counted as internal. *)
Definition same_site (link_domain base_domain : string) : bool :=
  String.eqb link_domain base_domain
  || endswith link_domain ("." +:+ base_domain)
  || (startswith link_domain "www." && String.eqb (drop 4 link_domain) base_domain).

Section WithChecks.
Context `{!UrlChecks}.

(** The path of one [href] through the loop body: [Some full_url] when the
    link reaches [total_internal_links += 1], [None] when the iteration ends
    before (skipped kind of link, exception, no netloc, other domain). *)
Definition internal_link (href base_url : string) : option string :=
  base_parsed ← urlparse base_url "";
  let base_domain := lower (netloc base_parsed) in
  let base_scheme := scheme base_parsed in
  if is_empty href then None
  else
    let href := strip is_space href in
    if startswith href "javascript:" || startswith href "data:" then None
    else if startswith href "mailto:" then None
    else if startswith href "tel:" then None
    else if startswith href "#" then None
    else
      full_url ←
        (if startswith href "http://" || startswith href "https://" then Some href
         else if startswith href "//" then Some (base_scheme +:+ ":" +:+ href)
         else urljoin base_url href);
      parsed_url ← urlparse full_url "";
      if is_empty (netloc parsed_url) then None
      else if same_site (lower (netloc parsed_url)) base_domain then Some full_url
      else None.


End WithChecks.

End InternalLinks.


(** ** A three-page site *)

(** Page A links to B and C; B links back to A and to another host D; C
    fails to load.  The URL checks accept every netloc and sets are
    enumerated in the order of [elements]. *)
Module Fixture.
Import WebAudit.

Definition permissive_checks : UrlChecks :=
  {| check_bracketed_netloc := fun _ => true; nfkc_netloc_ok := fun _ => true |}.

Definition elements_order : PySet :=
  {| set_to_list := elements;
     set_to_list_perm := fun s => reflexivity (elements s) |}.

Definition page_a : string := "http://a.test/".
Definition page_b : string := "http://a.test/b".
Definition page_c : string := "http://a.test/c".
Definition page_d : string := "http://d.test/".

Definition site (n : nat) (u : string) : Rendered :=
  if String.eqb u page_a then
    RenderOk (mkPageData "A" (Some 200%Z) ["/b"; "/c"] [] [] (Some "page a"))
  else if String.eqb u page_b then
    RenderOk (mkPageData "B" (Some 200%Z) ["/"; page_d] [] [] (Some "page b"))
  else RenderError "net::ERR_CONNECTION_REFUSED".

Definition env : Env :=
  mkEnv true None None site (fun _ => "Invalid IPv6 URL") 0.

End Fixture.


(** ** Instances used to run the functions on examples *)

Module Examples.

(** Floats restricted to the values written as decimal integers; enough
    for a robots.txt without fractional crawl delays. *)
Definition integer_delays : PyFloat :=
  {| float := N;
     float_of_string := fun s =>
       if PyStr.forallb PyStr.is_digit s && negb (PyStr.is_empty s)
       then Some (foldl (fun acc c => (10 * acc + (PyStr.code c - 48))%N) 0%N
                    (list_ascii_of_string s))
       else None;
     float_gt_10 := fun d => (10 <? d)%N;
     repr_delays := fun d =>
       "{" +:+ PyStr.join ", "
                 ((fun kv => "'" +:+ fst kv +:+ "': " +:+ pretty (snd kv) +:+ ".0")
                  <$> d) +:+ "}" |}.

(** A server that answers every request with status 404. *)
Definition no_robots : Robots.HttpEnv :=
  Robots.mkHttpEnv true
    (fun _ => Robots.HttpResponse 404 "<h1>Not Found</h1>" (1 # 10) (Some "text/html"))
    (fun _ => "Invalid IPv6 URL") (1 # 5) 1700000000.

End Examples.

(** ** Derived views of a crawl *)

Module CrawlReport.
Import WebAudit.

(** The line that the crawler logs for a page whose result carries an error. *)
Definition error_line (c : CrawlResult) : option string :=
  (fun msg => "Error crawling " +:+ url c +:+ ": " +:+ msg) <$> error c.

(** The URLs of the results, in order. *)
Definition page_urls (pages : list CrawlResult) : list string := url <$> pages.

End CrawlReport.


(** ** The crawl of the three-page site *)

Module FixtureRun.
Import WebAudit Fixture.

Definition crawl_summary : SiteCrawlSummary :=
  mkSummary 3 4 0 ["a.test"] 0
    ["Error crawling http://a.test/c: net::ERR_CONNECTION_REFUSED"].

Definition crawl_pages : list CrawlResult :=
  [mkCrawlResult page_a "A" 200 [page_c; page_b] [] [] "page a" None;
   mkCrawlResult page_c "Error" 0 [] [] [] "" (Some "net::ERR_CONNECTION_REFUSED");
   mkCrawlResult page_b "B" 200 [page_a; page_d] [] [] "page b" None].

End FixtureRun.


(** ** A site that serves a robots.txt file *)

Module RobotsFixture.

Definition newline : string := String "010" EmptyString.

(** Five lines: an agent, a rule with a comment, a delay, a relative
    sitemap and a line without a colon. *)
Definition robots_file : string :=
  "User-agent: *" +:+ newline +:+
  "Disallow: /admin # staff only" +:+ newline +:+
  "Crawl-delay: 12" +:+ newline +:+
  "Sitemap: /sitemap.xml" +:+ newline +:+
  "no colon here".

Definition with_robots : Robots.HttpEnv :=
  Robots.mkHttpEnv true
    (fun _ => Robots.HttpResponse 200 robots_file (1 # 10) (Some "text/plain"))
    (fun _ => "Invalid IPv6 URL") (1 # 5) 1700000000.

Definition missing_colon : Robots.Note :=
  Robots.mkNote 5 "no colon here" "Invalid syntax: missing colon".

End RobotsFixture.


(** ** Lines of a robots.txt file *)

Module RobotsLines.
Import PyStr WebAudit.

(** The lines that [_parse_robots_txt] iterates over. *)
Definition lines_of (content : string) : list string :=
  if is_empty content then [] else split "010" (strip is_space content).

(** A line that is not skipped: text remains before the comment sign. *)
Definition effective (raw : string) : bool :=
  negb (is_empty (strip is_space (hd "" (split "#" raw)))).

(** A sitemap value that draws the warning about relative URLs. *)
Definition relative_sitemap (value : string) : bool := negb (absolute value).

Section Parsed.
Context `{!PyFloat}.
Import Robots.

(** Lines accounted for, and sitemap values counted twice. *)
Definition accounted (p : ParsedRobots) : nat :=
  total_rules p + length (errors p) + length (warnings p).

Definition relative_sitemaps (p : ParsedRobots) : nat :=
  length (List.filter relative_sitemap (sitemaps p)).

(** What the parsing loop maintains: the agents are the keys of a
    dictionary, the two records of crawl delays agree, and the current
    agent has an entry. *)
Definition parse_inv (st : ParsedRobots * option string) : Prop :=
  NoDup (user_agents st.1).*1
  /\ (forall ua, assoc ua (crawl_delay st.1)
                 = assoc ua (user_agents st.1) ≫= agent_crawl_delay)
  /\ (forall ua, st.2 = Some ua -> is_Some (assoc ua (user_agents st.1))).

(** Where a note of the parser comes from. *)
Definition note_from (numbered : list (nat * string)) (n : Note) : Prop :=
  exists raw, (note_line n, raw) ∈ numbered
              /\ note_content n = strip is_space (hd "" (split "#" raw))
              /\ note_content n <> "".

End Parsed.

End RobotsLines.


(** ** Further helpers of [socials_audit.py] *)

Module Socials.
Import PyStr.

(** [any(pattern in text for pattern in patterns)] *)
Definition any_in (patterns : list string) (text : string) : bool :=
  List.existsb (fun pattern => substr_in pattern text) patterns.

(** [_calculate_bio_score] *)
Definition _calculate_bio_score (bio : string) (hashtags : list string) : Z :=
  let score := 0%Z in
  if is_empty bio then 0%Z
  else
    let score :=
      if (50 <=? String.length bio)%nat && (String.length bio <=? 150)%nat
      then (score + 30)%Z
      else if (0 <? String.length bio)%nat then (score + 15)%Z
      else score in
    let score :=
      if negb (bool_decide (hashtags = [])) then (score + 25)%Z else score in
    let score :=
      if any_in ["link"; "bio"; ".com"; "www"] (lower bio)
      then (score + 25)%Z else score in
    let score :=
      if any_in ["email"; "@"; "contact"; "dm"] (lower bio)
      then (score + 20)%Z else score in
    Z.min score 100.

(** The two fields of [profile_info] that
    [_generate_hashtag_recommendations] reads, with the defaults of
    [.get]: [''] for the username and 0 for the number of followers. *)
Record HashtagProfile := mkHashtagProfile {
  username : string;
  followers_count : Z
}.

(** [_generate_hashtag_recommendations] *)
Definition _generate_hashtag_recommendations (bio_hashtags : list string)
    (profile_info : HashtagProfile) : list string :=
  let recommendations : list string := [] in
  let recommendations :=
    if bool_decide (bio_hashtags = []) then
      recommendations
      ++ ["Add relevant hashtags to your bio to improve discoverability."]
    else if (5 <? length bio_hashtags)%nat then
      recommendations
      ++ ["Consider reducing bio hashtags to 3-5 most relevant ones."]
    else recommendations in
  let username := lower (username profile_info) in
  let has_branded :=
    List.existsb (fun tag => substr_in username (lower tag)) bio_hashtags in
  if negb has_branded && (1000 <? followers_count profile_info)%Z
  then recommendations
       ++ ["Consider creating and using a branded hashtag in your bio."]
  else recommendations.

Definition add_hashtags_text : string :=
  "Add relevant hashtags to your bio to improve discoverability.".

Definition branded_text : string :=
  "Consider creating and using a branded hashtag in your bio.".

(** The longest prefix of characters with [p]. *)
Fixpoint take_while (p : ascii -> bool) (s : string) : string :=
  match s with
  | EmptyString => EmptyString
  | String a s' => if p a then String a (take_while p s') else EmptyString
  end.

(** A character of the class [[^/?]]. *)
Definition name_char (c : ascii) : bool :=
  negb (Ascii.eqb c "/" || Ascii.eqb c "?").

(** [re.search(r'instagram\.com/([^/?]+)', s)]: the group of the leftmost
    match, [None] without a match. *)
Fixpoint search_profile (s : string) : option string :=
  match s with
  | EmptyString => None
  | String _ s' =>
      if startswith s "instagram.com/" then
        match drop 14 s with
        | String d _ =>
            if name_char d then Some (take_while name_char (drop 14 s))
            else search_profile s'
        | EmptyString => search_profile s'
        end
      else search_profile s'
  end.

(** [InstagramScraper.clean_username] *)
Definition clean_username (username : string) : string :=
  let username := strip is_space (remove (Ascii.eqb "@") username) in
  if substr_in "instagram.com" username then
    match search_profile username with
    | Some group => group
    | None => username
    end
  else username.

End Socials.


(** ** The summary of checked links *)

Module LinkCheck.

(** One result of [_check_link_status]; a key that the dictionary may lack
    is an option. *)
Record LinkResult := mkLinkResult {
  link_url : option string;
  link_status : option string;
  link_status_code : option Z;
  link_error : option string;
  redirect_count : option Z
}.

Record BrokenLink := mkBrokenLink {
  broken_url : string;
  broken_status_code : Z;
  broken_error : string
}.

Record LinkAnalysis := mkLinkAnalysis {
  total_checked : nat;
  working_links : nat;
  broken_links : nat;
  timeout_links : nat;
  error_links : nat;
  redirected_links : nat;
  status_code_breakdown : list (string * nat);
  broken_link_details : list BrokenLink;
  link_recommendations : list string
}.

(** The counters before the loop; the recommendations are filled in last. *)
Definition empty_analysis (total : nat) : LinkAnalysis :=
  mkLinkAnalysis total 0 0 0 0 0 [] [] [].

(** One iteration of the loop; [None] when [result["url"]] raises
    [KeyError]. *)
Definition count_result (a : LinkAnalysis) (result : LinkResult)
    : option LinkAnalysis :=
  let status := default "unknown" (link_status result) in
  let status_code := default 0%Z (link_status_code result) in
  a ←
    (if String.eqb status "working" then
       Some (mkLinkAnalysis (total_checked a) (S (working_links a))
               (broken_links a) (timeout_links a) (error_links a)
               (redirected_links a) (status_code_breakdown a)
               (broken_link_details a) (link_recommendations a))
     else if String.eqb status "broken" then
       url ← link_url result;
       Some (mkLinkAnalysis (total_checked a) (working_links a)
               (S (broken_links a)) (timeout_links a) (error_links a)
               (redirected_links a) (status_code_breakdown a)
               (broken_link_details a
                ++ [mkBrokenLink url status_code
                      (default "" (link_error result))])
               (link_recommendations a))
     else if String.eqb status "timeout" then
       Some (mkLinkAnalysis (total_checked a) (working_links a)
               (broken_links a) (S (timeout_links a)) (error_links a)
               (redirected_links a) (status_code_breakdown a)
               (broken_link_details a) (link_recommendations a))
     else
       Some (mkLinkAnalysis (total_checked a) (working_links a)
               (broken_links a) (timeout_links a) (S (error_links a))
               (redirected_links a) (status_code_breakdown a)
               (broken_link_details a) (link_recommendations a)));
  let redirected :=
    if (0 <? default 0 (redirect_count result))%Z
    then S (redirected_links a) else redirected_links a in
  let breakdown :=
    if (0 <? status_code)%Z then
      Robots.assoc_set (pretty status_code)
        (default 0 (Robots.assoc (pretty status_code) (status_code_breakdown a))
         + 1)
        (status_code_breakdown a)
    else status_code_breakdown a in
  Some (mkLinkAnalysis (total_checked a) (working_links a) (broken_links a)
          (timeout_links a) (error_links a) redirected breakdown
          (broken_link_details a) (link_recommendations a)).

(** The loop over the results. *)
Definition count_results (results : list LinkResult) : option LinkAnalysis :=
  foldl (fun acc result => a ← acc; count_result a result)
    (Some (empty_analysis (length results))) results.

Definition all_working_text : string :=
  "All external links are working correctly!".

(** [_analyze_link_results] *)
Definition _analyze_link_results `{!Float64} (link_results : list LinkResult)
    : option LinkAnalysis :=
  a ← count_results link_results;
  let recs : list string := [] in
  let recs :=
    if (0 <? broken_links a)%nat
    then recs ++ ["Fix " +:+ pretty (broken_links a)
                  +:+ " broken external links to improve user experience and SEO."]
    else recs in
  let recs :=
    if (3 <? timeout_links a)%nat
    then recs ++ ["Several links are timing out. Consider checking if these external sites are reliable."]
    else recs in
  let recs :=
    if negb (Qle_bool (inject_Z (Z.of_nat (redirected_links a)))
               (fl (inject_Z (Z.of_nat (total_checked a)) * fl (3 # 10))))
    then recs ++ ["Many external links are redirecting. Consider updating to point directly to final destinations."]
    else recs in
  let recs :=
    if (working_links a =? total_checked a)%nat
    then recs ++ [all_working_text]
    else recs in
  Some (mkLinkAnalysis (total_checked a) (working_links a) (broken_links a)
          (timeout_links a) (error_links a) (redirected_links a)
          (status_code_breakdown a) (broken_link_details a) recs).

(** A result on which the loop raises [KeyError]. *)
Definition lacks_url (r : LinkResult) : Prop :=
  default "unknown" (link_status r) = "broken" /\ link_url r = None.

(** The results counted so far. *)
Definition statuses (a : LinkAnalysis) : nat :=
  working_links a + broken_links a + timeout_links a + error_links a.

(** Three checked links: one redirected, one broken, one timed out. *)
Definition checked_links : list LinkResult :=
  [mkLinkResult (Some "https://a.test/") (Some "working") (Some 200%Z) None
     (Some 1%Z);
   mkLinkResult (Some "https://b.test/gone") (Some "broken") (Some 404%Z) None
     (Some 0%Z);
   mkLinkResult (Some "https://c.test/") (Some "timeout") (Some 0%Z)
     (Some "Request timed out") None].

End LinkCheck.


(** ** The parts of the scores *)

Module ScoreParts.
Import Scores.

Definition severity_total (c : SeverityCount) : nat :=
  critical c + serious c + moderate c + minor c.

(** The points for the number of posts and for the follower ratio. *)
Definition posts_points (posts : Z) : Z :=
  if (100 <=? posts)%Z then 20
  else if (50 <=? posts)%Z then 15
  else if (20 <=? posts)%Z then 10
  else if (5 <=? posts)%Z then 5
  else 0.

Definition ratio_points (ratio : Q) : Z :=
  if Qle_bool 10 ratio then 20
  else if Qle_bool 5 ratio then 15
  else if Qle_bool 2 ratio then 10
  else if Qle_bool 1 ratio then 5
  else 0.

(** The points for the picture, the bio, the verified mark and the name. *)
Definition fixed_points (p : ProfileInfo) : Z :=
  (if truthy (profile_picture_url p) then 10 else 0)
  + (if truthy (bio p)
     then if (50 <? String.length (default "" (bio p)))%nat then 20 else 10
     else 0)
  + (if is_verified p then 15 else 0)
  + (if truthy (profile_name p) then 15 else 0).

End ScoreParts.


(** ** The order of a crawl *)

Module CrawlOrder.
Import PyStr UrlLib WebAudit.

Section Order.
Context `{!UrlChecks} `{!PySet}.
Variable env : Env.
Variable start_url : string.
Variable max_pages : Z.

(** The URLs in the order in which they entered the frontier: those already
    crawled, then those that wait. *)
Definition discovered (st : CrawlState) : list string :=
  (url <$> crawled_pages st) ++ to_visit st.

(** The links of a page that the [for link in page_links] loop appends to
    the frontier [waiting], in the order of the page's list. *)
Definition enqueued (page_links : list string) (base_domain : string)
    (visited : gset string) (waiting : list string) : list string :=
  filter (fun link =>
            _should_crawl_url link base_domain visited max_pages = true
            /\ link ∉ waiting)
    page_links.

(** Page [k] is the first page with a link to [u]. *)
Definition first_link (pages : list CrawlResult) (u : string) (k : nat) : Prop :=
  (exists c, pages !! k = Some c /\ u ∈ links c)
  /\ forall k' c', pages !! k' = Some c' -> u ∈ links c' -> k <= k'.

(** URLs are crawled level by level: a page whose first linking page comes
    earlier is itself crawled earlier. *)
Definition level_order (pages : list CrawlResult) : Prop :=
  forall i j a b ka kb,
    pages !! i = Some a -> pages !! j = Some b ->
    url a <> start_url -> url b <> start_url ->
    first_link pages (url a) ka -> first_link pages (url b) kb ->
    ka < kb -> i < j.

(** The loop running on from a state. *)
Inductive steps : CrawlState -> CrawlState -> Prop :=
| steps_refl (st : CrawlState) : steps st st
| steps_iter (st st' : CrawlState) :
    loop_cond max_pages st = true ->
    steps (loop_body env start_url max_pages st) st' -> steps st st'.

(** What the queue discipline maintains. *)
Record order_inv (st : CrawlState) : Prop := mkOrderInv {
  ord_parent : forall p x,
    discovered st !! p = Some x -> x <> start_url ->
    exists k, k < length (crawled_pages st) /\ k < p
              /\ first_link (crawled_pages st) x k;
  ord_level : forall p q x y kx ky,
    discovered st !! p = Some x -> discovered st !! q = Some y ->
    x <> start_url -> y <> start_url ->
    first_link (crawled_pages st) x kx -> first_link (crawled_pages st) y ky ->
    p < q -> kx <= ky
}.

End Order.

End CrawlOrder.


(** ** The host of a netloc *)

(** The [hostname] property of a parse result (CPython 3.11,
    [_NetlocResultMixinStr]): the netloc without user information and port. *)
Module UrlHost.
Import PyStr.

(** [s.partition(c)] and [s.rpartition(c)]; the flag tells whether the
    separator was found. *)
Definition partition (c : ascii) (s : string) : string * bool * string :=
  match find c s with
  | Some i => (take i s, true, drop (S i) s)
  | None => (s, false, "")
  end.

Definition rpartition (c : ascii) (s : string) : string * bool * string :=
  match rfind c s with
  | Some i => (take i s, true, drop (S i) s)
  | None => ("", false, s)
  end.

Definition _hostinfo (netloc : string) : string * option string :=
  let '(_, _, hostinfo) := rpartition "@" netloc in
  let '(_, have_open_br, bracketed) := partition "[" hostinfo in
  let '(hostname, port) :=
    if have_open_br then
      let '(hostname, _, port) := partition "]" bracketed in
      let '(_, _, port) := partition ":" port in
      (hostname, port)
    else
      let '(hostname, _, port) := partition ":" hostinfo in
      (hostname, port) in
  (hostname, if is_empty port then None else Some port).

Definition hostname (netloc : string) : option string :=
  let hostname := fst (_hostinfo netloc) in
  if is_empty hostname then None
  else
    let '(hostname, percent, zone) := partition "%" hostname in
    Some (lower hostname +:+ (if percent then "%" else "") +:+ zone).

End UrlHost.


(** ** More environments for the three-page site *)

Module FixtureMore.
Import WebAudit Fixture.

(** The same site on a machine without Playwright. *)
Definition without_playwright : Env :=
  mkEnv false None None site (fun _ => "Invalid IPv6 URL") 0.

(** A URL with a port and no host. *)
Definition hostless_url : string := "http://:80/".

End FixtureMore.


(** ** The performance score of [audit_speed] *)

Module Speed.


End Speed.


(** ** [_analyze_internal_linking] *)

(** [round(x, n)] and the format [f"{x:.1f}"] of a float. *)
Class FloatText := {
  round_to : nat -> Q -> Q;
  format_1f : Q -> string
}.

Module Linking.
Import PyStr.















Section Analysis.
Context `{!Float64} `{!FloatText}.













End Analysis.

End Linking.


(** ** Strings *)

Module PyStrFacts.
Import PyStr.

Lemma append_cons (a : ascii) (s t : string) : String a s +:+ t = String a (s +:+ t).
Proof. reflexivity. Qed.

Lemma append_nil_l (s : string) : "" +:+ s = s.
Proof. reflexivity. Qed.

Lemma forallb_take p n s : forallb p s = true -> forallb p (take n s) = true.
Proof.
  revert n. induction s as [|a s IH]; intros [|n]; simpl; try done.
  intros [? ?]%andb_true_iff. rewrite IH by done. by rewrite andb_true_r.
Qed.

Lemma forallb_drop p n s : forallb p s = true -> forallb p (drop n s) = true.
Proof.
  revert n. induction s as [|a s IH]; intros [|n]; simpl; try done.
  intros [? ?]%andb_true_iff. by apply IH.
Qed.

Lemma forallb_remove p s : forallb (fun c => negb (p c)) (remove p s) = true.
Proof.
  induction s as [|a s IH]; simpl; [done|].
  destruct (p a) eqn:Hp; simpl; [done|]. by rewrite Hp, IH.
Qed.

Lemma remove_id p s : forallb (fun c => negb (p c)) s = true -> remove p s = s.
Proof.
  induction s as [|a s IH]; simpl; [done|].
  intros [Ha ?]%andb_true_iff. apply negb_true_iff in Ha. rewrite Ha.
  by rewrite IH.
Qed.

Lemma contains_false_forallb c s :
  contains c s = false <-> forallb (fun a => negb (Ascii.eqb c a)) s = true.
Proof.
  unfold contains. induction s as [|a s IH]; cbn [existsb forallb]; [done|].
  rewrite orb_false_iff, andb_true_iff, negb_true_iff, IH. done.
Qed.

Lemma find_None_contains c s : find c s = None <-> contains c s = false.
Proof.
  unfold contains. induction s as [|a s IH]; cbn [existsb find]; [done|].
  rewrite (Ascii.eqb_sym c a). destruct (Ascii.eqb a c); cbn [orb]; [done|].
  rewrite <- IH. destruct (find c s); cbn; split; congruence.
Qed.

Lemma take_before_find c s n i :
  find c s = Some i -> n <= i -> contains c (take n s) = false.
Proof.
  unfold contains. revert n i.
  induction s as [|a s IH]; intros n i; cbn [find]; [done|].
  destruct (Ascii.eqb a c) eqn:Ha.
  - intros [= <-] Hn. assert (n = 0) as -> by lia. done.
  - destruct (find c s) as [j|] eqn:Hj; cbn; [|done].
    intros [= <-] Hn. destruct n as [|n]; cbn [take existsb]; [done|].
    rewrite (Ascii.eqb_sym c a), Ha. cbn [orb]. eapply IH; [done|lia].
Qed.

Lemma contains_take c n s : contains c s = false -> contains c (take n s) = false.
Proof.
  rewrite !contains_false_forallb. apply forallb_take.
Qed.

Lemma take_length s : take (String.length s) s = s.
Proof. induction s as [|a s IH]; simpl; [done|]. by rewrite IH. Qed.

Lemma drop_length s : drop (String.length s) s = "".
Proof. induction s as [|a s IH]; simpl; done. Qed.

End PyStrFacts.

(** ** URL parsing *)

Module UrlFacts.
Import PyStr UrlLib PyStrFacts.

Lemma _splitnetloc_no_delim url c :
  c ∈ ["/"; "?"; "#"]%char ->
  contains c (fst (_splitnetloc url 2)) = false.
Proof.
  intros Hc. unfold _splitnetloc, slice, find_from. cbn [foldl fst].
  set (s := drop 2 url).
  destruct (find "/" s) as [i1|] eqn:H1;
    destruct (find "?" s) as [i2|] eqn:H2;
    destruct (find "#" s) as [i3|] eqn:H3; cbn [fmap option_fmap option_map];
    repeat (apply elem_of_cons in Hc as [->|Hc]);
    try (by apply elem_of_nil in Hc);
    first [ eapply take_before_find; [eassumption|lia]
          | apply contains_take; by apply find_None_contains ].
Qed.


Lemma _splitnetloc_fst_take url :
  exists n, fst (_splitnetloc url 2) = take n (drop 2 url).
Proof. unfold _splitnetloc, slice. eexists. reflexivity. Qed.

Lemma split_scheme_forallb p url sch :
  forallb p url = true -> forallb p (snd (split_scheme url sch)) = true.
Proof.
  intros Hp. unfold split_scheme.
  destruct (find ":" url) as [[|i]|]; [done| |done].
  destruct url as [|c0 url']; [done|].
  destruct (_ && _); [|done]. cbn [snd]. by apply forallb_drop.
Qed.

Section WithChecks.
Context `{!UrlChecks}.

Lemma _checknetloc_empty : _checknetloc "" = true.
Proof. reflexivity. Qed.

Lemma split_authority_ok url n rest :
  forallb (fun c => negb (is_unsafe_byte c)) url = true ->
  split_authority url = Some (n, rest) ->
  _checknetloc n = true ->
  split_netloc_ok n.
Proof.
  intros Hsafe. unfold split_authority.
  destruct (String.eqb (take 2 url) "//").
  - destruct (_splitnetloc url 2) as [n' rest'] eqn:Hsplit.
    destruct (_ || _) eqn:Hb1; [done|].
    destruct (_ && _ && _) eqn:Hb2; [done|].
    intros [= <- <-] Hchk.
    assert (n' = fst (_splitnetloc url 2)) as Hn by (by rewrite Hsplit).
    unfold split_netloc_ok. split_and!; try done.
    + rewrite Hn. apply _splitnetloc_no_delim. set_solver.
    + rewrite Hn. apply _splitnetloc_no_delim. set_solver.
    + rewrite Hn. apply _splitnetloc_no_delim. set_solver.
    + destruct (_splitnetloc_fst_take url) as [k Hk]. rewrite Hn, Hk.
      by apply forallb_take, forallb_drop.
  - intros [= <- <-] _. unfold split_netloc_ok. by split_and!.
Qed.

Lemma urlsplit_netloc_ok url sch r :
  urlsplit url sch = Some r -> split_netloc_ok (s_netloc r).
Proof.
  unfold urlsplit.
  pose proof (forallb_remove is_unsafe_byte (lstrip is_c0_or_space url)) as Hsafe.
  apply (split_scheme_forallb _ _
           (remove is_unsafe_byte (strip is_c0_or_space sch))) in Hsafe.
  destruct (split_scheme _ _) as [sch' url']. cbn [snd] in Hsafe.
  destruct (split_authority url') as [[n rest]|] eqn:Hauth; [|done].
  cbn [mbind option_bind].
  destruct (if contains "#" rest then _ else _) as [u1 frag].
  destruct (if contains "?" u1 then _ else _) as [u2 q].
  destruct (_checknetloc n) eqn:Hchk; [|done].
  intros [= <-]. cbn [s_netloc]. by eapply split_authority_ok.
Qed.

Lemma urlparse_netloc_ok url sch p :
  urlparse url sch = Some p -> split_netloc_ok (netloc p).
Proof.
  unfold urlparse. destruct (urlsplit url sch) as [r|] eqn:Hr; [|done].
  cbn [mbind option_bind]. destruct (if _ && _ then _ else _) as [u pa].
  intros [= <-]. cbn [netloc]. by eapply urlsplit_netloc_ok.
Qed.

Lemma _splitnetloc_authority n :
  contains "/" n = false -> contains "?" n = false -> contains "#" n = false ->
  _splitnetloc (String "/" (String "/" n)) 2 = (n, "").
Proof.
  intros H1%find_None_contains H2%find_None_contains H3%find_None_contains.
  unfold _splitnetloc, slice, find_from. cbn [foldl drop].
  rewrite H1, H2, H3. cbn [fmap option_fmap option_map String.length drop].
  replace (S (S (String.length n)) - 2) with (String.length n) by lia.
  by rewrite take_length, drop_length.
Qed.

Lemma split_authority_base n :
  split_netloc_ok n -> split_authority (String "/" (String "/" n)) = Some (n, "").
Proof.
  intros (H1 & H2 & H3 & _ & Hb1 & Hb2 & _). unfold split_authority.
  cbn [take String.eqb Ascii.eqb Bool.eqb]. 
  rewrite _splitnetloc_authority by done. by rewrite Hb1, Hb2.
Qed.

(** Parsing [f"{scheme}://{netloc}"] gives the two components back. *)
Lemma urlsplit_base_domain sch n :
  sch = "http" \/ sch = "https" -> split_netloc_ok n ->
  urlsplit (sch +:+ "://" +:+ n) "" = Some (mkSplit sch n "" "" "").
Proof.
  intros Hsch Hn. pose proof Hn as (_ & _ & _ & Hsafe & _ & _ & Hchk).
  pose proof (split_authority_base n Hn) as Hauth.
  assert (forall s, s = "http" \/ s = "https" ->
            lstrip is_c0_or_space (s +:+ "://" +:+ n) = s +:+ "://" +:+ n) as H1
    by (by intros s [-> | ->]).
  assert (forall s, s = "http" \/ s = "https" ->
            remove is_unsafe_byte (s +:+ "://" +:+ n)
            = s +:+ "://" +:+ remove is_unsafe_byte n) as H2
    by (by intros s [-> | ->]).
  assert (forall s, s = "http" \/ s = "https" ->
            split_scheme (s +:+ "://" +:+ n) ""
            = (s, String "/" (String "/" n))) as H3
    by (by intros s [-> | ->]).
  unfold urlsplit. rewrite H1, H2, (remove_id _ n), H3 by done.
  cbv beta iota zeta. rewrite Hauth. cbn [mbind option_bind].
  cbn [contains existsb]. by rewrite Hchk.
Qed.

Lemma urlparse_base_domain sch n :
  sch = "http" \/ sch = "https" -> split_netloc_ok n ->
  urlparse (sch +:+ "://" +:+ n) "" = Some (mkParse sch n "" "" "" "").
Proof.
  intros Hsch Hn. unfold urlparse. rewrite urlsplit_base_domain by done.
  cbn [mbind option_bind s_url s_scheme s_netloc s_query s_fragment
       contains existsb]. by rewrite andb_false_r.
Qed.

Lemma valid_url_inv u :
  WebAudit._is_valid_url u = true ->
  exists p, urlparse u "" = Some p
            /\ (scheme p = "http" \/ scheme p = "https")
            /\ is_empty (netloc p) = false.
Proof.
  unfold WebAudit._is_valid_url. destruct (urlparse u "") as [p|]; [|done].
  intros [[_ Hn]%andb_true_iff Hs]%andb_true_iff. exists p.
  split_and!; [done| |by apply negb_true_iff].
  unfold mem in Hs. apply bool_decide_eq_true in Hs.
  apply elem_of_cons in Hs as [?|Hs]; [by left|].
  apply list_elem_of_singleton in Hs. by right.
Qed.

Lemma base_domain_roundtrip u ps :
  WebAudit._is_valid_url u = true -> urlparse u "" = Some ps ->
  exists pb, urlparse (WebAudit.base_domain_of ps) "" = Some pb
             /\ netloc pb = netloc ps.
Proof.
  intros (p & Hp & Hs & _)%valid_url_inv Hps.
  assert (p = ps) as -> by congruence.
  exists (mkParse (scheme ps) (netloc ps) "" "" "" "").
  split; [|reflexivity]. unfold WebAudit.base_domain_of.
  apply urlparse_base_domain; [done|by eapply urlparse_netloc_ok].
Qed.

End WithChecks.

(** The model agrees with CPython's [urlparse] and [urljoin] on these inputs. *)
Example urlparse_examples :
  let parse := @urlparse Fixture.permissive_checks in
  parse "http://Example.com:80/a/b;p?q=1#f" ""
  = Some (mkParse "http" "Example.com:80" "/a/b" "p" "q=1" "f")
  /\ parse "  HTTP://x/y" "" = Some (mkParse "http" "x" "/y" "" "" "")
  /\ parse "example.com" "" = Some (mkParse "" "" "example.com" "" "" "")
  /\ parse "http://[::1]/x" "" = Some (mkParse "http" "[::1]" "/x" "" "" "")
  /\ parse "http://[::1/x" "" = None.
Proof. by vm_compute. Qed.

Example urljoin_examples :
  let join := @urljoin Fixture.permissive_checks in
  join "http://h/a/b/c" "../d/./e?x#y" = Some "http://h/a/d/e?x#y"
  /\ join "http://h/a/b/c" "../../../../d/.." = Some "http://h/"
  /\ join "http://h/a/b/c" "?x" = Some "http://h/a/b/c?x"
  /\ join "http://h/a/b/c" "//other/z" = Some "http://other/z"
  /\ join "http://h/a/b/c" "mailto:x@y" = Some "mailto:x@y"
  /\ join "http://h/a/b/c" "http:foo" = Some "http://h/a/b/foo"
  /\ join "http://h/a//b/c" "x//y/" = Some "http://h/a/b/x/y/"
  /\ join "http://h" "x;y" = Some "http://h/x;y"
  /\ join "https://h/a/b/c" "HTTP://Other/x" = Some "HTTP://Other/x"
  /\ join "http://h/a/b/c" "HTTP://Other/x" = Some "http://Other/x"
  /\ join "//host/a" "b" = Some "//host/b"
  /\ join "example.com" "://host/p" = Some ":/host/p".
Proof. by vm_compute. Qed.

End UrlFacts.

(** * Proofs *)

(** ** Loops *)

Lemma while_loop_fuel_mono {St : Type} (cond : St -> bool) (body : St -> St)
    (n m : nat) (st st' : St) :
  while_loop cond body n st = Some st' -> n <= m ->
  while_loop cond body m st = Some st'.
Proof.
  revert m st. induction n as [|n IH]; intros m st Hrun Hle; simpl in *.
  - destruct m; simpl; destruct (cond st); congruence.
  - destruct m as [|m]; [lia|]. simpl.
    destruct (cond st); [|done]. apply IH; [done|lia].
Qed.

Lemma while_loop_exit {St : Type} (cond : St -> bool) (body : St -> St)
    (n : nat) (st st' : St) :
  while_loop cond body n st = Some st' -> cond st' = false.
Proof.
  revert st. induction n as [|n IH]; intros st; simpl;
    destruct (cond st) eqn:Hc; try congruence; eauto.
Qed.

Lemma while_loop_invariant {St : Type} (cond : St -> bool) (body : St -> St)
    (P : St -> Prop) :
  (forall st, P st -> cond st = true -> P (body st)) ->
  forall n st st', P st -> while_loop cond body n st = Some st' -> P st'.
Proof.
  intros Hstep. induction n as [|n IH]; intros st st' HP; simpl;
    destruct (cond st) eqn:Hc; try congruence; eauto.
Qed.

Module CrawlFacts.
Import PyStr UrlLib WebAudit.

Section Crawl.
Context `{!UrlChecks} `{!PySet}.
Variable env : Env.
Variable start_url : string.
Variable max_pages : Z.


Lemma should_crawl_not_visited x bd vis :
  _should_crawl_url x bd vis max_pages = true -> x ∉ vis.
Proof.
  unfold _should_crawl_url. destruct (is_empty x); simpl; [done|].
  case_bool_decide; [done|]. done.
Qed.

Lemma enqueue_links_spec page_links bd vis q :
  exists new,
    enqueue_links max_pages page_links bd vis q = q ++ new
    /\ (forall x, x ∈ new ->
          x ∈ page_links /\ _should_crawl_url x bd vis max_pages = true)
    /\ (NoDup q -> NoDup (q ++ new)).
Proof.
  unfold enqueue_links. revert q.
  induction page_links as [|l ls IH]; intros q; simpl.
  - exists []. rewrite app_nil_r. split_and!; [done| |done].
    intros x Hx. by apply elem_of_nil in Hx.
  - destruct (_should_crawl_url l bd vis max_pages) eqn:Hl.
    + case_bool_decide as Hin.
      * destruct (IH q) as (new & -> & Hnew & Hnd). exists new.
        split_and!; [done| |done].
        intros x Hx. destruct (Hnew x Hx). split; [by right|done].
      * destruct (IH (q ++ [l])) as (new & -> & Hnew & Hnd).
        exists (l :: new).
        assert ((q ++ [l]) ++ new = q ++ l :: new) as Heq
          by (by rewrite <- app_assoc).
        rewrite Heq in *.
        split_and!; [done| |].
        -- intros x [->|Hx]%elem_of_cons; [split; [by left|done]|].
           destruct (Hnew x Hx). split; [by right|done].
        -- intros Hq. apply Hnd. apply NoDup_app. split_and!; [done| |apply NoDup_singleton].
           intros x Hx ->%list_elem_of_singleton. done.
    + destruct (IH q) as (new & -> & Hnew & Hnd). exists new.
      split_and!; [done| |done].
      intros x Hx. destruct (Hnew x Hx). split; [by right|done].
Qed.


Hypothesis Hvalid : _is_valid_url start_url = true.

Lemma should_crawl_same_netloc x ps vis :
  urlparse start_url "" = Some ps ->
  _should_crawl_url x (base_domain_of ps) vis max_pages = true ->
  same_netloc x start_url.
Proof.
  intros Hps. unfold _should_crawl_url.
  destruct (is_empty x || bool_decide (x ∈ vis)); [done|].
  destruct (max_pages <=? _)%Z; [done|].
  destruct (urlparse x "") as [px|] eqn:Hpx; [|done].
  destruct (UrlFacts.base_domain_roundtrip start_url ps Hvalid Hps)
    as (pb & -> & Hnet).
  intros Heq%String.eqb_eq. exists px, ps. split_and!; congruence.
Qed.

Lemma visit_page_spec ps st u :
  urlparse start_url "" = Some ps ->
  exists r new errs doms,
    visit_page env start_url max_pages st u
    = mkState (visited st) (to_visit st ++ new) (crawled_pages st ++ [r]) errs doms
    /\ url r = u
    /\ (forall x, x ∈ new ->
          x ∈ links r
          /\ _should_crawl_url x (base_domain_of ps) (visited st) max_pages = true)
    /\ (NoDup (to_visit st) -> NoDup (to_visit st ++ new))
    /\ ((error r = None) \/ (is_error_result r /\ new = [])).
Proof.
  intros Hps. unfold visit_page.
  assert (forall st' msg, exists r new errs doms,
    record_failure st' u msg
    = mkState (visited st') (to_visit st' ++ new) (crawled_pages st' ++ [r]) errs doms
    /\ url r = u
    /\ (forall x, x ∈ new ->
          x ∈ links r
          /\ _should_crawl_url x (base_domain_of ps) (visited st') max_pages = true)
    /\ (NoDup (to_visit st') -> NoDup (to_visit st' ++ new))
    /\ ((error r = None) \/ (is_error_result r /\ new = []))) as Hfail.
  { intros st' msg. eexists (error_result u msg), [], _, _.
    unfold record_failure. rewrite app_nil_r.
    split_and!; [reflexivity|done| |done|].
    - intros x Hx. by apply elem_of_nil in Hx.
    - right. split; [|done]. by split_and!; [eexists|..]. }
  destruct (browser env _ u) as [d|msg]; [|apply Hfail].
  destruct (urlparse u "") as [parsed|]; [|apply Hfail].
  rewrite Hps. simpl.
  destruct (enqueue_links_spec
              (_extract_links_playwright (pd_hrefs d) u) (base_domain_of ps)
              (visited st) (to_visit st)) as (new & Henq & Hnew & Hnd).
  eexists _, new, _, _. unfold base_domain_of in *. rewrite Henq.
  split_and!; [reflexivity|done|done|done|by left].
Qed.

Lemma crawl_inv_start : crawl_inv start_url max_pages (initial_state start_url).
Proof.
  split; cbn [initial_state visited to_visit crawled_pages].
  - apply NoDup_singleton.
  - intros u _. apply not_elem_of_empty.
  - intros u. split; [by intros ?%not_elem_of_empty|by intros ?%elem_of_nil].
  - apply NoDup_nil_2.
  - by rewrite size_empty.
  - rewrite size_empty. lia.
  - intros u ->%list_elem_of_singleton. by left.
  - intros j b Hj. by rewrite lookup_nil in Hj.
  - intros u [->%list_elem_of_singleton|?%not_elem_of_empty]; [by left|done].
  - intros c ?%elem_of_nil. done.
Qed.

Lemma loop_body_shape ps st u rest :
  urlparse start_url "" = Some ps ->
  crawl_inv start_url max_pages st ->
  to_visit st = u :: rest ->
  exists r new errs doms,
    loop_body env start_url max_pages st
    = mkState (visited st ∪ {[u]}) (rest ++ new) (crawled_pages st ++ [r]) errs doms
    /\ url r = u
    /\ (u ∉ visited st)
    /\ (forall x, x ∈ new ->
          x ∈ links r
          /\ _should_crawl_url x (base_domain_of ps) (visited st ∪ {[u]}) max_pages
             = true)
    /\ NoDup (rest ++ new)
    /\ ((error r = None) \/ (is_error_result r /\ new = [])).
Proof.
  intros Hps Hinv Hq. unfold loop_body. rewrite Hq.
  assert (u ∉ visited st) as Hu.
  { apply (inv_fresh _ _ _ Hinv). rewrite Hq. by left. }
  rewrite bool_decide_eq_false_2 by done.
  destruct (visit_page_spec ps
              (mkState (visited st ∪ {[u]}) rest (crawled_pages st)
                 (crawl_errors st) (all_domains st)) u Hps)
    as (r & new & errs & doms & -> & Hr & Hnew & Hnd & Herr).
  simpl in *. exists r, new, errs, doms.
  split_and!; [done|done|done|done| |done].
  apply Hnd. pose proof (inv_nodup _ _ _ Hinv) as Hnd'. rewrite Hq in Hnd'.
  by apply NoDup_cons in Hnd' as [_ ?].
Qed.

Lemma start_url_parsed : exists ps, urlparse start_url "" = Some ps.
Proof.
  destruct (UrlFacts.valid_url_inv start_url Hvalid) as (ps & Hps & _). by exists ps.
Qed.

Lemma crawl_inv_step st :
  crawl_inv start_url max_pages st -> loop_cond max_pages st = true ->
  crawl_inv start_url max_pages (loop_body env start_url max_pages st).
Proof.
  destruct start_url_parsed as [ps Hps]. intros Hinv Hcond.
  unfold loop_cond in Hcond. apply andb_true_iff in Hcond as [Hne Hlt].
  apply Z.ltb_lt in Hlt.
  destruct (to_visit st) as [|u rest] eqn:Hq; [done|]. clear Hne.
  destruct (loop_body_shape ps st u rest Hps Hinv Hq)
    as (r & new & errs & doms & -> & Hr & Hu & Hnew & Hnd & Herr).
  pose proof Hinv as [Hnd0 Hfresh Hpages Hpnd Hcount Hbudget Hoq Hop Hdom Hres].
  rewrite Hq in *.
  assert (size (visited st ∪ {[u]}) = S (size (visited st))) as Hsize.
  { rewrite size_union by (by apply disjoint_singleton_r).
    rewrite size_singleton. lia. }
  split; cbn [visited to_visit crawled_pages].
  - done.
  - intros x [Hx|Hx]%elem_of_app.
    + apply not_elem_of_union. split; [apply Hfresh; by right|].
      intros ->%elem_of_singleton. apply NoDup_cons in Hnd0 as [? _]. done.
    + destruct (Hnew x Hx) as [_ Hc]. by apply should_crawl_not_visited in Hc.
  - intros x. rewrite fmap_app, elem_of_app, elem_of_union, Hpages. simpl.
    rewrite Hr, elem_of_singleton, list_elem_of_singleton. done.
  - rewrite fmap_app. simpl. rewrite Hr. apply NoDup_app. split_and!; [done| |].
    + intros x Hx ->%list_elem_of_singleton. by apply Hpages in Hx.
    + apply NoDup_singleton.
  - rewrite length_app, Hsize. simpl. lia.
  - rewrite Hsize. lia.
  - intros x [Hx|Hx]%elem_of_app.
    + destruct (Hoq x) as [->|(k & c & Hk & Hc)]; [by right|by left|].
      right. exists k, c. split; [by apply lookup_app_l_Some|done].
    + right. exists (length (crawled_pages st)), r.
      split; [by apply list_lookup_middle|by apply Hnew].
  - intros j b [[Hj Hb]|[Hj Hb]]%lookup_snoc_Some; [|subst j b].
    + destruct (Hop j b Hb) as [->|(k & c & Hk & Hkc & Hc)]; [by left|].
      right. exists k, c. split_and!; [done|by apply lookup_app_l_Some|done].
    + rewrite Hr. destruct (Hoq u) as [->|(k & c & Hk & Hc)]; [by left|by left|].
      right. exists k, c.
      split_and!; [by eapply lookup_lt_Some|by apply lookup_app_l_Some|done].
  - intros x [[Hx|Hx]%elem_of_app|[Hx| ->%elem_of_singleton]%elem_of_union].
    + apply Hdom. left. by right.
    + right. destruct (Hnew x Hx) as [_ Hc].
      by eapply should_crawl_same_netloc.
    + apply Hdom. by right.
    + apply Hdom. left. by left.
  - intros c [Hc| ->%list_elem_of_singleton]%elem_of_app; [by apply Hres|].
    destruct Herr as [?|[? _]]; [by left|by right].
Qed.


Lemma reachable_inv st :
  reachable env start_url max_pages st -> crawl_inv start_url max_pages st.
Proof.
  induction 1 as [|st _ IH Hcond]; [apply crawl_inv_start|by apply crawl_inv_step].
Qed.

Lemma crawl_loop_reachable fuel st st' :
  reachable env start_url max_pages st ->
  crawl_loop env start_url max_pages fuel st = Some st' ->
  reachable env start_url max_pages st' /\ loop_cond max_pages st' = false.
Proof.
  intros Hst Hrun. split; [|by eapply while_loop_exit].
  revert Hrun. apply while_loop_invariant; [|done].
  intros s Hs Hc. by constructor.
Qed.

(** Each iteration marks one more URL, so the budget bounds the iterations. *)
Lemma crawl_loop_terminates fuel st :
  reachable env start_url max_pages st ->
  (max_pages <= Z.of_nat (size (visited st)) + Z.of_nat fuel)%Z ->
  exists st', crawl_loop env start_url max_pages fuel st = Some st'.
Proof.
  unfold crawl_loop. revert st. induction fuel as [|fuel IH]; intros st Hst Hfuel;
    cbn [while_loop]; destruct (loop_cond max_pages st) eqn:Hcond; eauto.
  - exfalso. unfold loop_cond in Hcond.
    apply andb_true_iff in Hcond as [_ Hlt%Z.ltb_lt]. lia.
  - apply IH; [by constructor|].
    pose proof (reachable_inv st Hst) as Hinv.
    destruct start_url_parsed as [ps Hps].
    pose proof Hcond as Hcond'. unfold loop_cond in Hcond'.
    apply andb_true_iff in Hcond' as [Hne _].
    destruct (to_visit st) as [|u rest] eqn:Hq; [done|].
    destruct (loop_body_shape ps st u rest Hps Hinv Hq)
      as (r & new & errs & doms & -> & _ & Hu & _).
    cbn [visited]. rewrite size_union by (by apply disjoint_singleton_r).
    rewrite size_singleton. lia.
Qed.

Lemma crawl_loop_from_start fuel :
  Z.to_nat max_pages <= fuel ->
  exists st,
    crawl_loop env start_url max_pages fuel (initial_state start_url) = Some st
    /\ reachable env start_url max_pages st
    /\ loop_cond max_pages st = false.
Proof.
  intros Hfuel.
  destruct (crawl_loop_terminates fuel (initial_state start_url)) as [st Hst].
  - constructor.
  - cbn [initial_state visited]. rewrite size_empty. lia.
  - exists st. split; [done|]. eapply crawl_loop_reachable; [constructor|done].
Qed.

End Crawl.

Section CrawlSite.
Context `{!UrlChecks} `{!PySet}.
Variable env : Env.
Variable start_url : string.
Variable max_pages : Z.
Hypothesis Hvalid : _is_valid_url start_url = true.

(** What [crawl_site] returns is read off a final state of the loop. *)
Lemma crawl_site_output fuel out :
  crawl_site env fuel start_url max_pages = Some out ->
  output_pages out = []
  \/ exists st,
       reachable env start_url (clamp_max_pages max_pages) st
       /\ loop_cond (clamp_max_pages max_pages) st = false
       /\ out = CrawlDone (summarise env st) (crawled_pages st).
Proof.
  unfold crawl_site, _crawl_with_playwright. rewrite Hvalid. cbn [negb].
  destruct (PLAYWRIGHT_AVAILABLE env); cbn [negb]; [|intros [= <-]; by left].
  destruct (launch_error env); [intros [= <-]; by left|].
  destruct (crawl_loop _ _ _ _ _) as [st|] eqn:Hrun; [|done].
  cbn [mbind option_bind].
  destruct (close_error env); intros [= <-]; [by left|].
  right. exists st.
  destruct (crawl_loop_reachable env start_url (clamp_max_pages max_pages) fuel
              (initial_state start_url) st) as [? ?];
    [constructor|done|done].
Qed.

(** With the browser session working, enough fuel gives the normal result. *)
Lemma crawl_site_done :
  PLAYWRIGHT_AVAILABLE env = true ->
  launch_error env = None -> close_error env = None ->
  exists st,
    reachable env start_url (clamp_max_pages max_pages) st
    /\ loop_cond (clamp_max_pages max_pages) st = false
    /\ forall fuel, Z.to_nat (clamp_max_pages max_pages) <= fuel ->
         crawl_site env fuel start_url max_pages
         = Some (CrawlDone (summarise env st) (crawled_pages st)).
Proof.
  intros Hpw Hlaunch Hclose.
  destruct (crawl_loop_from_start env start_url (clamp_max_pages max_pages) Hvalid
              (Z.to_nat (clamp_max_pages max_pages))) as (st & Hrun & Hreach & Hexit);
    [done|].
  exists st. split_and!; [done|done|].
  intros fuel Hfuel. unfold crawl_site, _crawl_with_playwright.
  rewrite Hvalid, Hpw, Hlaunch, Hclose. cbn [negb].
  unfold crawl_loop in *.
  rewrite (while_loop_fuel_mono _ _ _ fuel _ _ Hrun Hfuel). done.
Qed.

End CrawlSite.
End CrawlFacts.

(** ** More about the loop *)

Module CrawlExtraFacts.
Import PyStr UrlLib WebAudit CrawlFacts CrawlReport.

Section Links.
Context `{!UrlChecks} `{!PySet}.

Lemma collect_links_spec hrefs base acc l :
  l ∈ collect_links hrefs base acc ->
  l ∈ acc
  \/ (_is_valid_url l = true
      /\ exists href, href ∈ hrefs /\ is_empty href = false
                      /\ _normalize_url href base = Some l).
Proof.
  revert acc. induction hrefs as [|href hrefs IH]; intros acc; cbn [collect_links].
  - by left.
  - destruct (is_empty href) eqn:Hempty.
    + intros [?|(? & h & ? & ?)]%IH; [by left|].
      right. split; [done|]. exists h. split; [by right|done].
    + destruct (_normalize_url href base) as [n|] eqn:Hn; [|by left].
      intros [Hacc|(? & h & ? & ?)]%IH.
      * destruct (_is_valid_url n) eqn:Hv; [|by left].
        apply elem_of_app in Hacc as [?| ->%list_elem_of_singleton]; [by left|].
        right. split; [done|]. exists href. split; [by left|done].
      * right. split; [done|]. exists h. split; [by right|done].
Qed.

Lemma extract_links_spec hrefs base :
  NoDup (_extract_links_playwright hrefs base)
  /\ forall l, l ∈ _extract_links_playwright hrefs base ->
       _is_valid_url l = true
       /\ exists href, href ∈ hrefs /\ is_empty href = false
                       /\ _normalize_url href base = Some l.
Proof.
  unfold _extract_links_playwright. split.
  - rewrite set_to_list_perm. apply NoDup_elements.
  - intros l. rewrite set_to_list_perm, elem_of_elements, elem_of_list_to_set.
    intros [Hnil|?]%collect_links_spec; [|done]. by apply elem_of_nil in Hnil.
Qed.

End Links.

Section Crawl.
Context `{!UrlChecks} `{!PySet}.
Variable env : Env.
Variable start_url : string.
Variable max_pages : Z.
Hypothesis Hvalid : _is_valid_url start_url = true.

Lemma enqueue_links_complete page_links bd vis q :
  forall l,
    l ∈ q \/ (l ∈ page_links /\ _should_crawl_url l bd vis max_pages = true) ->
    l ∈ enqueue_links max_pages page_links bd vis q.
Proof.
  unfold enqueue_links. revert q.
  induction page_links as [|x xs IH]; intros q l; cbn [foldl].
  - intros [?|[Hin _]]; [done|]. by apply elem_of_nil in Hin.
  - intros [Hq|[Hin Hc]].
    + apply IH. left. destruct (_should_crawl_url x bd vis max_pages); [|done].
      case_bool_decide; [done|]. apply elem_of_app. by left.
    + apply elem_of_cons in Hin as [->|Hin].
      * apply IH. left. rewrite Hc. case_bool_decide; [done|].
        apply elem_of_app. right. by left.
      * apply IH. right. done.
Qed.

(** The two ways in which an iteration changes the state. *)
Lemma loop_body_cases ps st u rest :
  urlparse start_url "" = Some ps ->
  crawl_inv start_url max_pages st ->
  to_visit st = u :: rest ->
  (exists msg,
     loop_body env start_url max_pages st
     = mkState (visited st ∪ {[u]}) rest
         (crawled_pages st ++ [error_result u msg])
         (crawl_errors st ++ ["Error crawling " +:+ u +:+ ": " +:+ msg])
         (all_domains st))
  \/ (exists r parsed hrefs,
        urlparse u "" = Some parsed
        /\ url r = u /\ error r = None
        /\ links r = _extract_links_playwright hrefs u
        /\ loop_body env start_url max_pages st
           = mkState (visited st ∪ {[u]})
               (enqueue_links max_pages (links r) (base_domain_of ps)
                  (visited st ∪ {[u]}) rest)
               (crawled_pages st ++ [r]) (crawl_errors st)
               (all_domains st ∪ {[netloc parsed]})).
Proof.
  intros Hps Hinv Hq. unfold loop_body. rewrite Hq.
  rewrite bool_decide_eq_false_2
    by (apply (inv_fresh _ _ _ Hinv); rewrite Hq; by left).
  unfold visit_page. cbn [crawled_pages visited to_visit crawl_errors all_domains].
  destruct (browser env _ u) as [d|msg]; [|left; by exists msg].
  destruct (urlparse u "") as [parsed|] eqn:Hu; [|left; by eexists].
  rewrite Hps. right.
  exists (mkCrawlResult u
            (if is_empty (pd_title d) then "No Title" else pd_title d)
            (default 0%Z (pd_response_status d))
            (_extract_links_playwright (pd_hrefs d) u)
            (pd_resources d) (pd_meta d)
            (take 1000 (default "" (pd_body_text d))) None), parsed, (pd_hrefs d).
  by split_and!.
Qed.

Lemma visited_netloc ps st u :
  urlparse start_url "" = Some ps ->
  crawl_inv start_url max_pages st ->
  u ∈ to_visit st \/ u ∈ visited st ->
  forall parsed, urlparse u "" = Some parsed -> netloc parsed = netloc ps.
Proof.
  intros Hps Hinv Hu parsed Hparsed.
  destruct (inv_domain _ _ _ Hinv u Hu) as [->|(pu & ps' & ? & ? & ?)]; congruence.
Qed.

Lemma same_netloc_should_crawl ps l (vis : gset string) :
  urlparse start_url "" = Some ps ->
  same_netloc l start_url -> l ∉ vis ->
  (Z.of_nat (size vis) < max_pages)%Z ->
  _should_crawl_url l (base_domain_of ps) vis max_pages = true.
Proof.
  intros Hps (pl & ps' & Hpl & Hps' & Hnet) Hl Hsize.
  assert (ps' = ps) as -> by congruence.
  destruct (UrlFacts.valid_url_inv start_url Hvalid) as (p & Hp & _ & Hne).
  assert (p = ps) as -> by congruence.
  unfold _should_crawl_url.
  assert (is_empty l = false) as ->.
  { destruct l; [|done]. vm_compute in Hpl. injection Hpl as <-.
    cbn [netloc] in Hnet. by rewrite <- Hnet in Hne. }
  rewrite bool_decide_eq_false_2 by done. cbn [orb].
  assert ((max_pages <=? Z.of_nat (size vis))%Z = false) as ->
    by (apply Z.leb_gt; lia).
  rewrite Hpl.
  destruct (UrlFacts.base_domain_roundtrip start_url ps Hvalid Hps)
    as (pb & -> & Hpb).
  apply String.eqb_eq. congruence.
Qed.

(** What holds, beside [crawl_inv], each time the loop condition is
    evaluated. *)
Lemma reachable_report ps st :
  urlparse start_url "" = Some ps ->
  reachable env start_url max_pages st ->
  crawl_errors st = omap error_line (crawled_pages st)
  /\ (forall d, d ∈ all_domains st <->
        d = netloc ps /\ exists c, c ∈ crawled_pages st /\ error c = None)
  /\ (forall u, u ∈ to_visit st \/ u ∈ visited st -> _is_valid_url u = true)
  /\ (forall c, c ∈ crawled_pages st ->
        NoDup (links c) /\ forall l, l ∈ links c -> _is_valid_url l = true)
  /\ ((Z.of_nat (size (visited st)) < max_pages)%Z ->
      forall c l, c ∈ crawled_pages st -> l ∈ links c ->
        same_netloc l start_url -> l ∈ visited st \/ l ∈ to_visit st)
  /\ ((crawled_pages st = [] /\ to_visit st = [start_url] /\ visited st = ∅)
      \/ exists c rest, crawled_pages st = c :: rest /\ url c = start_url).
Proof.
  intros Hps. induction 1 as [|st Hst IH Hcond].
  - cbn [initial_state crawl_errors crawled_pages all_domains to_visit visited].
    split_and!.
    + done.
    + intros d. split; [by intros ?%not_elem_of_empty|].
      intros (_ & c & ?%elem_of_nil & _). done.
    + intros u [->%list_elem_of_singleton|?%not_elem_of_empty]; done.
    + intros c ?%elem_of_nil. done.
    + intros _ c l ?%elem_of_nil. done.
    + by left.
  - pose proof (reachable_inv env start_url max_pages Hvalid st Hst) as Hinv.
    destruct IH as (Herr & Hdom & Hval & Hlinks & Hcomplete & Hfirst).
    pose proof Hcond as Hcond'. unfold loop_cond in Hcond'.
    apply andb_true_iff in Hcond' as [Hne Hlt%Z.ltb_lt].
    destruct (to_visit st) as [|u rest] eqn:Hq; [done|]. clear Hne.
    assert (u ∉ visited st) as Hu
      by (apply (inv_fresh _ _ _ Hinv); rewrite Hq; by left).
    assert (size (visited st ∪ {[u]}) = S (size (visited st))) as Hsize.
    { rewrite size_union by (by apply disjoint_singleton_r).
      rewrite size_singleton. lia. }
    assert (_is_valid_url u = true) as Huvalid by (apply Hval; left; by left).
    assert (forall c rest', crawled_pages st ++ [c] = c :: rest' ->
              url c = u -> url c = start_url) as Hhead.
    { intros c rest' Heq Hc.
      destruct Hfirst as [(Hnil & Hq' & _)|(c0 & r0 & Hp & Hc0)].
      - congruence.
      - rewrite Hp in Heq. cbn in Heq. injection Heq as -> _. done. }
    assert ((crawled_pages st = []
             /\ forall c, exists rest', crawled_pages st ++ [c] = c :: rest')
            \/ exists c0 rest0, crawled_pages st = c0 :: rest0
                                /\ url c0 = start_url) as Hfirst'.
    { destruct Hfirst as [(Hnil & _)|?]; [left|by right].
      split; [done|]. intros c. exists []. by rewrite Hnil. }
    destruct (loop_body_cases ps st u rest Hps Hinv Hq)
      as [(msg & ->)|(r & parsed & hrefs & Hparsed & Hr & Hnoerr & Hrl & ->)];
      cbn [crawl_errors crawled_pages all_domains to_visit visited].
    + (* the page failed *)
      split_and!.
      * rewrite omap_app, <- Herr. done.
      * intros d. rewrite Hdom. split; intros (? & c & Hc & ?); (split; [done|]);
          exists c; (split; [|done]).
        -- apply elem_of_app. by left.
        -- apply elem_of_app in Hc as [?| ->%list_elem_of_singleton]; done.
      * intros x [Hx|[Hx| ->%elem_of_singleton]%elem_of_union]; [| |done].
        -- apply Hval. left. by right.
        -- apply Hval. by right.
      * intros c [Hc| ->%list_elem_of_singleton]%elem_of_app; [by apply Hlinks|].
        split; [apply NoDup_nil_2|]. intros l ?%elem_of_nil. done.
      * rewrite Hsize. intros Hlt' c l [Hc| ->%list_elem_of_singleton]%elem_of_app Hl Hs;
          [|by apply elem_of_nil in Hl].
        destruct (Hcomplete ltac:(lia) c l Hc Hl Hs) as [?|[->|?]%elem_of_cons].
        -- left. apply elem_of_union. by left.
        -- left. apply elem_of_union. right. by apply elem_of_singleton.
        -- by right.
      * right. destruct Hfirst' as [(Hnil & Hsing)|(c0 & r0 & -> & ?)].
        -- destruct (Hsing (error_result u msg)) as [rest' Heq].
           exists (error_result u msg), rest'. split; [done|].
           by apply (Hhead _ rest').
        -- by exists c0, (r0 ++ [error_result u msg]).
    + (* the page was rendered *)
      destruct (extract_links_spec hrefs u) as [Hnd Hvalid_links].
      rewrite <- Hrl in Hnd, Hvalid_links.
      split_and!.
      * rewrite omap_app, <- Herr. cbn [omap list_omap]. unfold error_line.
        rewrite Hnoerr. cbn. by rewrite app_nil_r.
      * intros d. rewrite elem_of_union, Hdom, elem_of_singleton.
        assert (u ∈ to_visit st \/ u ∈ visited st) as Huq
          by (left; rewrite Hq; by left).
        rewrite (visited_netloc ps st u Hps Hinv Huq parsed Hparsed).
        split.
        -- intros [(? & c & Hc & ?)| ->]; (split; [done|]).
           ++ exists c. split; [|done]. apply elem_of_app. by left.
           ++ exists r. split; [|done]. apply elem_of_app. right. by left.
        -- intros (-> & _). by right.
      * intros x [Hx|[Hx| ->%elem_of_singleton]%elem_of_union]; [| |done].
        -- destruct (enqueue_links_spec max_pages (links r) (base_domain_of ps)
                       (visited st ∪ {[u]}) rest) as (new & Henq & Hnew & _).
           rewrite Henq in Hx. apply elem_of_app in Hx as [Hx|Hx].
           ++ apply Hval. left. by right.
           ++ apply Hvalid_links. by apply Hnew.
        -- apply Hval. by right.
      * intros c [Hc| ->%list_elem_of_singleton]%elem_of_app; [by apply Hlinks|].
        split; [done|]. intros l Hl. by apply Hvalid_links.
      * rewrite Hsize. intros Hlt' c l Hc Hl Hs.
        destruct (decide (l ∈ visited st ∪ {[u]})) as [?|Hnv]; [by left|].
        right. apply enqueue_links_complete.
        apply elem_of_app in Hc as [Hc| ->%list_elem_of_singleton].
        -- left. destruct (Hcomplete ltac:(lia) c l Hc Hl Hs) as [?|[->|?]%elem_of_cons];
             [|exfalso; apply Hnv|done].
           ++ exfalso. apply Hnv. apply elem_of_union. by left.
           ++ apply elem_of_union. right. by apply elem_of_singleton.
        -- right. split; [done|].
           apply same_netloc_should_crawl; [done|done|done|]. rewrite Hsize. lia.
      * right. destruct Hfirst' as [(Hnil & Hsing)|(c0 & r0 & -> & ?)].
        -- destruct (Hsing r) as [rest' Heq]. exists r, rest'. split; [done|].
           by apply (Hhead _ rest').
        -- by exists c0, (r0 ++ [r]).
Qed.

End Crawl.
End CrawlExtraFacts.


(** ** The queue discipline *)

Module CrawlOrderFacts.
Import PyStr UrlLib WebAudit CrawlFacts CrawlReport CrawlExtraFacts CrawlOrder.

Lemma filter_ext_elem {A : Type} (P Q : A -> Prop)
    `{!forall x, Decision (P x)} `{!forall x, Decision (Q x)} (l : list A) :
  (forall x, x ∈ l -> (P x <-> Q x)) -> filter P l = filter Q l.
Proof.
  induction l as [|a l IH]; intros Hext; [done|].
  rewrite !filter_cons.
  rewrite IH by (intros x Hx; apply Hext; by right).
  destruct (decide (P a)) as [Hp|Hp], (decide (Q a)) as [Hq|Hq]; try done;
    exfalso; [apply Hq|apply Hp]; by apply (Hext a); [left|].
Qed.

Lemma first_link_unique pages u k k' :
  first_link pages u k -> first_link pages u k' -> k = k'.
Proof.
  intros [(c & Hc & Hu) Hmin] [(c' & Hc' & Hu') Hmin'].
  pose proof (Hmin k' c' Hc' Hu'). pose proof (Hmin' k c Hc Hu). lia.
Qed.

Lemma first_link_snoc pages r u k :
  first_link pages u k -> first_link (pages ++ [r]) u k.
Proof.
  intros [(c & Hc & Hu) Hmin]. split.
  - exists c. split; [|done]. by apply lookup_app_l_Some.
  - intros k' c' Hk' Hu'.
    apply lookup_app_Some in Hk' as [Hk'|[Hge _]]; [by apply (Hmin k' c')|].
    apply lookup_lt_Some in Hc. lia.
Qed.

Section Order.
Context `{!UrlChecks} `{!PySet}.
Variable env : Env.
Variable start_url : string.
Variable max_pages : Z.
Hypothesis Hvalid : _is_valid_url start_url = true.

(** The enqueue loop appends exactly the links that pass the test and do
    not wait yet, in the order of the page's list. *)
Lemma enqueue_links_exact page_links bd vis q :
  NoDup page_links ->
  enqueue_links max_pages page_links bd vis q
  = q ++ enqueued max_pages page_links bd vis q.
Proof.
  unfold enqueue_links, enqueued. revert q.
  induction page_links as [|l ls IH]; intros q Hnd; cbn [foldl].
  { by rewrite filter_nil, app_nil_r. }
  apply NoDup_cons in Hnd as [Hl Hnd].
  rewrite filter_cons.
  destruct (_should_crawl_url l bd vis max_pages) eqn:Hc.
  - case_bool_decide as Hin.
    + rewrite decide_False by (by intros [_ ?]). by apply IH.
    + rewrite decide_True by done. rewrite IH by done.
      rewrite <- app_assoc. cbn [app]. do 2 f_equal.
      apply filter_ext_elem. intros x Hx. rewrite not_elem_of_app.
      split; [intros (? & ? & _); done|]. intros [? ?]. split_and!; [done..|].
      intros ->%list_elem_of_singleton. done.
  - rewrite decide_False by (intros [? _]; congruence). by apply IH.
Qed.

(** One iteration, with the frontier that it leaves. *)
Lemma loop_body_step ps st u rest :
  urlparse start_url "" = Some ps ->
  crawl_inv start_url max_pages st ->
  to_visit st = u :: rest ->
  exists r errs doms,
    loop_body env start_url max_pages st
    = mkState (visited st ∪ {[u]})
        (rest ++ enqueued max_pages (links r) (base_domain_of ps)
                   (visited st ∪ {[u]}) rest)
        (crawled_pages st ++ [r]) errs doms
    /\ url r = u
    /\ (match browser env (length (crawled_pages st)) u with
        | RenderError msg => r = error_result u msg
        | RenderOk _ => True
        end).
Proof.
  intros Hps Hinv Hq.
  assert (match browser env (length (crawled_pages st)) u with
          | RenderError msg =>
              loop_body env start_url max_pages st
              = mkState (visited st ∪ {[u]}) rest
                  (crawled_pages st ++ [error_result u msg])
                  (crawl_errors st ++ ["Error crawling " +:+ u +:+ ": " +:+ msg])
                  (all_domains st)
          | RenderOk _ => True
          end) as Hfail.
  { destruct (browser env _ u) as [d|msg] eqn:Hb; [done|].
    unfold loop_body. rewrite Hq.
    rewrite bool_decide_eq_false_2
      by (apply (inv_fresh _ _ _ Hinv); rewrite Hq; by left).
    unfold visit_page. cbn [crawled_pages]. by rewrite Hb. }
  destruct (browser env (length (crawled_pages st)) u) as [d|msg0] eqn:Hb.
  - destruct (loop_body_cases env start_url max_pages ps st u rest Hps Hinv Hq)
      as [(msg & ->)|(r & parsed & hrefs & Hparsed & Hr & Hnoerr & Hrl & ->)].
    + eexists (error_result u msg), _, _. split_and!; [|done|done].
      cbn [links error_result]. unfold enqueued.
      rewrite filter_nil, app_nil_r. reflexivity.
    + eexists r, _, _. split_and!; [|done|done].
      rewrite enqueue_links_exact; [reflexivity|].
      rewrite Hrl. apply (extract_links_spec hrefs u).
  - rewrite Hfail. eexists (error_result u msg0), _, _.
    split_and!; [|done|done].
    cbn [links error_result]. unfold enqueued.
    rewrite filter_nil, app_nil_r. reflexivity.
Qed.

Lemma order_inv_start : order_inv start_url (initial_state start_url).
Proof.
  split; unfold discovered; cbn [initial_state crawled_pages to_visit fmap
                                 list_fmap app].
  - intros p x Hp Hx. apply list_lookup_singleton_Some in Hp as [_ <-]. done.
  - intros p q x y kx ky Hp _ Hx. apply list_lookup_singleton_Some in Hp as [_ <-].
    done.
Qed.

Lemma order_inv_step st :
  reachable env start_url max_pages st ->
  loop_cond max_pages st = true ->
  order_inv start_url st ->
  order_inv start_url (loop_body env start_url max_pages st).
Proof.
  intros Hst Hcond [Hparent Hlevel].
  pose proof (reachable_inv env start_url max_pages Hvalid st Hst) as Hinv.
  destruct (start_url_parsed start_url Hvalid) as [ps Hps].
  destruct (reachable_report env start_url max_pages Hvalid ps st Hps Hst)
    as (_ & _ & _ & _ & Hcomplete & _).
  unfold loop_cond in Hcond. apply andb_true_iff in Hcond as [Hne Hlt%Z.ltb_lt].
  destruct (to_visit st) as [|u rest] eqn:Hq; [done|]. clear Hne.
  specialize (Hcomplete Hlt).
  destruct (loop_body_step ps st u rest Hps Hinv Hq)
    as (r & errs & doms & -> & Hr & _).
  set (new := enqueued max_pages (links r) (base_domain_of ps)
                (visited st ∪ {[u]}) rest).
  set (pages := crawled_pages st) in *.
  set (n := length pages).
  assert (discovered (mkState (visited st ∪ {[u]}) (rest ++ new) (pages ++ [r])
                        errs doms)
          = discovered st ++ new) as HD.
  { unfold discovered. cbn [crawled_pages to_visit]. fold pages.
    rewrite Hq, fmap_app. cbn [fmap list_fmap]. rewrite Hr.
    rewrite <- !app_assoc. done. }
  assert (length (discovered st) = S (n + length rest)) as HlenD.
  { unfold discovered. fold pages. rewrite Hq, length_app, length_fmap.
    cbn [length]. fold n. lia. }
  assert (forall y, y ∈ new -> first_link (pages ++ [r]) y n) as Hnew.
  { intros y [[Hc Hrest] Hy]%list_elem_of_filter.
    pose proof (should_crawl_not_visited max_pages _ _ _ Hc) as Hnv.
    pose proof (should_crawl_same_netloc start_url max_pages Hvalid _ _ _ Hps Hc)
      as Hsame.
    split.
    - exists r. split; [|done]. unfold n. by rewrite lookup_app_r, Nat.sub_diag.
    - intros k' c' Hk' Hy'.
      apply lookup_app_Some in Hk' as [Hk'|[Hge _]]; [|done].
      exfalso. apply list_elem_of_lookup_2 in Hk'.
      destruct (Hcomplete c' y Hk' Hy' Hsame) as [Hv|Hv].
      + apply Hnv. apply elem_of_union. by left.
      + apply elem_of_cons in Hv as [->|Hv]; [|done].
        apply Hnv. apply elem_of_union. right. by apply elem_of_singleton. }
  assert (forall p x, (discovered st ++ new) !! p = Some x -> x <> start_url ->
            (p < length (discovered st) /\ discovered st !! p = Some x
             /\ exists k, k < n /\ k < p /\ first_link pages x k
                          /\ first_link (pages ++ [r]) x k)
            \/ (length (discovered st) <= p /\ first_link (pages ++ [r]) x n))
    as Hcase.
  { intros p x Hp Hx. apply lookup_app_Some in Hp as [Hp|[Hge Hp]].
    - left. destruct (Hparent p x Hp Hx) as (k & Hk & Hkp & Hfirst).
      split_and!; [by eapply lookup_lt_Some|done|].
      exists k. split_and!; [done|done|done|by apply first_link_snoc].
    - right. split; [done|]. apply Hnew. by eapply list_elem_of_lookup_2. }
  split; rewrite HD; cbn [crawled_pages].
  - intros p x Hp Hx. rewrite length_app. cbn [length]. fold n.
    destruct (Hcase p x Hp Hx) as [(_ & _ & k & ? & ? & _ & ?)|[Hge Hfirst]].
    + exists k. split_and!; [lia|done|done].
    + exists n. split_and!; [lia|lia|done].
  - intros p q x y kx ky Hp Hqy Hx Hy Hkx Hky Hpq.
    destruct (Hcase q y Hqy Hy)
      as [(Hlt_q & Hqy' & k2 & ? & ? & Hf2 & Hf2')|[Hge2 Hf2]].
    + destruct (Hcase p x Hp Hx)
        as [(_ & Hp' & k1 & ? & ? & Hf1 & Hf1')|[Hge1 _]]; [|lia].
      rewrite (first_link_unique _ _ _ _ Hkx Hf1').
      rewrite (first_link_unique _ _ _ _ Hky Hf2').
      by apply (Hlevel p q x y).
    + rewrite (first_link_unique _ _ _ _ Hky Hf2).
      destruct (Hcase p x Hp Hx) as [(_ & _ & k1 & ? & _ & _ & Hf1')|[_ Hf1]].
      * rewrite (first_link_unique _ _ _ _ Hkx Hf1'). lia.
      * by rewrite (first_link_unique _ _ _ _ Hkx Hf1).
Qed.

Lemma reachable_order st :
  reachable env start_url max_pages st -> order_inv start_url st.
Proof.
  induction 1 as [|st Hst IH Hcond];
    [apply order_inv_start|by apply order_inv_step].
Qed.

(** The pages of a state are crawled level by level. *)
Lemma reachable_level_order st :
  reachable env start_url max_pages st ->
  level_order start_url (crawled_pages st).
Proof.
  intros Hst i j a b ka kb Hi Hj Ha Hb Hka Hkb Hlt.
  destruct (reachable_order st Hst) as [_ Hlevel].
  assert (forall k c, crawled_pages st !! k = Some c ->
            discovered st !! k = Some (url c)) as Hpos.
  { intros k c Hk. unfold discovered. apply lookup_app_l_Some.
    by rewrite list_lookup_fmap, Hk. }
  destruct (Nat.lt_trichotomy i j) as [?|[->|Hji]]; [done| |].
  - assert (a = b) as -> by congruence.
    pose proof (first_link_unique _ _ _ _ Hka Hkb). lia.
  - pose proof (Hlevel j i (url b) (url a) kb ka (Hpos _ _ Hj) (Hpos _ _ Hi)
                  Hb Ha Hkb Hka Hji). lia.
Qed.

(** The run of the loop passes through every reachable state. *)
Lemma steps_snoc s st :
  steps env start_url max_pages s st -> loop_cond max_pages st = true ->
  steps env start_url max_pages s (loop_body env start_url max_pages st).
Proof.
  induction 1 as [st|s st Hc _ IH]; intros Hcond.
  - apply steps_iter; [done|apply steps_refl].
  - apply steps_iter; [done|by apply IH].
Qed.

Lemma reachable_steps st :
  reachable env start_url max_pages st ->
  steps env start_url max_pages (initial_state start_url) st.
Proof.
  induction 1 as [|st _ IH Hcond]; [apply steps_refl|by apply steps_snoc].
Qed.

Lemma steps_to_final s st fin :
  steps env start_url max_pages s st ->
  steps env start_url max_pages s fin -> loop_cond max_pages fin = false ->
  steps env start_url max_pages st fin.
Proof.
  induction 1 as [st|s st Hc _ IH]; intros Hfin Hexit; [done|].
  apply IH; [|done]. inversion Hfin as [|? ? _ Hrest]; subst; [congruence|done].
Qed.

Lemma steps_pages st st' :
  reachable env start_url max_pages st ->
  steps env start_url max_pages st st' ->
  crawled_pages st `prefix_of` crawled_pages st'.
Proof.
  intros Hst Hsteps. induction Hsteps as [st|st st' Hc _ IH]; [done|].
  transitivity (crawled_pages (loop_body env start_url max_pages st));
    [|apply IH; by constructor].
  pose proof (reachable_inv env start_url max_pages Hvalid st Hst) as Hinv.
  destruct (start_url_parsed start_url Hvalid) as [ps Hps].
  pose proof Hc as Hc'. unfold loop_cond in Hc'.
  apply andb_true_iff in Hc' as [Hne _].
  destruct (to_visit st) as [|u rest] eqn:Hq; [done|].
  destruct (loop_body_step ps st u rest Hps Hinv Hq) as (r & ? & ? & -> & _).
  cbn [crawled_pages]. by apply prefix_app_r.
Qed.

(** The pages of a reachable state stay, in place, in the final result. *)
Lemma reachable_pages_final st fin :
  reachable env start_url max_pages st ->
  reachable env start_url max_pages fin -> loop_cond max_pages fin = false ->
  crawled_pages st `prefix_of` crawled_pages fin.
Proof.
  intros Hst Hfin Hexit. apply steps_pages; [done|].
  apply (steps_to_final (initial_state start_url));
    [by apply reachable_steps..|done].
Qed.

End Order.
End CrawlOrderFacts.


(** * The crawler claims *)

Module CrawlClaims.
Import PyStr UrlLib WebAudit CrawlFacts CrawlOrder CrawlOrderFacts.

Section Claims.
Context `{!UrlChecks} `{!PySet}.
Variable env : Env.
Variable start_url : string.
Variable max_pages : Z.

(** C1, as amended.  For a crawl that [crawl_site] runs on a valid URL with a
    working browser session: whenever the loop condition is evaluated the
    number of visited URLs is at most max(max_pages, 0); the loop ends, and
    for the state [st] it ends in, [crawl_site] returns the pages of [st],
    one per visited URL, so that len(pages) = |visited| <= max(max_pages, 0)
    and summary.total_pages = len(pages). *)
Theorem crawl_page_budget :
  _is_valid_url start_url = true ->
  PLAYWRIGHT_AVAILABLE env = true ->
  launch_error env = None -> close_error env = None ->
  (forall st, reachable env start_url (clamp_max_pages max_pages) st ->
     (Z.of_nat (size (visited st)) <= Z.max max_pages 0)%Z)
  /\ exists st summary pages,
       reachable env start_url (clamp_max_pages max_pages) st
       /\ loop_cond (clamp_max_pages max_pages) st = false
       /\ (forall fuel, Z.to_nat (clamp_max_pages max_pages) <= fuel ->
             crawl_site env fuel start_url max_pages
             = Some (CrawlDone summary pages))
       /\ pages = crawled_pages st
       /\ (forall u, u ∈ visited st <-> u ∈ url <$> pages)
       /\ NoDup (url <$> pages)
       /\ length pages = size (visited st)
       /\ (Z.of_nat (size (visited st)) <= Z.max max_pages 0)%Z
       /\ total_pages summary = length pages.
Proof.
  intros Hvalid Hpw Hlaunch Hclose.
  assert (forall st, reachable env start_url (clamp_max_pages max_pages) st ->
            (Z.of_nat (size (visited st)) <= Z.max max_pages 0)%Z) as Hbudget.
  { intros st Hst%reachable_inv; [|done].
    pose proof (inv_budget _ _ _ Hst) as Hb. unfold clamp_max_pages in Hb.
    destruct (100 <? max_pages)%Z eqn:Hc; [apply Z.ltb_lt in Hc|]; lia. }
  split; [done|].
  destruct (crawl_site_done env start_url max_pages Hvalid Hpw Hlaunch Hclose)
    as (st & Hreach & Hexit & Hout).
  pose proof (reachable_inv env start_url _ Hvalid st Hreach) as Hinv.
  exists st, (summarise env st), (crawled_pages st).
  split_and!; try done.
  - apply (inv_pages _ _ _ Hinv).
  - apply (inv_pages_nodup _ _ _ Hinv).
  - apply (inv_count _ _ _ Hinv).
  - by apply Hbudget.
Qed.

(** C2.  During a crawl from a valid start URL, every URL of the frontier
    other than the start URL has exactly the netloc of the start URL; a URL
    whose netloc is not that of the start URL is never in the frontier, never
    visited and never the URL of a recorded page. *)
Theorem crawl_same_domain :
  _is_valid_url start_url = true ->
  forall st, reachable env start_url (clamp_max_pages max_pages) st ->
    (forall u, u ∈ to_visit st -> u <> start_url ->
       exists pu ps,
         urlparse u "" = Some pu /\ urlparse start_url "" = Some ps
         /\ netloc pu = netloc ps)
    /\ (forall link, ~ same_netloc link start_url ->
          (link ∉ to_visit st) /\ (link ∉ visited st)
          /\ (link ∉ url <$> crawled_pages st)).
Proof.
  intros Hvalid st Hst%reachable_inv; [|done].
  pose proof (inv_domain _ _ _ Hst) as Hdom.
  assert (same_netloc start_url start_url) as Hself.
  { destruct (UrlFacts.valid_url_inv start_url Hvalid) as (ps & Hps & _).
    by exists ps, ps. }
  split.
  - intros u Hu Hne. destruct (Hdom u) as [?|?]; [by left|done|done].
  - intros link Hlink.
    assert (link ∉ visited st) as Hv.
    { intros Hin. destruct (Hdom link) as [->|?]; [by right|done|done]. }
    split_and!; [|done|by rewrite <- (inv_pages _ _ _ Hst)].
    intros Hin. destruct (Hdom link) as [->|?]; [by left|done|done].
Qed.

(** C3.  The frontier is a first-in first-out queue.  An iteration takes the
    URL at the front, marks it, records its result at the end of the results
    and appends at the back exactly the links of that page, in the order of
    the page's list, that pass [_should_crawl_url] and do not wait already.
    So the URLs are crawled in the order in which they were found: the list
    of the crawled and the waiting URLs only grows at its end.  Hence the
    traversal is breadth-first: a page other than the start page comes after
    some page that links to it; if only page A links to B, then B comes after
    A; and a page whose first linking page comes earlier is crawled earlier.
    The same holds for the pages that [crawl_site] returns. *)
Theorem crawl_breadth_first :
  _is_valid_url start_url = true ->
  let budget := clamp_max_pages max_pages in
  let ordered (pages : list CrawlResult) :=
    (forall j b, pages !! j = Some b -> url b <> start_url ->
       exists i a, i < j /\ pages !! i = Some a /\ url b ∈ links a)
    /\ (forall i j a b,
          pages !! i = Some a -> pages !! j = Some b -> url b <> start_url ->
          (forall k c, pages !! k = Some c -> url b ∈ links c -> k = i) ->
          i < j)
    /\ level_order start_url pages in
  exists ps,
    urlparse start_url "" = Some ps
    /\ (forall st, reachable env start_url budget st ->
          ordered (crawled_pages st)
          /\ (forall u rest,
                to_visit st = u :: rest ->
                let st' := loop_body env start_url budget st in
                exists r,
                  let new :=
                    enqueued budget (links r) (base_domain_of ps)
                      (visited st ∪ {[u]}) rest in
                  url r = u
                  /\ visited st' = visited st ∪ {[u]}
                  /\ crawled_pages st' = crawled_pages st ++ [r]
                  /\ to_visit st' = rest ++ new
                  /\ discovered st' = discovered st ++ new))
    /\ (forall fuel out,
          crawl_site env fuel start_url max_pages = Some out ->
          ordered (output_pages out))
    /\ (PLAYWRIGHT_AVAILABLE env = true ->
        launch_error env = None -> close_error env = None ->
        exists summary pages,
          (forall fuel, Z.to_nat budget <= fuel ->
             crawl_site env fuel start_url max_pages
             = Some (CrawlDone summary pages))
          /\ ordered pages).
Proof.
  intros Hvalid budget ordered.
  destruct (start_url_parsed start_url Hvalid) as [ps Hps].
  assert (forall st, reachable env start_url budget st ->
            ordered (crawled_pages st)) as Hord.
  { intros st Hreach.
    pose proof (reachable_inv env start_url budget Hvalid st Hreach) as Hst.
    assert (forall j b, crawled_pages st !! j = Some b -> url b <> start_url ->
              exists i a, i < j /\ crawled_pages st !! i = Some a
                          /\ url b ∈ links a) as Hpred.
    { intros j b Hj Hne.
      destruct (inv_origin_pages _ _ _ Hst j b Hj) as [?|(k & c & ? & ? & ?)];
        [done|by exists k, c]. }
    split_and!;
      [done| |by apply (reachable_level_order env start_url budget Hvalid)].
    intros i j a b Hi Hj Hne Honly.
    destruct (Hpred j b Hj Hne) as (k & c & Hk & Hc & Hin).
    by rewrite <- (Honly k c Hc Hin). }
  exists ps. split_and!; [done| | |].
  - intros st Hst. split; [by apply Hord|].
    intros u rest Hq st'.
    destruct (loop_body_step env start_url budget ps st u rest Hps
                (reachable_inv env start_url budget Hvalid st Hst) Hq)
      as (r & errs & doms & Hbody & Hr & _).
    exists r. unfold st'. rewrite Hbody. cbn [visited crawled_pages to_visit].
    split_and!; [done|done|done|done|].
    unfold discovered. cbn [crawled_pages to_visit].
    rewrite Hq, fmap_app. cbn [fmap list_fmap]. rewrite Hr.
    by rewrite <- !app_assoc.
  - intros fuel out Hout.
    destruct (crawl_site_output env start_url max_pages Hvalid fuel out Hout)
      as [->|(st & Hst & _ & ->)]; [|by apply Hord].
    split_and!; [intros *; by rewrite lookup_nil..|].
    intros i j a b ka kb Hi. by rewrite lookup_nil in Hi.
  - intros Hpw Hlaunch Hclose.
    destruct (crawl_site_done env start_url max_pages Hvalid Hpw Hlaunch Hclose)
      as (st & Hst & _ & Hout).
    exists (summarise env st), (crawled_pages st). split; [done|by apply Hord].
Qed.

(** C4.  When loading the page at the front of the frontier fails, the
    iteration marks the URL as visited, appends a result that carries the
    error text and no links, resources, metadata or text, logs the error and
    leaves the rest of the frontier to the next iterations.  Every recorded
    page, and every page that [crawl_site] returns, either has no error or
    is such an error result; page failures never produce a top-level error.
    The crawl goes on after a failure: when another URL waits and the budget
    is not used up, the next iteration takes that URL, and its result follows
    the error result in the pages that [crawl_site] returns. *)
Theorem crawl_page_failure :
  _is_valid_url start_url = true ->
  let budget := clamp_max_pages max_pages in
  (forall st u rest msg,
     reachable env start_url budget st ->
     to_visit st = u :: rest ->
     browser env (length (crawled_pages st)) u = RenderError msg ->
     loop_body env start_url budget st
     = mkState (visited st ∪ {[u]}) rest
         (crawled_pages st
          ++ [mkCrawlResult u "Error" 0 [] [] [] "" (Some msg)])
         (crawl_errors st ++ ["Error crawling " +:+ u +:+ ": " +:+ msg])
         (all_domains st))
  /\ (forall st c,
        reachable env start_url budget st ->
        c ∈ crawled_pages st ->
        error c = None
        \/ (is_Some (error c) /\ links c = [] /\ resources c = []
            /\ meta_data c = [] /\ text_content c = ""))
  /\ (forall fuel out c,
        crawl_site env fuel start_url max_pages = Some out ->
        c ∈ output_pages out ->
        error c = None
        \/ (is_Some (error c) /\ links c = [] /\ resources c = []
            /\ meta_data c = [] /\ text_content c = ""))
  /\ (PLAYWRIGHT_AVAILABLE env = true ->
      launch_error env = None -> close_error env = None ->
      exists fin,
        reachable env start_url budget fin
        /\ loop_cond budget fin = false
        /\ forall fuel, Z.to_nat budget <= fuel ->
             exists out,
               crawl_site env fuel start_url max_pages = Some out
               /\ top_error out = None
               /\ output_pages out = crawled_pages fin)
  /\ (forall st u v rest msg,
        reachable env start_url budget st ->
        to_visit st = u :: v :: rest ->
        browser env (length (crawled_pages st)) u = RenderError msg ->
        (Z.of_nat (size (visited st)) + 1 < budget)%Z ->
        let failed := mkCrawlResult u "Error" 0 [] [] [] "" (Some msg) in
        let st1 := loop_body env start_url budget st in
        loop_cond budget st1 = true
        /\ exists next,
             url next = v
             /\ crawled_pages (loop_body env start_url budget st1)
                = crawled_pages st ++ [failed; next]
             /\ forall fin,
                  reachable env start_url budget fin ->
                  loop_cond budget fin = false ->
                  exists later,
                    crawled_pages fin
                    = crawled_pages st ++ [failed; next] ++ later).
Proof.
  intros Hvalid budget.
  assert (forall st u rest msg,
            reachable env start_url budget st ->
            to_visit st = u :: rest ->
            browser env (length (crawled_pages st)) u = RenderError msg ->
            loop_body env start_url budget st
            = mkState (visited st ∪ {[u]}) rest
                (crawled_pages st
                 ++ [mkCrawlResult u "Error" 0 [] [] [] "" (Some msg)])
                (crawl_errors st ++ ["Error crawling " +:+ u +:+ ": " +:+ msg])
                (all_domains st)) as Hfail.
  { intros st u rest msg Hst%reachable_inv Hq Hb; [|done].
    unfold loop_body. rewrite Hq.
    rewrite bool_decide_eq_false_2.
    + unfold visit_page. cbn [crawled_pages]. by rewrite Hb.
    + apply (inv_fresh _ _ _ Hst). rewrite Hq. by left. }
  split_and!.
  - done.
  - intros st c Hst%reachable_inv Hc; [|done].
    by apply (inv_results _ _ _ Hst).
  - intros fuel out c Hout Hc.
    destruct (crawl_site_output env start_url max_pages Hvalid fuel out Hout)
      as [Hnil|(st & Hst%reachable_inv & _ & ->)]; [| |done].
    + rewrite Hnil in Hc. by apply elem_of_nil in Hc.
    + by apply (inv_results _ _ _ Hst).
  - intros Hpw Hlaunch Hclose.
    destruct (crawl_site_done env start_url max_pages Hvalid Hpw Hlaunch Hclose)
      as (st & Hreach & Hexit & Hout).
    exists st. split_and!; [done|done|].
    intros fuel Hfuel. eexists. split; [by apply Hout|done].
  - intros st u v rest msg Hst Hq Hb Hbudget failed st1.
    pose proof (reachable_inv env start_url budget Hvalid st Hst) as Hinv.
    assert (u ∉ visited st) as Hu
      by (apply (inv_fresh _ _ _ Hinv); rewrite Hq; by left).
    assert (loop_cond budget st = true) as Hcond.
    { unfold loop_cond. rewrite Hq. apply andb_true_iff. split; [done|].
      apply Z.ltb_lt. lia. }
    assert (reachable env start_url budget st1) as Hst1 by (by constructor).
    assert (st1 = mkState (visited st ∪ {[u]}) (v :: rest)
                    (crawled_pages st ++ [failed])
                    (crawl_errors st ++ ["Error crawling " +:+ u +:+ ": " +:+ msg])
                    (all_domains st)) as Hst1_eq by (by apply Hfail).
    assert (loop_cond budget st1 = true) as Hcond1.
    { rewrite Hst1_eq. unfold loop_cond. cbn [to_visit visited].
      apply andb_true_iff. split; [done|]. apply Z.ltb_lt.
      rewrite size_union by (by apply disjoint_singleton_r).
      rewrite size_singleton. lia. }
    split; [done|].
    destruct (start_url_parsed start_url Hvalid) as [ps Hps].
    destruct (loop_body_step env start_url budget ps st1 v rest Hps
                (reachable_inv env start_url budget Hvalid st1 Hst1))
      as (next & errs & doms & Hbody & Hnext & _).
    { by rewrite Hst1_eq. }
    assert (crawled_pages (loop_body env start_url budget st1)
            = crawled_pages st ++ [failed; next]) as Hpages.
    { rewrite Hbody. cbn [crawled_pages]. rewrite Hst1_eq. cbn [crawled_pages].
      by rewrite <- app_assoc. }
    exists next. split_and!; [done|done|].
    intros fin Hfin Hexit.
    destruct (reachable_pages_final env start_url budget Hvalid
                (loop_body env start_url budget st1) fin) as [later Hlater];
      [by constructor|done|done|].
    exists later. rewrite Hlater, Hpages. by rewrite <- app_assoc.
Qed.

(** C5, as amended.  When the URL does not parse into a scheme among http
    and https and a non-empty netloc, [crawl_site] returns the error-only
    result, whatever the environment and the budget: no page is loaded and
    no result is produced.  The test is on the netloc, not on the host. *)
Theorem crawl_site_invalid_url (fuel : nat) :
  ~ (exists p, urlparse start_url "" = Some p
               /\ (scheme p = "http" \/ scheme p = "https")
               /\ netloc p <> "") ->
  crawl_site env fuel start_url max_pages
  = Some (ErrorOnly "Invalid URL provided. URL must include http:// or https://")
  /\ forall out, crawl_site env fuel start_url max_pages = Some out ->
       output_pages out = [] /\ is_Some (top_error out).
Proof.
  intros Hinvalid.
  assert (_is_valid_url start_url = false) as Hv.
  { apply not_true_is_false. intros (p & Hp & Hs & Hn)%UrlFacts.valid_url_inv.
    apply Hinvalid. exists p. split_and!; [done|done|].
    intros Heq. by rewrite Heq in Hn. }
  unfold crawl_site. rewrite Hv. cbn [negb]. split; [done|].
  intros out [= <-]. by split.
Qed.

(** C10, as amended.  A budget of zero or less is not rejected: with a valid
    URL, Playwright installed and a browser session that opens and closes,
    the clamp leaves the budget unchanged, the loop condition is false at
    once, and [crawl_site] returns the normal result with no pages and
    total_pages = 0, without loading any page. *)
Theorem crawl_site_nonpositive_budget (fuel : nat) :
  _is_valid_url start_url = true ->
  (max_pages <= 0)%Z ->
  PLAYWRIGHT_AVAILABLE env = true ->
  launch_error env = None -> close_error env = None ->
  clamp_max_pages max_pages = max_pages
  /\ loop_cond max_pages (initial_state start_url) = false
  /\ exists summary,
       crawl_site env fuel start_url max_pages = Some (CrawlDone summary [])
       /\ top_error (CrawlDone summary []) = None
       /\ total_pages summary = 0
       /\ summary = mkSummary 0 0 0 [] (elapsed env) [].
Proof.
  intros Hvalid Hmp Hpw Hlaunch Hclose.
  assert (clamp_max_pages max_pages = max_pages) as Hclamp.
  { unfold clamp_max_pages. destruct (100 <? max_pages)%Z eqn:Hc; [|done].
    apply Z.ltb_lt in Hc. lia. }
  assert (loop_cond max_pages (initial_state start_url) = false) as Hcond.
  { unfold loop_cond. cbn [initial_state visited to_visit].
    rewrite size_empty. apply andb_false_iff. right. apply Z.ltb_ge. lia. }
  split_and!; [done|done|].
  exists (mkSummary 0 0 0 [] (elapsed env) []).
  split_and!; [|done|done|done].
  unfold crawl_site, _crawl_with_playwright, crawl_loop.
  rewrite Hvalid, Hpw, Hlaunch, Hclose, Hclamp. cbn [negb].
  destruct fuel; cbn [while_loop]; rewrite Hcond; cbn [mbind option_bind];
    unfold summarise; cbn [initial_state crawled_pages all_domains crawl_errors
                           fmap list_fmap sum_list foldr length];
    do 3 f_equal; f_equal.
  all: apply Permutation_nil_r;
    rewrite <- (elements_empty (C := gset string)); apply set_to_list_perm.
Qed.

End Claims.

Section Fixture.
Import Fixture.
#[local] Existing Instance permissive_checks.
#[local] Existing Instance elements_order.

(** The crawl of the three-page site: A, then the failing C and B in the
    order of A's link list; D is among B's links and is not visited. *)
Example fixture_crawl :
  crawl_site env 10 page_a 10
  = Some (CrawlDone
            (mkSummary 3 4 0 ["a.test"] 0
               ["Error crawling http://a.test/c: net::ERR_CONNECTION_REFUSED"])
            [mkCrawlResult page_a "A" 200 [page_c; page_b] [] [] "page a" None;
             mkCrawlResult page_c "Error" 0 [] [] [] ""
               (Some "net::ERR_CONNECTION_REFUSED");
             mkCrawlResult page_b "B" 200 [page_a; page_d] [] [] "page b" None]).
Proof. by vm_compute. Qed.

(** C1 as stated fails for a negative budget: nothing is visited, and zero
    visited URLs are more than max_pages = -1. *)
Lemma crawl_page_budget_counterexample :
  _is_valid_url page_a = true
  /\ crawl_site env 0 page_a (-1) = Some (CrawlDone (mkSummary 0 0 0 [] 0 []) [])
  /\ reachable env page_a (clamp_max_pages (-1)) (initial_state page_a)
  /\ ~ (Z.of_nat (size (visited (initial_state page_a))) <= -1)%Z.
Proof.
  split_and!; [by vm_compute|by vm_compute|constructor|].
  cbn [initial_state visited]. rewrite size_empty. lia.
Qed.

(** C5 as stated fails for a URL without a host: http://:80/ has the netloc
    ":80" and no host, passes [_is_valid_url] and is crawled. *)
Lemma crawl_site_hostless_url_crawled :
  (exists p, urlparse FixtureMore.hostless_url "" = Some p
             /\ scheme p = "http" /\ netloc p = ":80"
             /\ UrlHost.hostname (netloc p) = None)
  /\ _is_valid_url FixtureMore.hostless_url = true
  /\ crawl_site env 10 FixtureMore.hostless_url 10
     = Some (CrawlDone
               (mkSummary 1 0 0 [] 0
                  ["Error crawling http://:80/: net::ERR_CONNECTION_REFUSED"])
               [mkCrawlResult FixtureMore.hostless_url "Error" 0 [] [] [] ""
                  (Some "net::ERR_CONNECTION_REFUSED")]).
Proof.
  split_and!; [|by vm_compute|by vm_compute].
  eexists. split_and!; [by vm_compute|done|done|by vm_compute].
Qed.

(** C10 as stated fails without Playwright: the budget 0 is not looked at,
    the result is the top-level error. *)
Lemma crawl_site_zero_budget_without_playwright :
  _is_valid_url page_a = true
  /\ crawl_site FixtureMore.without_playwright 0 page_a 0
     = Some (ErrorOnly
               "Playwright is not installed. Install with: pip install playwright && playwright install")
  /\ forall out,
       crawl_site FixtureMore.without_playwright 0 page_a 0 = Some out ->
       is_Some (top_error out).
Proof.
  split_and!; [by vm_compute|by vm_compute|].
  intros out Hout. vm_compute in Hout. injection Hout as <-. by eexists.
Qed.

Lemma crawl_page_budget_witness :
  _is_valid_url page_a = true
  /\ forall st, reachable env page_a (clamp_max_pages 10) st ->
       (Z.of_nat (size (visited st)) <= Z.max 10 0)%Z.
Proof.
  split; [reflexivity|].
  exact (proj1 (crawl_page_budget env page_a 10 eq_refl eq_refl eq_refl eq_refl)).
Defined.

Lemma crawl_same_domain_witness :
  _is_valid_url page_a = true
  /\ forall st, reachable env page_a (clamp_max_pages 10) st ->
       forall u, u ∈ to_visit st -> u <> page_a ->
         exists pu ps, urlparse u "" = Some pu /\ urlparse page_a "" = Some ps
                       /\ netloc pu = netloc ps.
Proof.
  split; [reflexivity|].
  intros st Hst. exact (proj1 (crawl_same_domain env page_a 10 eq_refl st Hst)).
Defined.

Lemma crawl_breadth_first_witness :
  _is_valid_url page_a = true
  /\ forall st, reachable env page_a (clamp_max_pages 10) st ->
       level_order page_a (crawled_pages st)
       /\ forall u rest, to_visit st = u :: rest ->
            exists new,
              discovered (loop_body env page_a (clamp_max_pages 10) st)
              = discovered st ++ new.
Proof.
  split; [reflexivity|].
  intros st Hst.
  destruct (crawl_breadth_first env page_a 10 eq_refl) as (ps & _ & Hall & _).
  destruct (Hall st Hst) as [(_ & _ & Hlevel) Hstep].
  split; [exact Hlevel|].
  intros u rest Hq. destruct (Hstep u rest Hq) as (r & _ & _ & _ & _ & Hd).
  eexists. exact Hd.
Defined.

Lemma crawl_page_failure_witness :
  _is_valid_url page_a = true
  /\ forall out c, crawl_site env 10 page_a 10 = Some out -> c ∈ output_pages out ->
       error c = None
       \/ (is_Some (error c) /\ links c = [] /\ resources c = []
           /\ meta_data c = [] /\ text_content c = "").
Proof.
  split; [reflexivity|].
  intros out c.
  exact (proj1 (proj2 (proj2 (crawl_page_failure env page_a 10 eq_refl))) 10 out c).
Defined.

Lemma crawl_site_invalid_url_witness :
  crawl_site env 10 "a.test/index.html" 10
  = Some (ErrorOnly "Invalid URL provided. URL must include http:// or https://").
Proof.
  apply (crawl_site_invalid_url env "a.test/index.html" 10 10).
  intros (p & Hp & Hs & _). vm_compute in Hp. injection Hp as <-.
  cbn [scheme] in Hs. by destruct Hs.
Defined.

Lemma crawl_site_nonpositive_budget_witness :
  exists summary,
    crawl_site env 0 page_a 0 = Some (CrawlDone summary [])
    /\ top_error (CrawlDone summary []) = None
    /\ total_pages summary = 0
    /\ summary = mkSummary 0 0 0 [] (elapsed env) [].
Proof.
  apply (crawl_site_nonpositive_budget env page_a 0 0); [reflexivity|lia|reflexivity..].
Defined.

End Fixture.
End CrawlClaims.

(** * URL normalisation and the two same-domain tests *)

Module UrlClaims.
Import PyStr UrlLib WebAudit PyStrFacts UrlFacts.

Section Claims.
Context `{!UrlChecks}.

Lemma absolute_nonempty s : absolute s = true -> is_empty s = false.
Proof. by destruct s. Qed.

Lemma normalize_absolute href base_url :
  absolute href = true -> _normalize_url href base_url = Some href.
Proof.
  intros Habs. unfold _normalize_url. by rewrite (absolute_nonempty _ Habs), Habs.
Qed.

Lemma urlunparse_absolute p :
  scheme p = "http" \/ scheme p = "https" -> is_empty (netloc p) = false ->
  absolute (urlunparse p) = true.
Proof.
  intros Hs Hn. unfold urlunparse, urlunsplit. rewrite Hn. cbn [negb orb].
  destruct (negb (is_empty (params p))), (negb (is_empty (query p))),
    (negb (is_empty (fragment p))); destruct Hs as [-> | ->];
    vm_compute; reflexivity.
Qed.

Lemma protocol_relative_absolute sch href :
  sch = "http" \/ sch = "https" -> startswith href "//" = true ->
  absolute (sch +:+ ":" +:+ href) = true.
Proof.
  intros Hs Hh. destruct href as [|a href]; [done|].
  destruct href as [|b href]; cbn [startswith] in Hh;
    [by rewrite andb_false_r in Hh|].
  apply andb_true_iff in Hh as [->%Ascii.eqb_eq Hh].
  apply andb_true_iff in Hh as [->%Ascii.eqb_eq _].
  by destruct Hs as [-> | ->].
Qed.

(** With an http(s) base that has a netloc, [urljoin] returns its second
    argument or an absolute http(s) URL. *)
Lemma urljoin_shape base href r :
  _is_valid_url base = true -> is_empty href = false ->
  urljoin base href = Some r -> r = href \/ absolute r = true.
Proof.
  intros (b & Hb & Hs & Hn)%valid_url_inv Hhref. unfold urljoin.
  rewrite Hhref, Hb. cbn [mbind option_bind].
  destruct (is_empty base); [intros [= <-]; by left|].
  destruct (urlparse href (scheme b)) as [u|]; [|done]. cbn [mbind option_bind].
  destruct (negb (String.eqb (scheme u) (scheme b))) eqn:Hsch;
    [intros [= <-]; by left|].
  apply negb_false_iff, String.eqb_eq in Hsch.
  assert (mem (scheme u) uses_relative = true) as ->
    by (rewrite Hsch; by destruct Hs as [-> | ->]).
  assert (mem (scheme u) uses_netloc = true) as ->
    by (rewrite Hsch; by destruct Hs as [-> | ->]).
  cbn [negb orb andb].
  destruct (is_empty (netloc u)) eqn:Hnu; cbn [negb].
  - destruct (is_empty (path u) && is_empty (params u));
      intros [= <-]; right; apply urlunparse_absolute; cbn [scheme netloc];
      by rewrite ?Hsch.
  - intros [= <-]. right. apply urlunparse_absolute; by rewrite ?Hsch.
Qed.


(** C6, as amended.  When the base is a valid http(s) URL with a netloc, as
    every base that the crawler passes, normalising the result of
    [_normalize_url] again with the same base changes nothing (and a
    [ValueError] of the first call is the outcome of both sides).  For every
    base, an href that starts with http:// or https:// is returned unchanged. *)
Theorem normalize_url_idempotent href base_url :
  _is_valid_url base_url = true ->
  (_normalize_url href base_url ≫= fun r => _normalize_url r base_url)
  = _normalize_url href base_url
  /\ (forall base, absolute href = true -> _normalize_url href base = Some href).
Proof.
  intros Hvalid. split; [|intros base; apply normalize_absolute].
  destruct (_normalize_url href base_url) as [r|] eqn:Hfirst; [|done].
  cbn [mbind option_bind]. revert Hfirst. unfold _normalize_url at 1.
  destruct (is_empty href) eqn:Hempty; [by intros [= <-]|].
  destruct (absolute href) eqn:Habs.
  { intros [= <-]. by apply normalize_absolute. }
  destruct (startswith href "//") eqn:Hrel.
  - destruct (valid_url_inv base_url Hvalid) as (b & -> & Hs & _).
    cbn [mbind option_bind]. intros [= <-].
    by apply normalize_absolute, protocol_relative_absolute.
  - intros Hjoin.
    destruct (urljoin_shape base_url href r Hvalid Hempty Hjoin) as [-> | Hr];
      [|by apply normalize_absolute].
    unfold _normalize_url. by rewrite Hempty, Habs, Hrel.
Qed.

(** C9.  [_should_crawl_url] accepts a URL only when its netloc equals that of
    the base as a string, while [_get_internal_links] also counts as internal
    a netloc in another letter case, with a [www.] prefix or with a further
    subdomain; each of the three links below is internal for the helper and
    rejected by the crawler's filter whatever the visited set and the
    budget, so the two tests are not equivalent. *)
Theorem same_domain_tests_differ :
  (forall url base_domain visited max_pages,
     _should_crawl_url url base_domain visited max_pages = true ->
     exists pu pb, urlparse url "" = Some pu /\ urlparse base_domain "" = Some pb
                   /\ netloc pu = netloc pb)
  /\ (forall link,
        link ∈ ["https://EXAMPLE.com/about"; "https://www.example.com/about";
                "https://blog.example.com/about"] ->
        InternalLinks.internal_link link "https://example.com" = Some link
        /\ forall visited max_pages,
             _should_crawl_url link "https://example.com" visited max_pages = false)
  /\ exists link base,
       InternalLinks.internal_link link base = Some link
       /\ forall visited max_pages,
            _should_crawl_url link base visited max_pages = false.
Proof.
  assert (forall link,
    link ∈ ["https://EXAMPLE.com/about"; "https://www.example.com/about";
            "https://blog.example.com/about"] ->
    InternalLinks.internal_link link "https://example.com" = Some link
    /\ forall visited max_pages,
         _should_crawl_url link "https://example.com" visited max_pages = false)
    as Hex.
  { intros link Hlink.
    repeat (apply elem_of_cons in Hlink as [-> | Hlink]);
      try (by apply elem_of_nil in Hlink);
      (split; [by vm_compute|]); intros visited max_pages;
      unfold _should_crawl_url; cbn [is_empty orb];
      destruct (bool_decide _); [done| |done| |done|];
      destruct (max_pages <=? _)%Z; try done; by vm_compute. }
  split_and!; [|done|].
  - intros url base_domain visited max_pages. unfold _should_crawl_url.
    destruct (is_empty url || bool_decide (url ∈ visited)); [done|].
    destruct (max_pages <=? _)%Z; [done|].
    destruct (urlparse url "") as [pu|]; [|done].
    destruct (urlparse base_domain "") as [pb|]; [|done].
    intros Heq%String.eqb_eq. by exists pu, pb.
  - exists "https://www.example.com/about", "https://example.com".
    apply Hex. right. left.
Qed.

End Claims.

(** C6 as stated fails for a base without a scheme: the protocol-relative
    branch prefixes the empty scheme, and the result is then resolved as a
    relative path. *)
Lemma normalize_url_not_idempotent :
  let N := @_normalize_url Fixture.permissive_checks in
  N "//host/p" "example.com" = Some "://host/p"
  /\ N "://host/p" "example.com" = Some ":/host/p"
  /\ (N "//host/p" "example.com" ≫= fun r => N r "example.com")
     <> N "//host/p" "example.com".
Proof. by vm_compute. Qed.

Lemma normalize_url_idempotent_witness :
  @_is_valid_url Fixture.permissive_checks Fixture.page_b = true
  /\ (@_normalize_url Fixture.permissive_checks "../c?x=1" Fixture.page_b
       ≫= fun r => @_normalize_url Fixture.permissive_checks r Fixture.page_b)
     = @_normalize_url Fixture.permissive_checks "../c?x=1" Fixture.page_b.
Proof.
  split; [reflexivity|].
  apply (@normalize_url_idempotent Fixture.permissive_checks "../c?x=1"
           Fixture.page_b).
  reflexivity.
Defined.

End UrlClaims.

(** * Scores *)

(** ** Binary64 rounding is monotone *)

Module Binary64Facts.
Import Binary64.

Section Rounding.
Local Open Scope Q_scope.

Lemma rne_floor (x : Q) : (Qfloor x <= rne x <= Qfloor x + 1)%Z.
Proof.
  unfold rne. destruct (_ ?= _); [destruct (Z.even _)|..]; lia.
Qed.

Lemma rne_mono (x y : Q) : x <= y -> (rne x <= rne y)%Z.
Proof.
  intros Hxy. pose proof (Qfloor_resp_le x y Hxy) as Hf.
  destruct (Z.eq_dec (Qfloor x) (Qfloor y)) as [Heq|Hne].
  - unfold rne. rewrite <- Heq.
    destruct (Qcompare_spec (x - inject_Z (Qfloor x)) (1 # 2)) as [Hx|Hx|Hx];
      destruct (Qcompare_spec (y - inject_Z (Qfloor x)) (1 # 2)) as [Hy|Hy|Hy];
      try (destruct (Z.even (Qfloor x))); try lia; exfalso; lra.
  - pose proof (rne_floor x). pose proof (rne_floor y). lia.
Qed.

Lemma rne_inject_Z (n : Z) : rne (inject_Z n) = n.
Proof.
  unfold rne. rewrite Qfloor_Z.
  destruct (Qcompare_spec (inject_Z n - inject_Z n) (1 # 2)) as [H|H|H];
    [exfalso; lra|done|exfalso; lra].
Qed.

Lemma two_pos (e : Z) : 0 < 2 ^ e.
Proof. apply Qpower_0_lt. lra. Qed.

Lemma two_mono (a b : Z) : (a <= b)%Z -> 2 ^ a <= 2 ^ b.
Proof. intros. apply Qpower_le_compat_l; [done|lra]. Qed.

Lemma two_plus (a b : Z) : 2 ^ (a + b) == 2 ^ a * 2 ^ b.
Proof. apply Qpower_plus. lra. Qed.

(** Scaling by the unit in the last place of exponent [e]. *)
Lemma scale_two (e k : Z) : 2 ^ (e + k) / 2 ^ (e - 52) == 2 ^ (k + 52).
Proof.
  replace (e + k)%Z with ((k + 52) + (e - 52))%Z by lia.
  rewrite two_plus. field. intros H0. pose proof (two_pos (e - 52)) as Hp.
  rewrite H0 in Hp. by apply Qlt_irrefl in Hp.
Qed.

Lemma exponent_from_spec (fuel : nat) (e : Z) (x : Q) :
  let r := exponent_from fuel e x in
  (e <= r <= e + Z.of_nat fuel)%Z
  /\ ((r < e + Z.of_nat fuel)%Z -> x < 2 ^ (r + 1))
  /\ ((e < r)%Z -> 2 ^ r <= x).
Proof.
  revert e. induction fuel as [|fuel IH]; intros e; cbn [exponent_from].
  - cbn zeta. split; [lia|]. split; intros; lia.
  - destruct (Qle_bool (2 ^ (e + 1)) x) eqn:Hle.
    + specialize (IH (e + 1)%Z). cbn zeta in *.
      destruct IH as (Hr & Hup & Hlo). split; [lia|]. split.
      * intros ?. apply Hup. lia.
      * intros _. destruct (Z.eq_dec (exponent_from fuel (e + 1)%Z x) (e + 1)%Z) as [->|?].
        -- by apply Qle_bool_iff.
        -- apply Hlo. lia.
    + cbn zeta. split; [lia|]. split; [|lia].
      intros _. apply Qnot_le_lt. intros H%Qle_bool_iff. congruence.
Qed.

Lemma exponent_from_mono (fuel : nat) (e : Z) (x y : Q) :
  x <= y -> (exponent_from fuel e x <= exponent_from fuel e y)%Z.
Proof.
  intros Hxy. revert e. induction fuel as [|fuel IH]; intros e; cbn [exponent_from];
    [lia|].
  destruct (Qle_bool (2 ^ (e + 1)) x) eqn:Hx.
  - assert (Qle_bool (2 ^ (e + 1)) y = true) as ->; [|apply IH].
    apply Qle_bool_iff. apply Qle_bool_iff in Hx. by apply Qle_trans with x.
  - destruct (Qle_bool (2 ^ (e + 1)) y); [|lia].
    pose proof (exponent_from_spec fuel (e + 1)%Z y) as (? & _). lia.
Qed.

Lemma round_pos_nonneg (x : Q) : 0 <= x -> 0 <= round_pos x.
Proof.
  intros Hx. unfold round_pos. cbn zeta.
  pose proof (two_pos (exponent x - 52)) as Hulp.
  apply Qmult_le_0_compat; [|by apply Qlt_le_weak].
  change 0 with (inject_Z 0). rewrite <- Zle_Qle.
  pose proof (rne_floor (x / 2 ^ (exponent x - 52))) as [Hf _].
  assert (0 <= Qfloor (x / 2 ^ (exponent x - 52)))%Z; [|lia].
  rewrite <- (Qfloor_Z 0). apply Qfloor_resp_le.
  apply Qle_shift_div_l; [done|]. by rewrite Qmult_0_l.
Qed.

Lemma round_pos_mono (x y : Q) : 0 < x -> x <= y -> round_pos x <= round_pos y.
Proof.
  intros Hx Hxy. unfold round_pos. cbn zeta.
  pose proof (exponent_from_mono 2045 (-1022) x y Hxy) as He.
  fold (exponent x) in He. fold (exponent y) in He.
  pose proof (two_pos (exponent x - 52)) as Hux.
  pose proof (two_pos (exponent y - 52)) as Huy.
  destruct (Z.eq_dec (exponent x) (exponent y)) as [Heq|Hne].
  - rewrite <- Heq in *. apply Qmult_le_compat_r; [|by apply Qlt_le_weak].
    rewrite <- Zle_Qle. apply rne_mono.
    apply Qmult_le_compat_r; [done|]. apply Qlt_le_weak, Qinv_lt_0_compat. done.
  - pose proof (exponent_from_spec 2045 (-1022) x) as (Hrx & Hupx & _).
    pose proof (exponent_from_spec 2045 (-1022) y) as (Hry & _ & Hloy).
    fold (exponent x) in Hrx, Hupx. fold (exponent y) in Hry, Hloy.
    cbn zeta in *.
    assert (x < 2 ^ (exponent x + 1)) as Hxup by (apply Hupx; lia).
    assert (2 ^ exponent y <= y) as Hylo by (apply Hloy; lia).
    apply Qle_trans with (2 ^ (exponent x + 1)).
    + (* the rounded significand of x is at most 2^53 *)
      assert (rne (x / 2 ^ (exponent x - 52)) <= 2 ^ 53)%Z as Hm.
      { rewrite <- (rne_inject_Z (2 ^ 53)). apply rne_mono.
        rewrite (Zpower_Qpower 2 53) by lia. change (inject_Z 2) with 2.
        rewrite <- (scale_two (exponent x) 1).
        apply Qmult_le_compat_r; [by apply Qlt_le_weak|].
        apply Qlt_le_weak, Qinv_lt_0_compat. done. }
      apply Qle_trans with (inject_Z (2 ^ 53) * 2 ^ (exponent x - 52)).
      * apply Qmult_le_compat_r; [by rewrite <- Zle_Qle|by apply Qlt_le_weak].
      * rewrite (Zpower_Qpower 2 53) by lia. change (inject_Z 2) with 2.
        rewrite <- two_plus. apply two_mono. lia.
    + apply Qle_trans with (2 ^ exponent y); [apply two_mono; lia|].
      assert (2 ^ 52 <= rne (y / 2 ^ (exponent y - 52)))%Z as Hm.
      { rewrite <- (rne_inject_Z (2 ^ 52)). apply rne_mono.
        rewrite (Zpower_Qpower 2 52) by lia. change (inject_Z 2) with 2.
        rewrite <- (scale_two (exponent y) 0).
        replace (exponent y + 0)%Z with (exponent y) by lia.
        apply Qmult_le_compat_r; [done|].
        apply Qlt_le_weak, Qinv_lt_0_compat. done. }
      apply Qle_trans with (inject_Z (2 ^ 52) * 2 ^ (exponent y - 52)).
      * rewrite (Zpower_Qpower 2 52) by lia. change (inject_Z 2) with 2.
        rewrite <- two_plus. apply two_mono. lia.
      * apply Qmult_le_compat_r; [by rewrite <- Zle_Qle|by apply Qlt_le_weak].
Qed.

Lemma round_mono (x y : Q) : x <= y -> round x <= round y.
Proof.
  intros Hxy. unfold round.
  destruct (Qcompare_spec x 0) as [Hx|Hx|Hx];
    destruct (Qcompare_spec y 0) as [Hy|Hy|Hy]; try lra.
  - apply round_pos_nonneg. lra.
  - pose proof (round_pos_nonneg (- x)). lra.
  - pose proof (round_pos_mono (- y) (- x)). lra.
  - pose proof (round_pos_nonneg (- x)). pose proof (round_pos_nonneg y). lra.
  - by apply round_pos_mono.
Qed.

Lemma round_0 : round 0 == 0.
Proof. reflexivity. Qed.

Lemma round_1 : round 1 == 1.
Proof. by vm_compute. Qed.

Lemma round_100 : round 100 == 100.
Proof. by vm_compute. Qed.

End Rounding.

(** Binary64 rounding has the properties assumed of [fl]. *)
Lemma binary64 : Float64.
Proof.
  exact {| fl := round; fl_mono := round_mono; fl_0 := round_0;
           fl_1 := round_1; fl_100 := round_100 |}.
Defined.

End Binary64Facts.

Module ScoreClaims.
Import Scores Linking.

Lemma Qfloor_bounds (x : Q) (lo hi : Z) :
  (inject_Z lo <= x)%Q -> (x <= inject_Z hi)%Q -> (lo <= Qfloor x <= hi)%Z.
Proof.
  intros Hlo Hhi. split.
  - rewrite <- (Qfloor_Z lo). by apply Qfloor_resp_le.
  - rewrite <- (Qfloor_Z hi). by apply Qfloor_resp_le.
Qed.


Section Rounding.
Context `{!Float64} {float_text : FloatText}.














End Rounding.

(** With binary64 rounding, 29 passes out of 100 checks score 28 and 57 out
    of 100 score 56, as [int((29 / 100) * 100)] and [int((57 / 100) * 100)]
    do in Python; nothing checked scores 0 and everything passed scores 100. *)
Example accessibility_score_examples :
  let score (passed failed : nat) :=
    accessibility_score
      (@_analyze_accessibility_results Binary64Facts.binary64
         (mkCheck (replicate failed (mkViolation (Some "serious")))
            (replicate passed "pass") 0)
         (mkCheck [] [] 0) (mkCheck [] [] 0)) in
  score 29 71 = 28%Z /\ score 57 43 = 56%Z /\ score 50 50 = 50%Z
  /\ score 0 0 = 0%Z /\ score 7 0 = 100%Z /\ score 0 7 = 0%Z.
Proof. by vm_compute. Qed.


End ScoreClaims.

(** * robots.txt *)

Module RobotsClaims.
Import PyStr UrlLib WebAudit Robots.

Section Claims.
Context `{!UrlChecks} `{!PyFloat}.

(** C8.  When the request for /robots.txt is answered with status 404, the
    status of [check_robots_txt] has found = false and accessible = true, and
    the recommendations of the analysis end with the advice to create a
    robots.txt file. *)
Theorem robots_not_found env url text seconds ctype :
  _is_valid_url url = true ->
  REQUESTS_AVAILABLE env = true ->
  (forall parsed, urlparse url "" = Some parsed ->
     http_get env (scheme parsed +:+ "://" +:+ netloc parsed +:+ "/robots.txt")
     = HttpResponse 404 text seconds ctype) ->
  exists report,
    check_robots_txt env url = RobotsChecked report
    /\ found (robots_txt_status report) = false
    /\ accessible (robots_txt_status report) = true
    /\ rs_status_code (robots_txt_status report) = 404%Z
    /\ "Consider creating a robots.txt file to control crawler behavior"
       ∈ recommendations (analysis report)
    /\ recommendations (analysis report)
       = ["Consider adding sitemap URL(s) to help search engines discover content";
          "Consider creating a robots.txt file to control crawler behavior"].
Proof.
  intros Hvalid Hreq Hget.
  destruct (UrlFacts.valid_url_inv url Hvalid) as (parsed & Hparsed & _).
  specialize (Hget parsed Hparsed).
  unfold check_robots_txt, _fetch_robots_txt.
  rewrite Hvalid, Hreq, Hparsed, Hget. cbn.
  eexists. split; [reflexivity|]. cbn.
  split_and!; try done. set_solver.
Qed.

End Claims.

Lemma robots_not_found_witness :
  exists report,
    @check_robots_txt Examples.integer_delays Fixture.permissive_checks
      Examples.no_robots "https://example.com/shop"
    = RobotsChecked report
    /\ found (robots_txt_status report) = false
    /\ accessible (robots_txt_status report) = true
    /\ rs_status_code (robots_txt_status report) = 404%Z
    /\ "Consider creating a robots.txt file to control crawler behavior"
       ∈ recommendations (analysis report)
    /\ recommendations (analysis report)
       = ["Consider adding sitemap URL(s) to help search engines discover content";
          "Consider creating a robots.txt file to control crawler behavior"].
Proof.
  apply (@robots_not_found Fixture.permissive_checks Examples.integer_delays
           Examples.no_robots "https://example.com/shop"
           "<h1>Not Found</h1>" (1 # 10) (Some "text/html")).
  - reflexivity.
  - reflexivity.
  - intros parsed _. reflexivity.
Defined.

End RobotsClaims.


(** * Further properties of the helpers *)

(** ** More about strings *)

Module PyStrMore.
Import PyStr.

Lemma take_drop n s : take n s +:+ drop n s = s.
Proof.
  revert s. induction n as [|n IH]; intros [|a s]; cbn [take drop]; try done.
  rewrite PyStrFacts.append_cons. by rewrite IH.
Qed.

Lemma length_append s t :
  String.length (s +:+ t) = String.length s + String.length t.
Proof.
  induction s as [|a s IH]; [done|].
  rewrite PyStrFacts.append_cons. cbn [String.length]. by rewrite IH.
Qed.

Lemma drop_append s t : drop (String.length s) (s +:+ t) = t.
Proof.
  induction s as [|a s IH]; [by destruct t|].
  rewrite PyStrFacts.append_cons. cbn [String.length drop]. apply IH.
Qed.

Lemma startswith_append s p :
  startswith s p = true -> s = p +:+ drop (String.length p) s.
Proof.
  revert s. induction p as [|b p IH]; intros s; [done|].
  destruct s as [|a s]; [done|]. cbn [startswith String.length drop].
  intros [Hab Hs]%andb_true_iff. apply Ascii.eqb_eq in Hab as ->.
  rewrite PyStrFacts.append_cons. by rewrite <- IH.
Qed.

Lemma startswith_append_both p s g :
  startswith s g = true -> startswith (p +:+ s) (p +:+ g) = true.
Proof.
  intros Hg. induction p as [|b p IH]; [done|].
  rewrite !PyStrFacts.append_cons. cbn [startswith]. by rewrite Ascii.eqb_refl.
Qed.

Lemma endswith_iff s p : endswith s p = true <-> exists pre, s = pre +:+ p.
Proof.
  unfold endswith. rewrite andb_true_iff, Nat.leb_le, String.eqb_eq. split.
  - intros [_ Hp].
    exists (take (String.length s - String.length p) s).
    transitivity (take (String.length s - String.length p) s
                  +:+ drop (String.length s - String.length p) s).
    + symmetry. apply take_drop.
    + by rewrite Hp.
  - intros [pre ->]. rewrite length_append. split; [lia|].
    replace (String.length pre + String.length p - String.length p)
      with (String.length pre) by lia.
    apply drop_append.
Qed.

Lemma substr_in_empty (hay : string) : substr_in "" hay = true.
Proof. by destruct hay. Qed.

End PyStrMore.


(** * Further properties of the crawler *)

Module CrawlExtras.
Import PyStr UrlLib WebAudit CrawlFacts CrawlReport CrawlExtraFacts.

Section Extras.
Context `{!UrlChecks} `{!PySet}.
Variable env : Env.
Variable start_url : string.
Variable max_pages : Z.

Lemma clamp_fuel : Z.to_nat (clamp_max_pages max_pages) <= 100.
Proof. unfold clamp_max_pages. destruct (100 <? max_pages)%Z eqn:Hc; lia. Qed.



(** A crawl with a working browser session, with enough fuel. *)
Lemma crawl_done_run :
  _is_valid_url start_url = true ->
  PLAYWRIGHT_AVAILABLE env = true ->
  launch_error env = None -> close_error env = None ->
  exists st,
    reachable env start_url (clamp_max_pages max_pages) st
    /\ loop_cond (clamp_max_pages max_pages) st = false
    /\ forall fuel, 100 <= fuel ->
         crawl_site env fuel start_url max_pages
         = Some (CrawlDone (summarise env st) (crawled_pages st)).
Proof.
  intros Hvalid Hpw Hlaunch Hclose.
  destruct (crawl_site_done env start_url max_pages Hvalid Hpw Hlaunch Hclose)
    as (st & Hreach & Hexit & Hout).
  exists st. split_and!; [done|done|].
  intros fuel Hf. apply Hout. pose proof clamp_fuel. lia.
Qed.

(** X2.  With a valid URL, a working session and a budget of at least one
    page, the result is never empty: its first page is the start URL. *)
Theorem crawl_first_page :
  _is_valid_url start_url = true ->
  PLAYWRIGHT_AVAILABLE env = true ->
  launch_error env = None -> close_error env = None ->
  (1 <= max_pages)%Z ->
  exists summary first rest,
    (forall fuel, 100 <= fuel ->
       crawl_site env fuel start_url max_pages
       = Some (CrawlDone summary (first :: rest)))
    /\ url first = start_url.
Proof.
  intros Hvalid Hpw Hlaunch Hclose Hmp.
  destruct (crawl_done_run Hvalid Hpw Hlaunch Hclose)
    as (st & Hreach & Hexit & Hout).
  destruct (start_url_parsed start_url Hvalid) as [ps Hps].
  destruct (reachable_report env start_url _ Hvalid ps st Hps Hreach)
    as (_ & _ & _ & _ & _ & [(Hnil & Hq & Hv)|(c & rest & Hpages & Hc)]).
  - exfalso. unfold loop_cond in Hexit. rewrite Hq, Hv, size_empty in Hexit.
    cbn in Hexit. apply Z.ltb_ge in Hexit.
    unfold clamp_max_pages in Hexit. destruct (100 <? max_pages)%Z; lia.
  - exists (summarise env st), c, rest. split; [|done].
    intros fuel Hf. rewrite <- Hpages. by apply Hout.
Qed.

(** X3.  With a valid URL and a working session the crawl returns pages
    whose URLs all pass [_is_valid_url], and the links of each page are
    pairwise distinct and pass [_is_valid_url] as well. *)
Theorem crawl_pages_valid :
  _is_valid_url start_url = true ->
  PLAYWRIGHT_AVAILABLE env = true ->
  launch_error env = None -> close_error env = None ->
  exists summary pages,
    (forall fuel, 100 <= fuel ->
       crawl_site env fuel start_url max_pages = Some (CrawlDone summary pages))
    /\ forall c, c ∈ pages ->
         _is_valid_url (url c) = true
         /\ NoDup (links c)
         /\ forall l, l ∈ links c -> _is_valid_url l = true.
Proof.
  intros Hvalid Hpw Hlaunch Hclose.
  destruct (crawl_done_run Hvalid Hpw Hlaunch Hclose)
    as (st & Hreach & Hexit & Hout).
  exists (summarise env st), (crawled_pages st). split; [done|]. intros c Hc.
  destruct (start_url_parsed start_url Hvalid) as [ps Hps].
  destruct (reachable_report env start_url _ Hvalid ps st Hps Hreach)
    as (_ & _ & Hval & Hlinks & _).
  pose proof (reachable_inv env start_url _ Hvalid st Hreach) as Hinv.
  destruct (Hlinks c Hc) as [Hnd Hl]. split_and!; [|done|done].
  apply Hval. right. apply (inv_pages _ _ _ Hinv).
  by apply list_elem_of_fmap_2.
Qed.

(** X4.  A crawl stays on one domain: [unique_domains] of the summary is the
    one-element list with the netloc of the start URL when some page was
    rendered, and empty when every page failed. *)
Theorem crawl_unique_domains ps :
  _is_valid_url start_url = true ->
  urlparse start_url "" = Some ps ->
  PLAYWRIGHT_AVAILABLE env = true ->
  launch_error env = None -> close_error env = None ->
  exists summary pages,
    (forall fuel, 100 <= fuel ->
       crawl_site env fuel start_url max_pages = Some (CrawlDone summary pages))
    /\ (((exists c, c ∈ pages /\ error c = None)
         /\ unique_domains summary = [netloc ps])
        \/ ((forall c, c ∈ pages -> is_Some (error c))
            /\ unique_domains summary = [])).
Proof.
  intros Hvalid Hps Hpw Hlaunch Hclose.
  destruct (crawl_done_run Hvalid Hpw Hlaunch Hclose)
    as (st & Hreach & Hexit & Hout).
  exists (summarise env st), (crawled_pages st). split; [done|].
  destruct (reachable_report env start_url _ Hvalid ps st Hps Hreach)
    as (_ & Hdom & _).
  cbn [summarise unique_domains].
  destruct (decide (Exists (fun c => error c = None) (crawled_pages st)))
    as [Hex|Hnone].
  - left. apply Exists_exists in Hex as (c & Hc & He).
    split; [by exists c|].
    assert (all_domains st = {[netloc ps]}) as ->.
    { apply set_eq. intros d. rewrite Hdom, elem_of_singleton.
      split; [by intros (? & _)|]. intros ->. split; [done|by exists c]. }
    apply Permutation_singleton_r.
    rewrite <- (elements_singleton (C := gset string)). apply set_to_list_perm.
  - right. split.
    + intros c Hc. destruct (error c) eqn:He; [by eexists|].
      exfalso. apply Hnone, Exists_exists. by exists c.
    + assert (all_domains st = ∅) as ->.
      { apply set_eq. intros d. rewrite Hdom.
        split; [|by intros ?%not_elem_of_empty].
        intros (_ & c & Hc & He). exfalso. apply Hnone, Exists_exists.
        by exists c. }
      apply Permutation_nil_r.
      rewrite <- (elements_empty (C := gset string)). apply set_to_list_perm.
Qed.

Lemma error_lines_length pages :
  length (omap error_line pages)
  = length (filter (fun c => is_Some (error c)) pages).
Proof.
  induction pages as [|c pages IH]; [done|].
  cbn [omap list_omap]. rewrite filter_cons. unfold error_line at 1.
  destruct (error c); cbn [fmap option_fmap option_map].
  - rewrite decide_True by (by eexists). cbn [length]. by rewrite IH.
  - rewrite decide_False by (by intros [? ?]). done.
Qed.

(** X5.  The [errors] of the summary are the log lines of the failed pages,
    in the order of the pages: one line "Error crawling <url>: <error>" for
    each page whose error is set, and nothing else. *)
Theorem crawl_error_log :
  _is_valid_url start_url = true ->
  PLAYWRIGHT_AVAILABLE env = true ->
  launch_error env = None -> close_error env = None ->
  exists summary pages,
    (forall fuel, 100 <= fuel ->
       crawl_site env fuel start_url max_pages = Some (CrawlDone summary pages))
    /\ errors summary = omap error_line pages
    /\ length (errors summary)
       = length (filter (fun c => is_Some (error c)) pages).
Proof.
  intros Hvalid Hpw Hlaunch Hclose.
  destruct (crawl_done_run Hvalid Hpw Hlaunch Hclose)
    as (st & Hreach & Hexit & Hout).
  exists (summarise env st), (crawled_pages st). split; [done|].
  destruct (start_url_parsed start_url Hvalid) as [ps Hps].
  destruct (reachable_report env start_url _ Hvalid ps st Hps Hreach)
    as (Herr & _).
  cbn [summarise errors]. rewrite Herr. split; [done|].
  apply error_lines_length.
Qed.

(** X6.  When a crawl ends with fewer pages than the budget, it is complete:
    every link found on a returned page that has the netloc of the start URL
    is itself the URL of a returned page. *)
Theorem crawl_complete_under_budget :
  _is_valid_url start_url = true ->
  PLAYWRIGHT_AVAILABLE env = true ->
  launch_error env = None -> close_error env = None ->
  exists summary pages,
    (forall fuel, 100 <= fuel ->
       crawl_site env fuel start_url max_pages = Some (CrawlDone summary pages))
    /\ ((Z.of_nat (length pages) < clamp_max_pages max_pages)%Z ->
        forall c l, c ∈ pages -> l ∈ links c -> same_netloc l start_url ->
          l ∈ page_urls pages).
Proof.
  intros Hvalid Hpw Hlaunch Hclose.
  destruct (crawl_done_run Hvalid Hpw Hlaunch Hclose)
    as (st & Hreach & Hexit & Hout).
  exists (summarise env st), (crawled_pages st). split; [done|].
  intros Hlt c l Hc Hl Hsame.
  pose proof (reachable_inv env start_url _ Hvalid st Hreach) as Hinv.
  destruct (start_url_parsed start_url Hvalid) as [ps Hps].
  destruct (reachable_report env start_url _ Hvalid ps st Hps Hreach)
    as (_ & _ & _ & _ & Hcomplete & _).
  rewrite (inv_count _ _ _ Hinv) in Hlt.
  unfold loop_cond in Hexit. apply andb_false_iff in Hexit as [Hq|Hge];
    [|apply Z.ltb_ge in Hge; lia].
  apply negb_false_iff, bool_decide_eq_true in Hq.
  destruct (Hcomplete Hlt c l Hc Hl Hsame) as [Hv|Hin].
  - unfold page_urls. by apply (inv_pages _ _ _ Hinv).
  - rewrite Hq in Hin. by apply elem_of_nil in Hin.
Qed.

(** X7.  The links that [_extract_links_playwright] returns are pairwise
    distinct, pass [_is_valid_url] and are the normalised form of a non-empty
    [href] of the page; when no [href] makes [_normalize_url] raise, every
    non-empty [href] whose normalised form is valid is among them. *)
Theorem extract_links_valid_distinct hrefs base_url :
  NoDup (_extract_links_playwright hrefs base_url)
  /\ (forall l, l ∈ _extract_links_playwright hrefs base_url ->
        _is_valid_url l = true
        /\ exists href, href ∈ hrefs /\ is_empty href = false
                        /\ _normalize_url href base_url = Some l)
  /\ ((forall href, href ∈ hrefs -> is_Some (_normalize_url href base_url)) ->
      forall href l, href ∈ hrefs -> is_empty href = false ->
        _normalize_url href base_url = Some l -> _is_valid_url l = true ->
        l ∈ _extract_links_playwright hrefs base_url).
Proof.
  destruct (extract_links_spec hrefs base_url) as [Hnd Hspec].
  split_and!; [done|done|].
  intros Hok href l Hin Hne Hn Hv. unfold _extract_links_playwright.
  rewrite set_to_list_perm, elem_of_elements, elem_of_list_to_set.
  assert (forall acc, l ∈ acc \/ href ∈ hrefs ->
            l ∈ collect_links hrefs base_url acc) as Hgen; [|apply Hgen; by right].
  clear Hin Hnd Hspec.
  induction hrefs as [|h hs IH]; intros acc; cbn [collect_links].
  - intros [?|?%elem_of_nil]; done.
  - assert (forall x, x ∈ hs -> is_Some (_normalize_url x base_url)) as Hok'
      by (intros x Hx; apply Hok; by right).
    specialize (IH Hok').
    intros Hcase. destruct (is_empty h) eqn:Hh.
    + apply IH. destruct Hcase as [?|[->|?]%elem_of_cons]; [by left| |by right].
      congruence.
    + destruct (Hok h) as [n Hnh]; [by left|]. rewrite Hnh. apply IH.
      destruct Hcase as [Hacc|[->|?]%elem_of_cons]; [| |by right].
      * left. destruct (_is_valid_url n); [|done]. apply elem_of_app. by left.
      * left. assert (n = l) as -> by congruence. rewrite Hv.
        apply elem_of_app. right. by left.
Qed.

End Extras.

Section Fixture.
Import Fixture FixtureRun.
#[local] Existing Instance permissive_checks.
#[local] Existing Instance elements_order.

Lemma crawl_first_page_witness :
  exists summary first rest,
    (forall fuel, 100 <= fuel ->
       crawl_site env fuel page_a 10 = Some (CrawlDone summary (first :: rest)))
    /\ url first = page_a.
Proof.
  apply (crawl_first_page env page_a 10); [reflexivity..|lia].
Defined.

Lemma crawl_pages_valid_witness :
  exists summary pages,
    (forall fuel, 100 <= fuel ->
       crawl_site env fuel page_a 10 = Some (CrawlDone summary pages))
    /\ forall c, c ∈ pages ->
         _is_valid_url (url c) = true
         /\ NoDup (links c)
         /\ forall l, l ∈ links c -> _is_valid_url l = true.
Proof.
  apply (crawl_pages_valid env page_a 10); reflexivity.
Defined.

Lemma crawl_unique_domains_witness :
  exists summary pages,
    (forall fuel, 100 <= fuel ->
       crawl_site env fuel page_a 10 = Some (CrawlDone summary pages))
    /\ (((exists c, c ∈ pages /\ error c = None)
         /\ unique_domains summary = ["a.test"])
        \/ ((forall c, c ∈ pages -> is_Some (error c))
            /\ unique_domains summary = [])).
Proof.
  apply (crawl_unique_domains env page_a 10
           (mkParse "http" "a.test" "/" "" "" "")); reflexivity.
Defined.

Lemma crawl_error_log_witness :
  exists summary pages,
    (forall fuel, 100 <= fuel ->
       crawl_site env fuel page_a 10 = Some (CrawlDone summary pages))
    /\ errors summary = omap error_line pages
    /\ length (errors summary)
       = length (filter (fun c => is_Some (error c)) pages).
Proof.
  apply (crawl_error_log env page_a 10); reflexivity.
Defined.

Lemma crawl_complete_under_budget_witness :
  exists summary pages,
    (forall fuel, 100 <= fuel ->
       crawl_site env fuel page_a 10 = Some (CrawlDone summary pages))
    /\ ((Z.of_nat (length pages) < clamp_max_pages 10)%Z ->
        forall c l, c ∈ pages -> l ∈ links c -> same_netloc l page_a ->
          l ∈ page_urls pages).
Proof.
  apply (crawl_complete_under_budget env page_a 10); reflexivity.
Defined.

(** The crawl of the three-page site, run. *)
Example fixture_crawl_report :
  crawl_site env 100 page_a 10 = Some (CrawlDone crawl_summary crawl_pages).
Proof. by vm_compute. Qed.

End Fixture.
End CrawlExtras.


(** * Further properties of the robots.txt audit *)

Module RobotsExtras.
Import PyStr UrlLib WebAudit Robots RobotsLines.

Section Extras.
Context `{!UrlChecks} `{!PyFloat}.

(** X9.  For a valid URL the status of the report is consistent, whatever
    the request does: the request goes to /robots.txt at the root of the
    site; [accessible] holds exactly for an HTTP response, and then no error
    is reported; [found] holds exactly for a response with status 200; the
    raw content is returned exactly for a 200 response with a non-empty body;
    a failed request has status code 0, an error text and the advice to make
    the file accessible. *)
Theorem check_robots_txt_status env url parsed :
  _is_valid_url url = true -> REQUESTS_AVAILABLE env = true ->
  urlparse url "" = Some parsed ->
  let robots_url := scheme parsed +:+ "://" +:+ netloc parsed +:+ "/robots.txt" in
  exists report,
    check_robots_txt env url = RobotsChecked report
    /\ rs_url (robots_txt_status report) = Some robots_url
    /\ recommendations (analysis report) <> []
    /\ match http_get env robots_url with
       | HttpResponse status text seconds ctype =>
           accessible (robots_txt_status report) = true
           /\ rs_error (robots_txt_status report) = None
           /\ rs_status_code (robots_txt_status report) = status
           /\ found (robots_txt_status report) = bool_decide (status = 200%Z)
           /\ raw_content report
              = (if bool_decide (status = 200%Z) && negb (is_empty text)
                 then Some text else None)
       | _ =>
           accessible (robots_txt_status report) = false
           /\ found (robots_txt_status report) = false
           /\ rs_status_code (robots_txt_status report) = 0%Z
           /\ is_Some (rs_error (robots_txt_status report))
           /\ raw_content report = None
           /\ "Ensure robots.txt is accessible at the domain root"
              ∈ recommendations (analysis report)
       end.
Proof.
  intros Hvalid Hreq Hparsed robots_url.
  unfold check_robots_txt, _fetch_robots_txt. rewrite Hvalid, Hreq, Hparsed.
  cbn [negb]. fold robots_url.
  destruct (http_get env robots_url) as [status text seconds ctype| | |msg|msg];
    cbn [success fetch_status_code fetch_failure andb found accessible
         content truthy fetch_error negb fetch_url response_time
         fetch_content_length fetch_content_type option_map default].
  - destruct (Z.eqb_spec status 200) as [->|Hne]; cbn [andb].
    + rewrite bool_decide_eq_true_2 by done. cbn [andb truthy].
      destruct (is_empty text) eqn:Hempty; cbn [negb].
      * destruct text; [|done]. eexists. split; [reflexivity|]. cbn.
        split_and!; try done.
      * eexists. split; [reflexivity|].
        cbn [robots_txt_status analysis raw_content rs_url accessible rs_error
             rs_status_code found default].
        split_and!; try done.
        unfold _analyze_robots_txt. cbn [recommendations].
        destruct (bool_decide (sitemaps _ = [])); intros Hnil;
          repeat match type of Hnil with
                 | context [if ?b then _ else _] => destruct b
                 end; apply (f_equal length) in Hnil;
          rewrite ?length_app in Hnil; cbn in Hnil; lia.
    + rewrite (bool_decide_eq_false_2 (Some status = Some 200%Z)) by congruence.
      cbn [andb]. rewrite (bool_decide_eq_false_2 (status = 200%Z)) by done.
      eexists. split; [reflexivity|].
      cbn [robots_txt_status analysis raw_content rs_url accessible rs_error
           rs_status_code found default andb].
      split_and!; try done.
      destruct (bool_decide (Some status = Some 404%Z)); by cbn.
  - eexists. split; [reflexivity|]. cbn. split_and!; try done.
    apply list_elem_of_In; cbn; auto.
  - eexists. split; [reflexivity|]. cbn. split_and!; try done.
    apply list_elem_of_In; cbn; auto.
  - eexists. split; [reflexivity|]. cbn. split_and!; try done.
    apply list_elem_of_In; cbn; auto.
  - eexists. split; [reflexivity|]. cbn. split_and!; try done.
    apply list_elem_of_In; cbn; auto.
Qed.

(** X10.  The audit depends on the site, not on the page: two valid URLs
    with the same scheme and netloc give the same status, parsed content,
    analysis and raw content. *)
Theorem check_robots_txt_site_root env url1 url2 p1 p2 :
  _is_valid_url url1 = true -> _is_valid_url url2 = true ->
  urlparse url1 "" = Some p1 -> urlparse url2 "" = Some p2 ->
  scheme p1 = scheme p2 -> netloc p1 = netloc p2 ->
  REQUESTS_AVAILABLE env = true ->
  exists r1 r2,
    check_robots_txt env url1 = RobotsChecked r1
    /\ check_robots_txt env url2 = RobotsChecked r2
    /\ robots_txt_status r1 = robots_txt_status r2
    /\ parsed_content r1 = parsed_content r2
    /\ analysis r1 = analysis r2
    /\ raw_content r1 = raw_content r2.
Proof.
  intros Hv1 Hv2 Hp1 Hp2 Hs Hn Hreq.
  unfold check_robots_txt, _fetch_robots_txt.
  rewrite Hv1, Hv2, Hreq, Hp1, Hp2, Hs, Hn. cbn [negb].
  destruct (http_get env _) as [status text seconds ctype| | |msg|msg];
    cbn [success fetch_status_code fetch_failure andb];
    try (eexists _, _; split_and!; reflexivity).
  destruct (_ && truthy _); [by eexists _, _|].
  cbn [accessible]. by eexists _, _.
Qed.

(** Association lists as dictionaries. *)
Lemma assoc_snoc {A : Type} (k k' : string) (v : A) (d : list (string * A)) :
  assoc k d = None ->
  assoc k' (d ++ [(k, v)]) = if String.eqb k k' then Some v else assoc k' d.
Proof.
  intros Hk. induction d as [|[k0 v0] d IH]; cbn [assoc app].
  - done.
  - cbn [assoc] in Hk. destruct (String.eqb_spec k0 k) as [->|Hne]; [done|].
    rewrite (IH Hk). destruct (String.eqb_spec k0 k') as [->|?]; [|done].
    destruct (String.eqb_spec k k') as [->|?]; done.
Qed.

Lemma assoc_update_lookup {A : Type} (k k' : string) (f : A -> A)
    (d : list (string * A)) :
  assoc k' (assoc_update k f d)
  = if String.eqb k k' then f <$> assoc k' d else assoc k' d.
Proof.
  unfold assoc_update. induction d as [|[k0 v0] d IH];
    cbn [assoc fmap list_fmap fst snd].
  - by destruct (String.eqb k k').
  - destruct (String.eqb_spec k0 k) as [->|Hne]; cbn [assoc fst snd].
    + destruct (String.eqb_spec k k') as [->|?]; [done|]. apply IH.
    + destruct (String.eqb_spec k0 k') as [->|?]; [|apply IH].
      destruct (String.eqb_spec k k') as [->|?]; done.
Qed.

Lemma assoc_set_lookup {A : Type} (k k' : string) (v : A) (d : list (string * A)) :
  assoc k' (assoc_set k v d) = if String.eqb k k' then Some v else assoc k' d.
Proof.
  induction d as [|[k0 v0] d IH]; cbn [assoc assoc_set].
  - done.
  - destruct (String.eqb_spec k0 k) as [->|Hne]; cbn [assoc].
    + destruct (String.eqb_spec k k') as [->|?]; done.
    + destruct (String.eqb_spec k0 k') as [->|?]; [|apply IH].
      destruct (String.eqb_spec k k') as [->|?]; done.
Qed.

Lemma assoc_None_keys {A : Type} (k : string) (d : list (string * A)) :
  assoc k d = None <-> k ∉ d.*1.
Proof.
  induction d as [|[k0 v0] d IH]; cbn [assoc fmap list_fmap fst].
  - split; [intros _ ?%elem_of_nil; done|done].
  - rewrite not_elem_of_cons, <- IH.
    destruct (String.eqb_spec k0 k) as [->|?]; [by split; [|intros [? _]]|].
    split; [by split|by intros [_ ?]].
Qed.

Lemma assoc_update_keys {A : Type} (k : string) (f : A -> A)
    (d : list (string * A)) :
  (assoc_update k f d).*1 = d.*1.
Proof.
  unfold assoc_update. induction d as [|[k0 v0] d IH]; cbn; [done|].
  rewrite IH. by destruct (String.eqb k0 k).
Qed.

Lemma parse_line_inv st numbered :
  parse_inv st -> parse_inv (parse_line st numbered).
Proof.
  destruct st as [p current], numbered as [line_num raw].
  intros (Hnd & Hdelay & Hcur). unfold parse_line. cbn [fst snd] in *.
  repeat match goal with
         | |- parse_inv (if ?b then _ else _) => destruct b eqn:?
         | |- parse_inv (let '(_, _) := ?x in _) => destruct x eqn:?
         | |- parse_inv (match ?x with _ => _ end) => destruct x eqn:?
         end;
    try (split_and!; cbn [fst snd user_agents crawl_delay add_error add_warning
                          with_agents]; done).
  - (* User-agent *)
    set (k := if is_empty _ then _ else _).
    unfold parse_inv. cbn [fst snd with_agents user_agents crawl_delay].
    destruct (assoc k (user_agents p)) as [r|] eqn:Hnew.
    + split_and!; [done|done|]. intros ua [= <-]. by eexists.
    + split_and!.
      * rewrite fmap_app. apply NoDup_app.
        split_and!; [done| |apply NoDup_singleton].
        intros x Hx ->%list_elem_of_singleton. by apply assoc_None_keys in Hnew.
      * intros ua. rewrite assoc_snoc by done.
        destruct (String.eqb_spec k ua) as [<-|?]; [|apply Hdelay].
        by rewrite Hdelay, Hnew.
      * intros ua [= <-]. rewrite assoc_snoc by done.
        rewrite String.eqb_refl. by eexists.
  - (* Allow or Disallow *)
    unfold parse_inv. cbn [fst snd with_agents user_agents crawl_delay].
    split_and!.
    + by rewrite assoc_update_keys.
    + intros ua. rewrite assoc_update_lookup, Hdelay.
      destruct (String.eqb _ ua); [|done].
      destruct (assoc ua (user_agents p)) as [r|]; [|done]. cbn.
      by destruct (String.eqb _ "allow").
    + intros ua Hua. rewrite assoc_update_lookup.
      destruct (Hcur ua Hua) as [r ->]. destruct (String.eqb _ ua); by eexists.
  - (* Crawl-delay *)
    unfold parse_inv. cbn [fst snd user_agents crawl_delay].
    match goal with |- context [assoc_set ?k _ _] => rename k into agent end.
    split_and!.
    + by rewrite assoc_update_keys.
    + intros ua. rewrite assoc_set_lookup, assoc_update_lookup.
      destruct (String.eqb_spec agent ua) as [<-|?]; [|apply Hdelay].
      destruct (Hcur agent eq_refl) as [r ->]. done.
    + intros ua Hua. rewrite assoc_update_lookup.
      destruct (Hcur ua Hua) as [r ->]. destruct (String.eqb _ ua); by eexists.
  - (* Sitemap *)
    unfold parse_inv.
    cbn [fst snd user_agents crawl_delay].
    destruct (negb (_ || _)); cbn [user_agents crawl_delay add_warning];
      split_and!; auto.
Qed.

Lemma parse_lines_inv lines st :
  parse_inv st -> parse_inv (foldl parse_line st lines).
Proof.
  revert st. induction lines as [|l ls IH]; intros st Hst; cbn [foldl]; [done|].
  by apply IH, parse_line_inv.
Qed.

Lemma parse_robots_inv content :
  exists cur, parse_inv (_parse_robots_txt content, cur).
Proof.
  assert (parse_inv (empty_parsed, None)) as Hstart.
  { split_and!; cbn; [apply NoDup_nil_2|done|done]. }
  unfold _parse_robots_txt. destruct (is_empty content); [by exists None|].
  pose proof (parse_lines_inv
                (enumerate1 (split "010" (strip is_space content)))
                (empty_parsed, None) Hstart) as Hi.
  destruct (foldl parse_line _ _) as [p' cur]. by exists cur.
Qed.

(** X11.  In the result of [_parse_robots_txt] the two records of crawl
    delays agree: the top-level [crawl_delay] dictionary has a delay for a
    user agent exactly when the rules of that agent carry the same delay;
    in particular every agent listed there has an entry in [user_agents]. *)
Theorem parse_robots_crawl_delay content ua :
  let p := _parse_robots_txt content in
  assoc ua (crawl_delay p) = assoc ua (user_agents p) ≫= agent_crawl_delay.
Proof.
  intros p. destruct (parse_robots_inv content) as [cur (_ & Hd & _)].
  apply Hd.
Qed.

End Extras.

Lemma check_robots_txt_status_witness :
  exists report,
    @check_robots_txt Examples.integer_delays Fixture.permissive_checks
      RobotsFixture.with_robots "https://example.com/shop"
    = RobotsChecked report
    /\ rs_url (robots_txt_status report) = Some "https://example.com/robots.txt"
    /\ recommendations (analysis report) <> []
    /\ accessible (robots_txt_status report) = true
    /\ rs_error (robots_txt_status report) = None
    /\ rs_status_code (robots_txt_status report) = 200%Z
    /\ found (robots_txt_status report) = true
    /\ raw_content report = Some RobotsFixture.robots_file.
Proof.
  apply (@check_robots_txt_status Fixture.permissive_checks
           Examples.integer_delays RobotsFixture.with_robots
           "https://example.com/shop"
           (mkParse "https" "example.com" "/shop" "" "" "")); reflexivity.
Defined.

Lemma check_robots_txt_site_root_witness :
  exists r1 r2,
    @check_robots_txt Examples.integer_delays Fixture.permissive_checks
      RobotsFixture.with_robots "https://example.com/shop"
    = RobotsChecked r1
    /\ @check_robots_txt Examples.integer_delays Fixture.permissive_checks
         RobotsFixture.with_robots "https://example.com/about?team=1"
       = RobotsChecked r2
    /\ robots_txt_status r1 = robots_txt_status r2
    /\ parsed_content r1 = parsed_content r2
    /\ analysis r1 = analysis r2
    /\ raw_content r1 = raw_content r2.
Proof.
  apply (@check_robots_txt_site_root Fixture.permissive_checks
           Examples.integer_delays RobotsFixture.with_robots
           "https://example.com/shop" "https://example.com/about?team=1"
           (mkParse "https" "example.com" "/shop" "" "" "")
           (mkParse "https" "example.com" "/about" "" "team=1" ""));
    reflexivity.
Defined.

End RobotsExtras.


(** * The robots.txt parser *)

Module ParserExtras.
Import PyStr UrlLib WebAudit Robots RobotsLines.

Section Extras.
Context `{!PyFloat}.

Lemma filter_snoc {A : Type} (f : A -> bool) (l : list A) (x : A) :
  List.filter f (l ++ [x]) = List.filter f l ++ (if f x then [x] else []).
Proof. by rewrite List.filter_app. Qed.

Lemma parse_line_accounted st numbered :
  accounted (parse_line st numbered).1 + relative_sitemaps st.1
  = accounted st.1 + relative_sitemaps (parse_line st numbered).1
    + (if effective numbered.2 then 1 else 0).
Proof.
  destruct st as [p current], numbered as [line_num raw].
  unfold parse_line, effective. cbn [fst snd].
  destruct (is_empty (strip is_space (hd "" (split "#" raw)))); cbn [negb fst];
    [lia|].
  repeat match goal with
         | |- context [if ?b then (_, _) else _] => destruct b eqn:?
         | |- context [let '(_, _) := ?x in _] => destruct x eqn:?
         | |- context [match ?x with Some _ => (_, _) | None => _ end] =>
             destruct x eqn:?
         end;
    unfold accounted, relative_sitemaps;
    cbn [fst snd add_error add_warning with_agents total_rules errors warnings
         sitemaps];
    rewrite ?length_app; cbn [length]; try lia.
  all: match goal with
       | |- context [negb (startswith ?v _ || _)] =>
           change (negb (startswith v "http://" || startswith v "https://"))
             with (relative_sitemap v);
           destruct (relative_sitemap v) eqn:Hrel
       end;
    cbn [add_warning total_rules errors warnings sitemaps];
    rewrite filter_snoc, Hrel, ?length_app; cbn [length]; lia.
Qed.

Lemma parse_lines_accounted numbered st :
  accounted (foldl parse_line st numbered).1 + relative_sitemaps st.1
  = accounted st.1 + relative_sitemaps (foldl parse_line st numbered).1
    + length (List.filter effective numbered.*2).
Proof.
  revert st. induction numbered as [|nl l IH]; intros st;
    cbn [foldl fmap list_fmap List.filter length]; [lia|].
  pose proof (IH (parse_line st nl)) as IH'.
  pose proof (parse_line_accounted st nl) as Hstep.
  destruct (effective nl.2); cbn [length]; lia.
Qed.

Lemma enumerate1_values (lines : list string) : (enumerate1 lines).*2 = lines.
Proof. unfold enumerate1. apply snd_zip. by rewrite length_seq. Qed.

(** X12.  Every line of a robots.txt file that is not blank or a comment is
    accounted for exactly once, as a rule, an error or a warning; the one
    exception is a sitemap line with a relative URL, which counts as a rule
    and draws a warning as well. *)
Theorem parse_robots_accounting content :
  let p := _parse_robots_txt content in
  (total_rules p + length (errors p) + length (warnings p)
   = length (List.filter effective (lines_of content))
     + length (List.filter relative_sitemap (sitemaps p)))%nat.
Proof.
  intros p. unfold p, _parse_robots_txt, lines_of.
  destruct (is_empty content); [done|].
  pose proof (parse_lines_accounted
                (enumerate1 (split "010" (strip is_space content)))
                (empty_parsed, None)) as Hacc.
  rewrite enumerate1_values in Hacc.
  unfold accounted, relative_sitemaps in Hacc. cbn [fst] in Hacc.
  cbn [empty_parsed total_rules errors warnings sitemaps List.filter length]
    in Hacc. lia.
Qed.

Lemma parse_line_notes st numbered (nl : nat * string) :
  nl ∈ numbered ->
  Forall (note_from numbered) (errors st.1) ->
  Forall (note_from numbered) (warnings st.1) ->
  Forall (note_from numbered) (errors (parse_line st nl).1)
  /\ Forall (note_from numbered) (warnings (parse_line st nl).1).
Proof.
  destruct st as [p current], nl as [line_num raw]. cbn [fst snd].
  intros Hin He Hw. unfold parse_line.
  destruct (is_empty (strip is_space (hd "" (split "#" raw)))) eqn:Hempty;
    [done|].
  assert (forall text,
             note_from numbered
               (mkNote line_num (strip is_space (hd "" (split "#" raw))) text))
    as Hnote.
  { intros text. exists raw. split_and!; [done|done|]. cbn [note_content].
    intros Heq. by rewrite Heq in Hempty. }
  repeat match goal with
         | |- context [if ?b then (_, _) else _] => destruct b eqn:?
         | |- context [let '(_, _) := ?x in _] => destruct x eqn:?
         | |- context [match ?x with Some _ => (_, _) | None => _ end] =>
             destruct x eqn:?
         end;
    cbn [fst snd add_error add_warning with_agents errors warnings];
    rewrite ?Forall_app, ?Forall_singleton; try (split_and!; done).
  all: destruct (negb (_ || _)); cbn [add_warning errors warnings];
    rewrite ?Forall_app, ?Forall_singleton; split_and!; done.
Qed.

Lemma parse_lines_notes numbered todo st :
  todo ⊆ numbered ->
  Forall (note_from numbered) (errors st.1) ->
  Forall (note_from numbered) (warnings st.1) ->
  Forall (note_from numbered) (errors (foldl parse_line st todo).1)
  /\ Forall (note_from numbered) (warnings (foldl parse_line st todo).1).
Proof.
  revert st. induction todo as [|nl l IH]; intros st Hsub He Hw; cbn [foldl];
    [done|].
  destruct (parse_line_notes st numbered nl) as [He' Hw'];
    [apply Hsub; by left|done..|].
  apply IH; [|done..]. intros x Hx. apply Hsub. by right.
Qed.

Lemma enumerate1_lookup (lines : list string) n raw :
  (n, raw) ∈ enumerate1 lines ->
  (1 <= n)%nat /\ lines !! (n - 1)%nat = Some raw.
Proof.
  unfold enumerate1. intros [i Hi]%list_elem_of_lookup_1.
  apply lookup_zip_with_Some in Hi as (a & b & [= <- <-] & Ha & Hb).
  apply lookup_seq in Ha as [-> _].
  split; [lia|]. by replace (1 + i - 1)%nat with i by lia.
Qed.

(** X13.  Every error and every warning of [_parse_robots_txt] points at a
    line of the file: its line number counts from 1, and its content is the
    text of that line with the comment and the surrounding white space
    removed, which is never empty. *)
Theorem parse_robots_notes content (n : Note) :
  let p := _parse_robots_txt content in
  n ∈ errors p ++ warnings p ->
  exists raw,
    (1 <= note_line n)%nat
    /\ lines_of content !! (note_line n - 1)%nat = Some raw
    /\ note_content n = strip is_space (hd "" (split "#" raw))
    /\ note_content n <> "".
Proof.
  intros p. unfold p, _parse_robots_txt, lines_of.
  destruct (is_empty content); [by intros ?%elem_of_nil|].
  set (lines := split "010" (strip is_space content)).
  destruct (parse_lines_notes (enumerate1 lines) (enumerate1 lines)
              (empty_parsed, None)) as [He Hw]; [done|by constructor..|].
  rewrite Forall_forall in He, Hw.
  intros [Hn|Hn]%elem_of_app; [apply He in Hn|apply Hw in Hn];
    destruct Hn as (raw & Hin & Hc & Hne);
    apply enumerate1_lookup in Hin as [? ?]; by exists raw.
Qed.

End Extras.

Lemma parse_robots_notes_witness :
  exists raw,
    (1 <= note_line RobotsFixture.missing_colon)%nat
    /\ lines_of RobotsFixture.robots_file
        !! (note_line RobotsFixture.missing_colon - 1)%nat = Some raw
    /\ note_content RobotsFixture.missing_colon
       = strip is_space (hd "" (split "#" raw))
    /\ note_content RobotsFixture.missing_colon <> "".
Proof.
  apply (@parse_robots_notes Examples.integer_delays RobotsFixture.robots_file
           RobotsFixture.missing_colon).
  apply list_elem_of_In. vm_compute. auto.
Defined.

End ParserExtras.


(** * The analysis of a parsed robots.txt file *)

Module AnalysisExtras.
Import PyStr UrlLib WebAudit Robots RobotsLines.

Section Extras.
Context `{!PyFloat}.

Lemma snoc_not_nil {A : Type} (l : list A) (x : A) : l ++ [x] <> [].
Proof. by destruct l. Qed.

Lemma grows_not_nil {A : Type} (l : list A) (x : A) (b : bool) :
  l <> [] -> (if b then l ++ [x] else l) <> [].
Proof. destruct b; [intros _; apply snoc_not_nil|done]. Qed.

Lemma mem_elem_of (x : string) (l : list string) : mem x l = true -> x ∈ l.
Proof. unfold mem. apply bool_decide_eq_true_1. Qed.

Lemma analyze_shape parsed base_url :
  exists summ recs seo blocked important,
    _analyze_robots_txt parsed base_url
    = mkAnalysis summ recs seo
        (mkCrawlability blocked (negb blocked && important) [] (negb blocked))
    /\ recs <> []
    /\ (blocked = true ->
        exists rules, assoc "*" (user_agents parsed) = Some rules
                      /\ "/" ∈ disallow rules /\ allow rules = []).
Proof.
  unfold _analyze_robots_txt.
  set (blocked := match assoc "*" _ with Some _ => _ | None => _ end).
  assert (blocked = true ->
          exists rules, assoc "*" (user_agents parsed) = Some rules
                        /\ "/" ∈ disallow rules /\ allow rules = []) as Hblocked.
  { unfold blocked. destruct (assoc "*" (user_agents parsed)) as [rules|]; [|done].
    intros [Hmem Hallow%bool_decide_eq_true]%andb_true_iff. exists rules.
    split_and!; [done|by apply mem_elem_of|done]. }
  clearbody blocked.
  destruct blocked;
    destruct (bool_decide (sitemaps parsed = []));
    destruct (negb (bool_decide (crawl_delay parsed = [])) && _);
    destruct (negb (bool_decide (errors parsed = [])));
    (eexists _, _, _, _, _; split_and!; [reflexivity| |done]);
    repeat first [apply grows_not_nil | apply snoc_not_nil].
Qed.

(** X14.  [_analyze_robots_txt] never reports a site as both completely and
    partially blocked, and says that crawling is allowed exactly when the
    site is not completely blocked, which needs a rule [Disallow: /] and no
    [Allow] rule for the agent [*]; it always gives at least one
    recommendation, and it does not look at its [base_url] argument. *)
Theorem analyze_robots_crawlability parsed base_url :
  let a := _analyze_robots_txt parsed base_url in
  completely_blocked (crawlability a) && partially_blocked (crawlability a)
  = false
  /\ allows_crawling (crawlability a) = negb (completely_blocked (crawlability a))
  /\ (completely_blocked (crawlability a) = true ->
      exists rules, assoc "*" (user_agents parsed) = Some rules
                    /\ "/" ∈ disallow rules /\ allow rules = [])
  /\ recommendations a <> []
  /\ forall other_url, _analyze_robots_txt parsed other_url = a.
Proof.
  intros a.
  assert (forall other_url, _analyze_robots_txt parsed other_url = a) as Hany
      by reflexivity.
  unfold a in *. clear a.
  destruct (analyze_shape parsed base_url)
    as (summ & recs & seo & blocked & important & Ha & Hrecs & Hblocked).
  rewrite Ha in *.
  cbn [crawlability completely_blocked partially_blocked allows_crawling
       recommendations].
  split_and!; [by destruct blocked|done..].
Qed.

End Extras.
End AnalysisExtras.


(** * Further properties of the scores *)

Module ScoreExtras.
Import PyStr Scores ScoreParts.

Lemma app_nil_iff {A : Type} (l k : list A) : l ++ k = [] <-> l = [] /\ k = [].
Proof. split; [apply app_eq_nil|by intros [-> ->]]. Qed.

Lemma fmap_nil_iff {A B : Type} (f : A -> B) (l : list A) :
  f <$> l = [] <-> l = [].
Proof. split; [apply fmap_nil_inv|by intros ->]. Qed.

(** X15.  [_analyze_https_security] reports no issue exactly when HTTPS is
    available, HTTP redirects to it, the certificate is valid for at least
    30 more days, the protocol is TLS 1.2 or 1.3 and there is no SSL warning;
    the score is 100 exactly when the four compliance flags hold, so a report
    without issues has score 100; there are always five recommendations. *)
Theorem https_issues_and_score https_status ssl_info :
  let a := _analyze_https_security https_status ssl_info in
  (security_issues a = []
   <-> https_available https_status = true
       /\ http_redirects_to_https https_status = true
       /\ ssl_valid ssl_info = true
       /\ (30 <= days_until_expiry ssl_info)%Z
       /\ UrlLib.mem (tls_protocol ssl_info) ["TLSv1.2"; "TLSv1.3"] = true
       /\ ssl_warnings ssl_info = [])
  /\ (security_score a = 100%Z
      <-> has_https (compliance a) = true
          /\ forces_https (compliance a) = true
          /\ valid_certificate (compliance a) = true
          /\ modern_tls (compliance a) = true)
  /\ (security_issues a = [] -> security_score a = 100%Z)
  /\ length (security_recommendations a) = 5.
Proof.
  intros a. unfold a, _analyze_https_security.
  destruct (https_available https_status), (http_redirects_to_https https_status),
    (ssl_valid ssl_info), (Z.ltb_spec (days_until_expiry ssl_info) 30),
    (UrlLib.mem (tls_protocol ssl_info) ["TLSv1.2"; "TLSv1.3"]),
    (UrlLib.mem (tls_protocol ssl_info) ["TLSv1.1"; "TLSv1"]);
    cbn [security_issues security_score security_recommendations compliance
         has_https forces_https valid_certificate modern_tls app length];
    rewrite ?length_app; cbn [length];
    rewrite ?app_nil_iff, ?fmap_nil_iff;
    (split_and!;
     [split; [intros ?|intros (? & ? & ? & ? & ? & ?)]
     |split; [intros ?|intros (? & ? & ? & ?)]
     |intros ?
     |reflexivity]);
    repeat match goal with
           | H : _ /\ _ |- _ => destruct H
           | H : _ :: _ = [] |- _ => discriminate H
           | H : false = true |- _ => discriminate H
           end;
    try (exfalso; lia); try lia; split_and?; done.
Qed.

Lemma count_violation_total c v :
  severity_total (count_violation c v) = S (severity_total c).
Proof.
  unfold count_violation, severity_total.
  repeat match goal with
         | |- context [if ?b then _ else _] => destruct b
         end; cbn [critical serious moderate minor]; lia.
Qed.

Lemma count_violations_total vs c :
  severity_total (foldl count_violation c vs) = severity_total c + length vs.
Proof.
  revert c. induction vs as [|v vs IH]; intros c; cbn [foldl length]; [lia|].
  rewrite IH, count_violation_total. lia.
Qed.

Section Rounding.
Context `{!Float64}.

Lemma fl_fixed (x y : Q) : (x == y)%Q -> (fl y == y)%Q -> (fl x == y)%Q.
Proof.
  intros Hxy Hy. apply Qle_antisym.
  - apply Qle_trans with (fl y); [|rewrite Hy; apply Qle_refl].
    apply fl_mono. rewrite Hxy. apply Qle_refl.
  - apply Qle_trans with (fl y); [rewrite Hy; apply Qle_refl|].
    apply fl_mono. rewrite Hxy. apply Qle_refl.
Qed.

Lemma py_int_exact (x : Q) (n : Z) : (0 <= n)%Z -> (x == inject_Z n)%Q -> py_int x = n.
Proof.
  intros Hn Hx. unfold py_int.
  assert (Qle_bool 0 x = true) as ->.
  { apply Qle_bool_iff. rewrite Hx. change 0%Q with (inject_Z 0).
    by rewrite <- Zle_Qle. }
  assert (n <= Qfloor x <= n)%Z; [|lia].
  apply ScoreClaims.Qfloor_bounds; rewrite Hx; apply Qle_refl.
Qed.

(** X16.  In the accessibility summary every violation is counted under
    exactly one severity, so the four counts add up to [total_violations];
    the score is 100 when checks passed and none failed, and 0 when none
    passed. *)
Theorem accessibility_counts alt_results contrast_results aria_results :
  let s := _analyze_accessibility_results alt_results contrast_results
             aria_results in
  let sev := violations_by_severity s in
  critical sev + serious sev + moderate sev + minor sev = total_violations s
  /\ (total_violations s = 0 -> 0 < total_passes s ->
      accessibility_score s = 100%Z)
  /\ (total_passes s = 0 -> accessibility_score s = 0%Z)
  /\ accessibility_recommendations s <> [].
Proof.
  intros s sev. unfold sev, s, _analyze_accessibility_results.
  cbn [violations_by_severity total_violations total_passes accessibility_score
       accessibility_recommendations].
  split_and!.
  - pose proof (count_violations_total
                  (violations alt_results ++ violations contrast_results
                   ++ violations aria_results) (mkSeverity 0 0 0 0)) as Hsum.
    unfold severity_total in Hsum. rewrite !length_app in Hsum.
    cbn [critical serious moderate minor] in Hsum. lia.
  - intros -> Hpos. cbn [Nat.add].
    destruct (Nat.eqb_spec (length (passes alt_results)
                            + length (passes contrast_results)
                            + length (passes aria_results)) 0) as [Hz|Hnz];
      [lia|].
    set (n := inject_Z (Z.of_nat _)).
    assert (~ n == 0)%Q as Hn.
    { unfold n. change 0%Q with (inject_Z 0). rewrite inject_Z_injective. lia. }
    apply py_int_exact; [lia|].
    apply fl_fixed; [|apply fl_100].
    rewrite (fl_fixed (n / n) 1); [by compute| |apply fl_1].
    by apply Qmult_inv_r.
  - intros ->. rewrite Nat.add_0_r.
    destruct (_ =? 0)%nat; [done|].
    apply py_int_exact; [lia|].
    apply fl_fixed; [|apply fl_0].
    rewrite (fl_fixed (inject_Z (Z.of_nat 0) / _) 0); [by compute| |apply fl_0].
    unfold Qdiv. apply Qmult_0_l.
  - apply AnalysisExtras.snoc_not_nil.
Qed.

End Rounding.

Lemma posts_chain (x posts : Z) :
  (if (100 <=? posts)%Z then x + 20
   else if (50 <=? posts)%Z then x + 15
   else if (20 <=? posts)%Z then x + 10
   else if (5 <=? posts)%Z then x + 5 else x)%Z
  = (x + posts_points posts)%Z.
Proof.
  unfold posts_points.
  repeat match goal with
         | |- context [(?k <=? ?y)%Z] => destruct (k <=? y)%Z
         end; lia.
Qed.

Lemma ratio_chain (x : Z) (ratio : Q) :
  (if Qle_bool 10 ratio then x + 20
   else if Qle_bool 5 ratio then x + 15
   else if Qle_bool 2 ratio then x + 10
   else if Qle_bool 1 ratio then x + 5 else x)%Z
  = (x + ratio_points ratio)%Z.
Proof.
  unfold ratio_points.
  repeat match goal with
         | |- context [Qle_bool ?k ?y] => destruct (Qle_bool k y)
         end; lia.
Qed.

Lemma posts_points_spec (posts : Z) :
  (0 <= posts_points posts <= 20)%Z
  /\ (posts_points posts mod 5 = 0)%Z
  /\ (posts_points posts = 20%Z <-> (100 <= posts)%Z).
Proof.
  unfold posts_points.
  repeat match goal with
         | |- context [(?k <=? ?y)%Z] => destruct (Z.leb_spec k y)
         end; split_and!; try done; lia.
Qed.

Lemma ratio_points_spec (ratio : Q) :
  (0 <= ratio_points ratio <= 20)%Z
  /\ (ratio_points ratio mod 5 = 0)%Z
  /\ (ratio_points ratio = 20%Z <-> (10 <= ratio)%Q).
Proof.
  unfold ratio_points. rewrite <- Qle_bool_iff.
  repeat match goal with
         | |- context [Qle_bool ?k ?y] => destruct (Qle_bool k y)
         end; split_and!; try done; lia.
Qed.

Lemma profile_score_sum p :
  _calculate_profile_score p
  = (fixed_points p + posts_points (posts_count p)
     + ratio_points (follower_following_ratio p))%Z.
Proof.
  unfold _calculate_profile_score. cbv zeta.
  rewrite posts_chain, ratio_chain.
  pose proof (posts_points_spec (posts_count p)) as (Hp & _ & _).
  pose proof (ratio_points_spec (follower_following_ratio p)) as (Hr & _ & _).
  unfold fixed_points.
  destruct (truthy (profile_picture_url p)), (truthy (bio p)),
    (50 <? String.length (default "" (bio p)))%nat, (is_verified p),
    (truthy (profile_name p)); lia.
Qed.

Lemma posts_points_mono a b : (a <= b)%Z -> (posts_points a <= posts_points b)%Z.
Proof.
  intros Hab. unfold posts_points.
  repeat match goal with
         | |- context [(?k <=? ?x)%Z] => destruct (Z.leb_spec k x)
         end; lia.
Qed.

Lemma Qle_bool_mono k a b :
  (a <= b)%Q -> Qle_bool k a = true -> Qle_bool k b = true.
Proof.
  rewrite !Qle_bool_iff. intros Hab Hka. by apply Qle_trans with a.
Qed.

Lemma ratio_points_mono a b : (a <= b)%Q -> (ratio_points a <= ratio_points b)%Z.
Proof.
  intros Hab. unfold ratio_points.
  destruct (Qle_bool 10 a) eqn:E10;
    [rewrite (Qle_bool_mono 10 a b Hab E10); lia|].
  destruct (Qle_bool 5 a) eqn:E5;
    [rewrite (Qle_bool_mono 5 a b Hab E5); destruct (Qle_bool 10 b); lia|].
  destruct (Qle_bool 2 a) eqn:E2;
    [rewrite (Qle_bool_mono 2 a b Hab E2);
     destruct (Qle_bool 10 b), (Qle_bool 5 b); lia|].
  destruct (Qle_bool 1 a) eqn:E1;
    [rewrite (Qle_bool_mono 1 a b Hab E1);
     destruct (Qle_bool 10 b), (Qle_bool 5 b), (Qle_bool 2 b); lia|].
  destruct (Qle_bool 10 b), (Qle_bool 5 b), (Qle_bool 2 b), (Qle_bool 1 b); lia.
Qed.

(** X17.  The profile score does not decrease when a profile has more posts
    or a higher follower ratio and is otherwise unchanged. *)
Theorem profile_score_monotone (p p' : ProfileInfo) :
  profile_picture_url p = profile_picture_url p' -> bio p = bio p' ->
  is_verified p = is_verified p' -> profile_name p = profile_name p' ->
  (posts_count p <= posts_count p')%Z ->
  (follower_following_ratio p <= follower_following_ratio p')%Q ->
  (_calculate_profile_score p <= _calculate_profile_score p')%Z.
Proof.
  intros Hpic Hbio Hver Hname Hposts Hratio. rewrite !profile_score_sum.
  pose proof (posts_points_mono _ _ Hposts).
  pose proof (ratio_points_mono _ _ Hratio).
  unfold fixed_points. rewrite Hpic, Hbio, Hver, Hname. lia.
Qed.

(** X18.  The parts of the profile score add up to exactly 100, so the cap
    [min(score, max_score)] never takes effect, and the score is 100 exactly
    for a profile with a picture, a bio of more than 50 characters, the
    verified mark, a name, at least 100 posts and a follower ratio of at
    least 10.  The score is a multiple of 5. *)
Theorem profile_score_full (p : ProfileInfo) :
  (_calculate_profile_score p = 100%Z
   <-> truthy (profile_picture_url p) = true
       /\ (50 < String.length (default "" (bio p)))%nat
       /\ is_verified p = true
       /\ truthy (profile_name p) = true
       /\ (100 <= posts_count p)%Z
       /\ (10 <= follower_following_ratio p)%Q)
  /\ (_calculate_profile_score p mod 5 = 0)%Z.
Proof.
  rewrite profile_score_sum.
  pose proof (posts_points_spec (posts_count p)) as (Hp & Hp5 & Hp20).
  pose proof (ratio_points_spec (follower_following_ratio p))
    as (Hr & Hr5 & Hr20).
  rewrite <- Hp20, <- Hr20. clear Hp20 Hr20.
  set (a := posts_points (posts_count p)) in *.
  set (b := ratio_points (follower_following_ratio p)) in *.
  clearbody a b. unfold fixed_points.
  assert (truthy (bio p) = false -> String.length (default "" (bio p)) = 0%nat)
    as Hbio.
  { destruct (bio p) as [[|? ?]|]; done. }
  destruct (truthy (profile_picture_url p)), (truthy (bio p)),
    (Nat.ltb_spec 50 (String.length (default "" (bio p)))), (is_verified p),
    (truthy (profile_name p));
    (split; [split; [intros ?; split_and?; done || lia
                    |intros (? & ? & ? & ? & ? & ?); done || lia]
            |Z.div_mod_to_equations; lia]).
Qed.

Lemma profile_score_monotone_witness :
  (_calculate_profile_score
     (mkProfile (Some "https://cdn.test/me.jpg") (Some "Baker") true 10 (1 # 2)
        (Some "Ada"))
   <= _calculate_profile_score
        (mkProfile (Some "https://cdn.test/me.jpg") (Some "Baker") true 60 3
           (Some "Ada")))%Z.
Proof.
  apply profile_score_monotone; try reflexivity.
  - simpl. lia.
  - by compute.
Defined.

End ScoreExtras.


(** * The helpers of the Instagram audit *)

Module SocialExtras.
Import PyStr Socials.

(** X19.  [_calculate_bio_score] gives 0 for an empty bio and otherwise a
    multiple of 5 between 15 and 100; its parts add up to exactly 100, so the
    cap never takes effect, and 100 is reached exactly by a bio of 50 to 150
    characters with hashtags, a link pattern and a contact pattern.  Only
    whether there are hashtags matters, not which or how many. *)
Theorem bio_score_spec (bio : string) (hashtags : list string) :
  let score := _calculate_bio_score bio hashtags in
  (bio = "" -> score = 0%Z)
  /\ (bio <> "" -> (15 <= score <= 100)%Z)
  /\ (score mod 5 = 0)%Z
  /\ (score = 100%Z
      <-> (50 <= String.length bio <= 150)%nat
          /\ hashtags <> []
          /\ any_in ["link"; "bio"; ".com"; "www"] (lower bio) = true
          /\ any_in ["email"; "@"; "contact"; "dm"] (lower bio) = true)
  /\ (forall others, others <> [] -> hashtags <> [] ->
        _calculate_bio_score bio others = score).
Proof.
  intros score. unfold score, _calculate_bio_score.
  destruct bio as [|c bio]; cbn [is_empty].
  { split_and!; [done|done|done| |done].
    split; [done|]. cbn [String.length]. lia. }
  set (text := String c bio).
  assert (0 < String.length text)%nat as Hlen by (cbn [text String.length]; lia).
  destruct (Nat.ltb_spec 0 (String.length text)) as [_|?]; [|lia].
  assert (((50 <=? String.length text)%nat && (String.length text <=? 150)%nat
           = true) <-> (50 <= String.length text <= 150)%nat) as Hrange.
  { rewrite andb_true_iff, Nat.leb_le, Nat.leb_le. done. }
  destruct ((50 <=? String.length text)%nat && (String.length text <=? 150)%nat);
    destruct (any_in ["link"; "bio"; ".com"; "www"] (lower text)),
      (any_in ["email"; "@"; "contact"; "dm"] (lower text));
    (split_and!; [done| | | |]);
    try (intros others Hothers Hhash;
         rewrite !(bool_decide_eq_false_2 (_ = [])) by done; done);
    destruct (decide (hashtags = [])) as [->|Hne];
    rewrite ?bool_decide_eq_true_2 by done;
    rewrite ?(bool_decide_eq_false_2 (hashtags = [])) by done;
    cbn [negb]; try lia; try done;
    (split; [intros ?; (lia || (split_and!; try done; apply Hrange; done))
            |intros (? & ? & ? & ?); try done; try lia;
             exfalso;
             match goal with
             | H : (50 <= _ <= 150)%nat |- _ => apply Hrange in H; done
             end]).
Qed.

(** X20.  [_generate_hashtag_recommendations] gives at most two
    recommendations.  Without hashtags it asks to add some, and suggests a
    branded hashtag exactly for more than 1000 followers.  For a profile
    without a user name every hashtag counts as branded, so with hashtags
    the branded hashtag is never suggested. *)
Theorem hashtag_recommendations_spec (bio_hashtags : list string)
    (profile_info : HashtagProfile) :
  let recs := _generate_hashtag_recommendations bio_hashtags profile_info in
  length recs <= 2
  /\ (bio_hashtags = [] ->
      add_hashtags_text ∈ recs
      /\ (branded_text ∈ recs <-> (1000 < followers_count profile_info)%Z))
  /\ (username profile_info = "" -> bio_hashtags <> [] -> branded_text ∉ recs).
Proof.
  intros recs. unfold recs, _generate_hashtag_recommendations. split_and!.
  - destruct (bool_decide (bio_hashtags = [])),
      (5 <? length bio_hashtags)%nat, (negb _ && _);
      rewrite ?length_app; cbn [length]; lia.
  - intros ->. rewrite bool_decide_eq_true_2 by done.
    cbn [List.existsb negb andb app].
    destruct (Z.ltb_spec 1000 (followers_count profile_info)).
    + split; [by left|]. split; [done|]. intros _. right. by left.
    + split; [by left|].
      split; [|lia]. by intros [=]%list_elem_of_singleton.
  - intros -> Hne. rewrite (bool_decide_eq_false_2 (bio_hashtags = [])) by done.
    destruct bio_hashtags as [|tag tags]; [done|].
    cbn [List.existsb lower map]. rewrite PyStrMore.substr_in_empty. cbn [orb negb andb].
    destruct (5 <? _)%nat.
    + by intros [=]%list_elem_of_singleton.
    + by intros ?%elem_of_nil.
Qed.

(** What [str.strip], slicing and the search keep of a string. *)
Lemma forallb_lstrip p q s : forallb p s = true -> forallb p (lstrip q s) = true.
Proof.
  induction s as [|a s IH]; [done|]. cbn [forallb lstrip].
  intros [Ha Hs]%andb_true_iff. destruct (q a); [by apply IH|].
  cbn [forallb]. by rewrite Ha, Hs.
Qed.

Lemma forallb_rstrip p q s : forallb p s = true -> forallb p (rstrip q s) = true.
Proof.
  induction s as [|a s IH]; [done|]. cbn [forallb rstrip].
  intros [Ha Hs]%andb_true_iff. specialize (IH Hs).
  destruct (rstrip q s) as [|b r].
  - destruct (q a); [done|]. cbn [forallb]. by rewrite Ha.
  - cbn [forallb] in *. by rewrite Ha, IH.
Qed.

Lemma forallb_take_while p q s :
  forallb p s = true -> forallb p (take_while q s) = true.
Proof.
  induction s as [|a s IH]; [done|]. cbn [forallb take_while].
  intros [Ha Hs]%andb_true_iff. destruct (q a); [|done].
  cbn [forallb]. by rewrite Ha, IH.
Qed.

Lemma take_while_holds q s : forallb q (take_while q s) = true.
Proof.
  induction s as [|a s IH]; [done|]. cbn [take_while].
  destruct (q a) eqn:Ha; [|done]. cbn [forallb]. by rewrite Ha, IH.
Qed.

Lemma startswith_take_while q s : startswith s (take_while q s) = true.
Proof.
  induction s as [|a s IH]; [done|]. cbn [take_while].
  destruct (q a); [|done]. cbn [startswith]. by rewrite Ascii.eqb_refl.
Qed.

Lemma search_profile_spec s group :
  search_profile s = Some group ->
  group <> "" /\ forallb name_char group = true
  /\ substr_in ("instagram.com/" +:+ group) s = true
  /\ forall p, forallb p s = true -> forallb p group = true.
Proof.
  induction s as [|a s IH]; [done|].
  assert (search_profile s = Some group ->
          group <> "" /\ forallb name_char group = true
          /\ substr_in ("instagram.com/" +:+ group) (String a s) = true
          /\ forall p, forallb p (String a s) = true -> forallb p group = true)
    as Hrest.
  { intros Hs. destruct (IH Hs) as (Hne & Hname & Hsub & Hall).
    split_and!; [done|done| |].
    - cbn [substr_in]. rewrite Hsub. by rewrite orb_true_r.
    - intros p [_ Hp]%andb_true_iff. by apply Hall. }
  cbn [search_profile].
  destruct (startswith (String a s) "instagram.com/") eqn:Hstart; [|done].
  destruct (drop 14 (String a s)) as [|d rest] eqn:Hdrop; [done|].
  destruct (name_char d) eqn:Hd; [|done].
  intros Hgroup. apply (inj Some) in Hgroup. subst group. clear IH Hrest.
  split_and!.
  - cbn [take_while]. by rewrite Hd.
  - apply take_while_holds.
  - cbn [substr_in]. apply orb_true_iff. left.
    rewrite (PyStrMore.startswith_append _ _ Hstart) at 1.
    apply PyStrMore.startswith_append_both. change (String.length "instagram.com/") with 14.
    rewrite Hdrop. apply startswith_take_while.
  - intros p Hp. apply forallb_take_while. rewrite <- Hdrop.
    by apply PyStrFacts.forallb_drop.
Qed.

(** X21.  [clean_username] never returns an [@].  Its result is either the
    input without [@] and surrounding white space, or, for a text with a
    profile URL, the non-empty run of characters other than [/] and [?] that
    follows [instagram.com/]. *)
Theorem clean_username_spec (text : string) :
  let stripped := strip is_space (remove (Ascii.eqb "@") text) in
  let name := clean_username text in
  contains "@" name = false
  /\ (name = stripped
      \/ (name <> "" /\ forallb name_char name = true
          /\ substr_in ("instagram.com/" +:+ name) stripped = true))
  /\ (substr_in "instagram.com" stripped = false -> name = stripped).
Proof.
  intros stripped name.
  assert (forallb (fun a => negb (Ascii.eqb "@" a)) stripped = true) as Hclean.
  { unfold stripped, strip.
    apply forallb_rstrip, forallb_lstrip, PyStrFacts.forallb_remove. }
  unfold name, clean_username. fold stripped.
  destruct (substr_in "instagram.com" stripped).
  - destruct (search_profile stripped) as [group|] eqn:Hsearch.
    + destruct (search_profile_spec _ _ Hsearch) as (Hne & Hname & Hsub & Hall).
      split_and!; [|by right|done].
      apply PyStrFacts.contains_false_forallb. by apply Hall.
    + split_and!; [|by left|done]. by apply PyStrFacts.contains_false_forallb.
  - split_and!; [|by left|done]. by apply PyStrFacts.contains_false_forallb.
Qed.

End SocialExtras.


(** * The summary of checked links *)

Module LinkExtras.
Import LinkCheck.

Lemma count_result_None a r : count_result a r = None <-> lacks_url r.
Proof.
  unfold count_result, lacks_url.
  destruct (String.eqb_spec (default "unknown" (link_status r)) "working")
    as [Hw|Hw]; [rewrite Hw; by split; [|intros [? _]]|].
  destruct (String.eqb_spec (default "unknown" (link_status r)) "broken")
    as [Hb|Hb].
  - destruct (link_url r); cbn; [by split; [|intros [_ ?]]|done].
  - destruct (String.eqb _ "timeout"); cbn; by split; [|intros [? _]].
Qed.

Lemma count_result_Some a r a' :
  count_result a r = Some a' ->
  total_checked a' = total_checked a
  /\ statuses a' = S (statuses a)
  /\ length (broken_link_details a') + broken_links a
     = length (broken_link_details a) + broken_links a'
  /\ redirected_links a <= redirected_links a' <= S (redirected_links a)
  /\ link_recommendations a' = link_recommendations a.
Proof.
  unfold count_result, statuses.
  destruct (String.eqb _ "working"); [|destruct (String.eqb _ "broken");
    [destruct (link_url r); [|done]|destruct (String.eqb _ "timeout")]];
    cbn [mbind option_bind]; intros [= <-];
    cbn [total_checked working_links broken_links timeout_links error_links
         redirected_links broken_link_details link_recommendations];
    rewrite ?length_app; cbn [length];
    destruct (0 <? default 0 (redirect_count r))%Z; split_and!; done || lia.
Qed.

Lemma count_from_None results :
  foldl (fun acc result => a ← acc; count_result a result) None results = None.
Proof. induction results as [|r rs IH]; [done|]. apply IH. Qed.

Lemma count_from results a :
  match foldl (fun acc result => a ← acc; count_result a result) (Some a) results
  with
  | Some a' =>
      Forall (fun r => ~ lacks_url r) results
      /\ total_checked a' = total_checked a
      /\ statuses a' = statuses a + length results
      /\ length (broken_link_details a') + broken_links a
         = length (broken_link_details a) + broken_links a'
      /\ redirected_links a <= redirected_links a'
         <= redirected_links a + length results
      /\ link_recommendations a' = link_recommendations a
  | None => Exists lacks_url results
  end.
Proof.
  revert a. induction results as [|r rs IH]; intros a; cbn [foldl].
  { cbn [length]. split_and!; done || lia. }
  cbn [mbind option_bind].
  destruct (count_result a r) as [a1|] eqn:Hr.
  - specialize (IH a1).
    pose proof (count_result_Some _ _ _ Hr) as (? & ? & ? & ? & ?).
    destruct (foldl _ (Some a1) rs) as [a'|].
    + destruct IH as (Hall & ? & ? & ? & ? & ?).
      cbn [length]. split_and!; try congruence; try lia.
      apply Forall_cons_2; [|done]. intros Hlack.
      apply (count_result_None a) in Hlack. congruence.
    + by right.
  - rewrite count_from_None. left. by apply (count_result_None a).
Qed.

Section Rounding.
Context `{!Float64}.

(** X23.  When every broken result has its URL, [_analyze_link_results]
    returns a summary in which each result is counted under exactly one of
    working, broken, timeout and error, the broken links are listed one by
    one, and no more links are redirected than were checked.  The summary
    says that all links work exactly when the working links are all the
    links, which includes the case that no link was checked. *)
Theorem analyze_link_results_counts (link_results : list LinkResult) :
  (forall r, r ∈ link_results ->
     default "unknown" (link_status r) = "broken" -> is_Some (link_url r)) ->
  exists a,
    _analyze_link_results link_results = Some a
    /\ total_checked a = length link_results
    /\ working_links a + broken_links a + timeout_links a + error_links a
       = total_checked a
    /\ length (broken_link_details a) = broken_links a
    /\ redirected_links a <= total_checked a
    /\ (all_working_text ∈ link_recommendations a
        <-> working_links a = total_checked a)
    /\ (link_results = [] -> link_recommendations a = [all_working_text]).
Proof.
  intros Hurls.
  unfold _analyze_link_results, count_results.
  pose proof (count_from link_results (empty_analysis (length link_results)))
    as Hcount.
  destruct (foldl _ _ link_results) as [c|]; cycle 1.
  { apply Exists_exists in Hcount as (r & Hin & Hb & Hu).
    destruct (Hurls r Hin Hb) as [u Hu']. congruence. }
  destruct Hcount as (_ & Htotal & Hstat & Hdetails & Hred & _).
  cbn [mbind option_bind]. eexists. split; [reflexivity|].
  cbn [total_checked working_links broken_links timeout_links error_links
       redirected_links broken_link_details link_recommendations].
  unfold statuses in Hstat.
  cbn [empty_analysis total_checked working_links broken_links timeout_links
       error_links redirected_links broken_link_details length] in *.
  split_and!; [done|lia|lia|lia| |].
  - destruct (Nat.eqb_spec (working_links c) (total_checked c)) as [Heq|Hne].
    + split; [done|]. intros _. apply elem_of_app. right. by left.
    + split; [|done]. intros Hin. exfalso.
      repeat match type of Hin with
             | context [if ?b then _ else _] => destruct b
             end;
        repeat (apply elem_of_app in Hin as [Hin|Hin]);
        repeat match goal with
               | H : _ ∈ [] |- _ => by apply elem_of_nil in H
               | H : _ ∈ [_] |- _ => apply list_elem_of_singleton in H
               end; discriminate.
  - intros ->. cbn in Hstat, Hred, Htotal.
    assert (working_links c = 0 /\ broken_links c = 0 /\ timeout_links c = 0
            /\ redirected_links c = 0 /\ total_checked c = 0)
      as (-> & -> & -> & -> & ->) by lia.
    cbn [Nat.ltb Nat.leb Nat.eqb app].
    assert (Qle_bool (inject_Z (Z.of_nat 0))
              (fl (inject_Z (Z.of_nat 0) * fl (3 # 10))) = true) as ->; [|done].
    apply Qle_bool_iff.
    apply Qle_trans with (fl 0); [rewrite fl_0; apply Qle_refl|].
    apply fl_mono. rewrite Qmult_0_l. apply Qle_refl.
Qed.

End Rounding.

Lemma analyze_link_results_counts_witness :
  exists a,
    @_analyze_link_results Binary64Facts.binary64 checked_links = Some a
    /\ total_checked a = length checked_links
    /\ working_links a + broken_links a + timeout_links a + error_links a
       = total_checked a
    /\ length (broken_link_details a) = broken_links a
    /\ redirected_links a <= total_checked a
    /\ (all_working_text ∈ link_recommendations a
        <-> working_links a = total_checked a)
    /\ (checked_links = [] -> link_recommendations a = [all_working_text]).
Proof.
  apply (@analyze_link_results_counts Binary64Facts.binary64 checked_links).
  intros r Hin Hbroken. apply list_elem_of_In in Hin. simpl in Hin.
  destruct Hin as [<-|[<-|[<-|[]]]]; by eexists.
Defined.

End LinkExtras.


(** * Internal links and normalised URLs *)

Module UrlExtras.
Import PyStr UrlLib WebAudit InternalLinks.

(** X24.  A link domain counts as internal exactly when it is the base
    domain or ends with a dot and the base domain; the separate test for a
    leading [www.] never changes the answer. *)
Theorem same_site_spec (link_domain base_domain : string) :
  (same_site link_domain base_domain = true
   <-> link_domain = base_domain
       \/ exists sub, link_domain = sub +:+ "." +:+ base_domain)
  /\ same_site link_domain base_domain
     = String.eqb link_domain base_domain
       || endswith link_domain ("." +:+ base_domain).
Proof.
  assert (startswith link_domain "www." && String.eqb (drop 4 link_domain) base_domain
          = true -> endswith link_domain ("." +:+ base_domain) = true) as Hwww.
  { intros [Hstart Hdrop%String.eqb_eq]%andb_true_iff.
    apply PyStrMore.startswith_append in Hstart.
    change (String.length "www.") with 4 in Hstart. rewrite Hdrop in Hstart.
    apply PyStrMore.endswith_iff. exists "www". by rewrite Hstart. }
  assert (same_site link_domain base_domain
          = String.eqb link_domain base_domain
            || endswith link_domain ("." +:+ base_domain)) as Heq.
  { unfold same_site.
    destruct (String.eqb link_domain base_domain); [done|]. cbn [orb].
    destruct (endswith link_domain ("." +:+ base_domain)); [done|]. cbn [orb].
    destruct (_ && _); [|done]. by specialize (Hwww eq_refl). }
  split; [|done].
  rewrite Heq, orb_true_iff, String.eqb_eq, PyStrMore.endswith_iff. done.
Qed.

Section WithChecks.
Context `{!UrlChecks}.

(** X25.  With a valid http(s) base, [_normalize_url] returns the link as it
    is written or an absolute http(s) URL; an empty link stays empty. *)
Theorem normalize_url_shape (href base_url normalized : string) :
  _is_valid_url base_url = true ->
  _normalize_url href base_url = Some normalized ->
  normalized = href \/ absolute normalized = true.
Proof.
  intros Hvalid. unfold _normalize_url.
  destruct (is_empty href) eqn:Hempty.
  { destruct href; [|done]. intros [= <-]. by left. }
  destruct (absolute href); [intros [= <-]; by left|].
  destruct (startswith href "//") eqn:Hrel.
  - destruct (UrlFacts.valid_url_inv _ Hvalid) as (b & -> & Hs & Hn).
    cbn [mbind option_bind]. intros [= <-]. right.
    by apply UrlClaims.protocol_relative_absolute.
  - intros Hjoin. by apply (UrlClaims.urljoin_shape base_url).
Qed.

End WithChecks.

Lemma normalize_url_shape_witness :
  "http://a.test/b" = "/b"
  \/ @absolute "http://a.test/b" = true.
Proof.
  apply (@normalize_url_shape Fixture.permissive_checks "/b" Fixture.page_a
           "http://a.test/b"); reflexivity.
Defined.

End UrlExtras.
